(** * Job-listing scraper: extraction, scoring, ranking and orchestration

    A shallow embedding of the TypeScript sources
    [src/scraper/parser.ts] (class [JobParser]),
    [src/services/job-matcher.ts] (class [JobMatcher]) and
    [src/scraper/automation.ts] (class [JobScrapingAutomation]),
    together with the properties their specification states.

    Conventions of the embedding.
    - A JavaScript string is a [string]: a sequence of code units below 256
      (the Latin-1 range).  [toLowerCase] and [trim] follow ECMAScript on
      that range; code units above it are outside the model.
    - A JavaScript number is a [number]: an exact rational, the two
      infinities, or NaN.  Division by zero, NaN propagation and the
      comparison rules are those of ECMAScript; binary rounding and the
      sign of zero are not modelled.
    - [new Date()] and [Date.now()] read a [Clock]; every read consumes one
      reading, so code that reads the clock twice may see two times.
    - An optional field [f?: T] is an [option T]; [undefined] is [None].
    - A call that may throw returns an [Outcome]: the message thrown, or
      the value returned.
    - Calls to the logger and the pauses between requests have no effect on
      the values computed and are left out. *)

From Stdlib Require Import ZArith QArith Qround Lqa Lia.
From Stdlib Require Import String Ascii List Bool DecimalString.
From Stdlib Require Import Permutation Sorted.
Import ListNotations.

Set Implicit Arguments.

(** ** ECMAScript built-ins used by the sources *)

Module JS.

Local Open Scope string_scope.

(** *** Strings *)

(** Lower-casing of one Latin-1 code unit: A-Z and the accented capitals
    U+00C0..U+00DE (except the multiplication sign U+00D7) move up by 32. *)
Definition lower_char (c : ascii) : ascii :=
  let n := nat_of_ascii c in
  if ((65 <=? n) && (n <=? 90))%nat then ascii_of_nat (n + 32)
  else if ((192 <=? n) && (n <=? 222) && negb (n =? 215))%nat
       then ascii_of_nat (n + 32)
  else c.

Fixpoint toLowerCase (s : string) : string :=
  match s with
  | EmptyString => EmptyString
  | String c s' => String (lower_char c) (toLowerCase s')
  end.

(** [s.indexOf(sub)]: position of the first occurrence, [None] for -1. *)
Fixpoint indexOf (s sub : string) : option nat :=
  if prefix sub s then Some 0%nat
  else match s with
       | EmptyString => None
       | String _ s' => option_map S (indexOf s' sub)
       end.

(** [s.includes(sub)]. *)
Definition includes (s sub : string) : bool :=
  match indexOf s sub with Some _ => true | None => false end.

(** [s.substring(i, j)] for [i <= j <= s.length] (the only way the sources
    call it); Stdlib's [substring] takes a start and a length. *)
Definition substring (s : string) (i j : nat) : string :=
  String.substring i (j - i) s.

(** White space and line terminators of ECMAScript below 256:
    TAB, LF, VT, FF, CR, SP and NBSP. *)
Definition is_space (c : ascii) : bool :=
  let n := nat_of_ascii c in
  (((9 <=? n) && (n <=? 13)) || (n =? 32) || (n =? 160))%nat.

Fixpoint trimStart (s : string) : string :=
  match s with
  | EmptyString => EmptyString
  | String c s' => if is_space c then trimStart s' else s
  end.

(** Drops trailing white space: a character is kept when it is not a space
    or when something non-space follows it. *)
Fixpoint trimEnd (s : string) : string :=
  match s with
  | EmptyString => EmptyString
  | String c s' =>
      match trimEnd s' with
      | EmptyString => if is_space c then EmptyString else String c EmptyString
      | r => String c r
      end
  end.

Definition trim (s : string) : string := trimEnd (trimStart s).

(** Truthiness of a string: the empty string is falsy. *)
Definition truthy (s : string) : bool :=
  match s with EmptyString => false | _ => true end.

(** [s || d] on an optional string. *)
Definition or_else (o : option string) (d : string) : string :=
  match o with
  | Some s => if truthy s then s else d
  | None => d
  end.

(** [l.join(sep)]. *)
Fixpoint join (sep : string) (l : list string) : string :=
  match l with
  | [] => ""
  | [x] => x
  | x :: r => x ++ sep ++ join sep r
  end.

(** *** Numbers *)

Inductive number : Type :=
| Fin (q : Q)
| PosInf
| NegInf
| NaN.

Definition of_nat (n : nat) : number := Fin (inject_Z (Z.of_nat n)).
Definition of_Z (z : Z) : number := Fin (inject_Z z).

Definition Qis_zero (q : Q) : bool := Qeq_bool q 0.
Definition Qis_neg (q : Q) : bool := negb (Qle_bool 0 q).

Definition add (a b : number) : number :=
  match a, b with
  | NaN, _ | _, NaN => NaN
  | Fin x, Fin y => Fin (x + y)
  | PosInf, NegInf | NegInf, PosInf => NaN
  | PosInf, _ | _, PosInf => PosInf
  | NegInf, _ | _, NegInf => NegInf
  end.

Definition neg (a : number) : number :=
  match a with
  | Fin x => Fin (- x)
  | PosInf => NegInf
  | NegInf => PosInf
  | NaN => NaN
  end.

Definition sub (a b : number) : number := add a (neg b).

(** Infinity with the sign of a product or quotient. *)
Definition inf_signed (negative : bool) : number :=
  if negative then NegInf else PosInf.

Definition mul (a b : number) : number :=
  match a, b with
  | NaN, _ | _, NaN => NaN
  | Fin x, Fin y => Fin (x * y)
  | Fin x, PosInf | PosInf, Fin x =>
      if Qis_zero x then NaN else inf_signed (Qis_neg x)
  | Fin x, NegInf | NegInf, Fin x =>
      if Qis_zero x then NaN else inf_signed (negb (Qis_neg x))
  | PosInf, PosInf | NegInf, NegInf => PosInf
  | PosInf, NegInf | NegInf, PosInf => NegInf
  end.

Definition div (a b : number) : number :=
  match a, b with
  | NaN, _ | _, NaN => NaN
  | Fin x, Fin y =>
      if Qis_zero y
      then (if Qis_zero x then NaN else inf_signed (Qis_neg x))
      else Fin (x / y)
  | Fin _, _ => Fin 0
  | PosInf, Fin y => inf_signed (Qis_neg y)
  | NegInf, Fin y => inf_signed (negb (Qis_neg y))
  | _, _ => NaN
  end.

(** [a <= b], [a < b], [a >= b], [a > b]: false as soon as one side is NaN. *)
Definition leb (a b : number) : bool :=
  match a, b with
  | NaN, _ | _, NaN => false
  | Fin x, Fin y => Qle_bool x y
  | NegInf, _ | _, PosInf => true
  | _, _ => false
  end.

Definition ltb (a b : number) : bool :=
  match a, b with
  | NaN, _ | _, NaN => false
  | Fin x, Fin y => negb (Qle_bool y x)
  | PosInf, _ | _, NegInf => false
  | _, _ => true
  end.

Definition geb (a b : number) : bool := leb b a.
Definition gtb (a b : number) : bool := ltb b a.

(** [Math.min(a, b)] and [Math.max(a, b)]. *)
Definition Math_min (a b : number) : number :=
  match a, b with
  | NaN, _ | _, NaN => NaN
  | _, _ => if leb a b then a else b
  end.

Definition Math_max (a b : number) : number :=
  match a, b with
  | NaN, _ | _, NaN => NaN
  | _, _ => if leb a b then b else a
  end.

(** [Math.floor(a)]. *)
Definition Math_floor (a : number) : number :=
  match a with
  | Fin x => Fin (inject_Z (Qfloor x))
  | _ => a
  end.

(** *** Arrays *)

(** [l.sort(cmp)].  ECMAScript requires the sort to be stable and, for a
    consistent comparator, sorted; every conforming engine then returns the
    list that this insertion sort returns.  An element moves right past
    another only when the comparator is positive on the pair (a NaN
    comparator value counts as 0). *)
Fixpoint sort_insert {A} (cmp : A -> A -> number) (x : A) (l : list A) : list A :=
  match l with
  | [] => [x]
  | y :: r => if gtb (cmp x y) (Fin 0) then y :: sort_insert cmp x r else x :: l
  end.

Definition sort {A} (cmp : A -> A -> number) (l : list A) : list A :=
  fold_right (sort_insert cmp) [] l.

(** [l.slice(0, end)]: [end] is truncated to an integer (NaN to 0); a
    negative [end] counts from the end of the list. *)
Definition slice0 {A} (l : list A) (end_ : number) : list A :=
  match end_ with
  | NaN => []
  | PosInf => l
  | NegInf => []
  | Fin q =>
      let k := Z.quot (Qnum q) (Zpos (Qden q)) in
      if (k <? 0)%Z
      then firstn (Z.to_nat (Z.max (Z.of_nat (List.length l) + k) 0)) l
      else firstn (Z.to_nat k) l
  end.

(** *** Number formatting *)

Definition digits (z : Z) : string :=
  DecimalString.NilZero.string_of_uint (N.to_uint (Z.to_N z)).

(** [x.toFixed(0)]: the nearest integer, halves rounded away from zero,
    in decimal.  (From 10^21 on ECMAScript prints an exponent; the model
    prints the digits in full.) *)
Definition toFixed0 (x : number) : string :=
  match x with
  | NaN => "NaN"
  | PosInf => "Infinity"
  | NegInf => "-Infinity"
  | Fin q =>
      if Qis_neg q then "-" ++ digits (Qfloor (- q + (1 # 2)))
      else digits (Qfloor (q + (1 # 2)))
  end.

(** *** Regular expressions *)

(** The fragment of the regular-expression language that the sources use,
    all under the flag [i]: a pattern is a sequence of atoms. *)
Inductive atom : Type :=
| Lit (s : string)       (* literal text, letters in either case *)
| Spaces                 (* \s+ *)
| Digits                 (* (\d+), the capture group *)
| Opt (c : ascii).       (* c? *)

Definition is_digit (c : ascii) : bool :=
  let n := nat_of_ascii c in ((48 <=? n) && (n <=? 57))%nat.

Definition same_letter (c d : ascii) : bool :=
  Ascii.eqb (lower_char c) (lower_char d).

(** [lit] is a prefix of [s] up to case: the text matched and the rest. *)
Fixpoint strip_lit (lit s : string) : option (string * string) :=
  match lit, s with
  | EmptyString, _ => Some (EmptyString, s)
  | String c lit', String d s' =>
      if same_letter c d
      then match strip_lit lit' s' with
           | Some (m, r) => Some (String d m, r)
           | None => None
           end
      else None
  | String _ _, EmptyString => None
  end.

(** Every way to take a non-empty run of characters satisfying [p] off the
    front of [s], the longest first (quantifiers are greedy). *)
Fixpoint runs (p : ascii -> bool) (s : string) : list (string * string) :=
  match s with
  | EmptyString => []
  | String c s' =>
      if p c
      then (map (fun mr => (String c (fst mr), snd mr)) (runs p s')
            ++ [(String c EmptyString, s')])%list
      else []
  end.

(** The first alternative on which the continuation succeeds. *)
Fixpoint first_success {A B} (k : A -> option B) (l : list A) : option B :=
  match l with
  | [] => None
  | x :: r => match k x with Some y => Some y | None => first_success k r end
  end.

(** A match found by [s.match(re)]: [m[0]] and [m[1]]. *)
Record Match : Type := mkMatch {
  whole : string;
  group1 : option string
}.

Definition prepend (m : string) (g : option string) (r : option Match) : option Match :=
  match r with
  | Some x =>
      Some (mkMatch (m ++ whole x)
                    (match g with Some _ => g | None => group1 x end))
  | None => None
  end.

(** A match of the pattern that starts at the front of [s], found by
    backtracking. *)
Fixpoint match_here (re : list atom) (s : string) : option Match :=
  match re with
  | [] => Some (mkMatch EmptyString None)
  | Lit l :: re' =>
      match strip_lit l s with
      | Some (m, r) => prepend m None (match_here re' r)
      | None => None
      end
  | Spaces :: re' =>
      first_success (fun mr => prepend (fst mr) None (match_here re' (snd mr)))
                    (runs is_space s)
  | Digits :: re' =>
      first_success (fun mr => prepend (fst mr) (Some (fst mr)) (match_here re' (snd mr)))
                    (runs is_digit s)
  | Opt c :: re' =>
      let skip := match_here re' s in
      match s with
      | String d s' =>
          if same_letter c d
          then match prepend (String d EmptyString) None (match_here re' s') with
               | Some x => Some x
               | None => skip
               end
          else skip
      | EmptyString => skip
      end
  end.

(** [s.match(re)]: the leftmost match, [None] for [null]. *)
Fixpoint String_match (s : string) (re : list atom) : option Match :=
  match match_here re s with
  | Some m => Some m
  | None =>
      match s with
      | EmptyString => None
      | String _ s' => String_match s' re
      end
  end.

(** [parseInt] of a string of decimal digits. *)
Definition parseInt_digits (s : string) : Z :=
  fold_left (fun acc c => (10 * acc + (Z.of_nat (nat_of_ascii c) - 48))%Z)
            (list_ascii_of_string s) 0%Z.

(** *** Dates and the clock *)

(** A [Date] object: a time value in milliseconds, or an invalid date
    (whose [getTime()] is NaN). *)
Inductive Date : Type :=
| ValidDate (ms : Z)
| InvalidDate.

Definition getTime (d : Date) : number :=
  match d with
  | ValidDate ms => of_Z ms
  | InvalidDate => NaN
  end.

(** A time value is kept only within 8.64e15 ms of the epoch (TimeClip). *)
Definition timeClip (ms : Z) : Date :=
  if (Z.abs ms <=? 8640000000000000)%Z then ValidDate ms else InvalidDate.

(** [d.setDate(d.getDate() - n)] and [d.setHours(d.getHours() - n)], in a
    time zone without daylight-saving shifts. *)
Definition minusDays (d : Date) (n : Z) : Date :=
  match d with
  | ValidDate ms => timeClip (ms - n * 86400000)
  | InvalidDate => InvalidDate
  end.

Definition minusHours (d : Date) (n : Z) : Date :=
  match d with
  | ValidDate ms => timeClip (ms - n * 3600000)
  | InvalidDate => InvalidDate
  end.

(** The system clock: reading [k] is the time in milliseconds that the
    [k]-th coming read returns. *)
Definition Clock : Type := nat -> Z.

(** Computations that read the clock. *)
Definition M (A : Type) : Type := Clock -> A * Clock.

Definition ret {A} (a : A) : M A := fun c => (a, c).

Definition bind {A B} (m : M A) (f : A -> M B) : M B :=
  fun c => let (a, c') := m c in f a c'.

(** [Date.now()] and [new Date().getTime()]. *)
Definition Date_now : M Z := fun c => (c 0%nat, fun k => c (S k)).

Definition run {A} (m : M A) (c : Clock) : A := fst (m c).

(** *** Completions *)

(** What a call throws, or what it returns. *)
Inductive Outcome (A : Type) : Type :=
| Threw (message : string)
| Returned (a : A).
Arguments Threw {A} message.
Arguments Returned {A} a.

(** The message of the TypeError that reading a property of [undefined]
    throws.  The wording is the engine's (this is V8's); no property below
    depends on it. *)
Definition TypeError_reading (property : string) : string :=
  "Cannot read properties of undefined (reading '" ++ property ++ "')".

(** A statement that uses the value of a call: what the call throws is
    thrown on. *)
Definition unless_thrown {A B} (e : Outcome A) (k : A -> M (Outcome B))
  : M (Outcome B) :=
  match e with
  | Threw message => ret (Threw message)
  | Returned a => k a
  end.

End JS.

Notation "x <- m ;; k" := (JS.bind m (fun x => k))
  (at level 61, m at next level, right associativity).

Notation "x <-! e ;; k" := (JS.unless_thrown e (fun x => k))
  (at level 61, e at next level, right associativity).

Import JS.

Local Open Scope string_scope.

(** ** Data model ([src/database/models.ts], [src/scraper/parser.ts]) *)

(** The profile section of the resume file. *)
Module Candidate.
Record t : Type := mk {
  name : string;
  email : string;
  phone : string;
  portfolio : string;
  location : list string;
  experience_years : number;
  roles : list string;
  tech_stack : list string
}.
End Candidate.

(** The parsed resume file.  [interface ResumeData] declares one key,
    [candidate], which [JobMatcher] and the orchestrator read.  [JobParser]
    and [GoogleJobSearcher] read the profile under the key [data], which the
    interface does not declare: [data] is [None] (the key is [undefined])
    for every object of the declared shape, and a profile for a file that
    carries that key besides. *)
Module ResumeData.
Record t : Type := mk {
  candidate : Candidate.t;
  data : option Candidate.t
}.
End ResumeData.

Module JobDetails.
Record t : Type := mk {
  title : string;
  company : string;
  company_url : option string;
  job_url : string;
  description : option string;
  requirements : option string;
  tech_stack : option (list string);
  salary_range : option string;
  location : option string;
  posted_date : option Date
}.
End JobDetails.

(** [ScoredJob extends JobDetails]: the spread record with two more
    fields. *)
Module ScoredJob.
Record t : Type := mk {
  job : JobDetails.t;
  score : number;
  matchReasons : list string
}.
End ScoredJob.

(** ** [JobParser]: scoring ([src/scraper/parser.ts]) *)

Module JobParser.

(** The callback of [jobTechStack.filter] in [calculateTechStackScore]:
    [userTechStack.some(u => u.toLowerCase() === tech.toLowerCase())]. *)
Definition techMatch (userTechStack : list string) (tech : string) : bool :=
  existsb (fun userTech => String.eqb (toLowerCase userTech) (toLowerCase tech))
          userTechStack.

(** [this.resumeData.data.tech_stack] throws a TypeError when the resume
    has no [data]; so do the reads of [roles] and [location] below. *)
Definition calculateTechStackScore
  (resumeData : ResumeData.t) (jobTechStack : list string) : Outcome number :=
  if (List.length jobTechStack =? 0)%nat then Returned (Fin 0)
  else
    match ResumeData.data resumeData with
    | None => Threw (TypeError_reading "tech_stack")
    | Some data =>
        let userTechStack := Candidate.tech_stack data in
        let matches := filter (techMatch userTechStack) jobTechStack in
        Returned
          (mul (div (of_nat (List.length matches))
                    (Math_max (of_nat (List.length jobTechStack))
                              (of_nat (List.length userTechStack))))
               (Fin 100))
    end.

(** The [for (const role of userRoles)] loop with its early [return 100]:
    [true] when the loop returns, [false] when it runs to its end. *)
Fixpoint anyRoleInTitle (titleLower : string) (userRoles : list string) : bool :=
  match userRoles with
  | [] => false
  | role :: rest =>
      if includes titleLower (toLowerCase role) then true
      else anyRoleInTitle titleLower rest
  end.

Definition keywords : list string :=
  ["developer"; "engineer"; "software"; "full stack"; "backend"; "frontend"].

Definition calculateTitleScore (resumeData : ResumeData.t) (title : string)
  : Outcome number :=
  match ResumeData.data resumeData with
  | None => Threw (TypeError_reading "roles")
  | Some data =>
      let userRoles := Candidate.roles data in
      let titleLower := toLowerCase title in
      if anyRoleInTitle titleLower userRoles then Returned (Fin 100)
      else
        let matches := filter (fun keyword => includes titleLower keyword) keywords in
        Returned
          (mul (div (of_nat (List.length matches)) (of_nat (List.length keywords)))
               (Fin 60))
  end.

(** The [for (const userLocation of userLocations)] loop of
    [calculateLocationScore]. *)
Fixpoint anyLocationIn (locationLower : string) (userLocations : list string) : bool :=
  match userLocations with
  | [] => false
  | userLocation :: rest =>
      if includes locationLower (toLowerCase userLocation) then true
      else anyLocationIn locationLower rest
  end.

Definition calculateLocationScore (resumeData : ResumeData.t) (location : string)
  : Outcome number :=
  match ResumeData.data resumeData with
  | None => Threw (TypeError_reading "location")
  | Some data =>
      let userLocations := Candidate.location data in
      let locationLower := toLowerCase location in
      if anyLocationIn locationLower userLocations then Returned (Fin 100)
      else if includes locationLower "remote" || includes locationLower "work from home"
           then Returned (Fin 100)
      else Returned (Fin 0)
  end.

Definition msPerDay : number := Fin (1000 * 60 * 60 * 24).

Definition calculateRecencyScore (postedDate : option Date) : M number :=
  match postedDate with
  | None => ret (Fin 50)
  | Some d =>
      now <- Date_now ;;
      let daysDiff := Math_floor (div (sub (of_Z now) (getTime d)) msPerDay) in
      ret (if leb daysDiff (Fin 1) then Fin 100
           else if leb daysDiff (Fin 3) then Fin 80
           else if leb daysDiff (Fin 7) then Fin 60
           else if leb daysDiff (Fin 14) then Fin 40
           else if leb daysDiff (Fin 30) then Fin 20
           else Fin 0)
  end.

Definition calculateJobScore (resumeData : ResumeData.t) (jobDetails : JobDetails.t)
  : M (Outcome number) :=
  let score := Fin 0 in
  let maxScore := Fin 100 in
  techStackScore <-!
    calculateTechStackScore resumeData
      (match JobDetails.tech_stack jobDetails with Some l => l | None => [] end) ;;
  let score := add score (mul techStackScore (Fin (4 # 10))) in
  titleScore <-! calculateTitleScore resumeData (JobDetails.title jobDetails) ;;
  let score := add score (mul titleScore (Fin (3 # 10))) in
  locationScore <-!
    calculateLocationScore resumeData (or_else (JobDetails.location jobDetails) "") ;;
  let score := add score (mul locationScore (Fin (2 # 10))) in
  recencyScore <- calculateRecencyScore (JobDetails.posted_date jobDetails) ;;
  let score := add score (mul recencyScore (Fin (1 # 10))) in
  ret (Returned (div (Math_min score maxScore) maxScore)).

(** *** Extraction *)

(** What [page.evaluate] sees of the loaded document:
    [querySelector sel] is the [textContent] of the first element matching
    the selector ([None] when no element matches; the inner [None] is a
    [null] text content). *)
Record Document : Type := mkDocument {
  querySelector : string -> option (option string);
  hostname : string;
  innerText : string
}.

(** A Playwright page: [waitForLoadState] and [evaluate] may throw. *)
Record Page : Type := mkPage {
  url : string;
  domcontentloaded : bool;
  document : option Document
}.

(** The selector lists, in the order of the source.  Attribute values are
    written without their quotation marks, which CSS allows for these
    values. *)
Definition titleSelectors : list string :=
  ["h1[data-testid*=job-title]"; "h1[class*=job-title]"; "h1[class*=jobTitle]";
   ".job-title h1"; ".jobsearch-JobInfoHeader-title"; "[data-testid=job-title]";
   "h1"].

Definition companySelectors : list string :=
  ["[data-testid*=company]"; ".company-name"; ".jobsearch-InlineCompanyRating";
   "[class*=company]"; "a[data-testid=company-name]"].

Definition descriptionSelectors : list string :=
  ["[data-testid=job-description]"; ".job-description";
   ".jobsearch-jobDescriptionText"; "[class*=description]"; "#job-description"].

Definition locationSelectors : list string :=
  ["[data-testid*=location]"; ".location"; ".jobsearch-JobInfoHeader-subtitle";
   "[class*=location]"].

Definition salarySelectors : list string :=
  ["[data-testid*=salary]"; ".salary"; "[class*=salary]"; "[class*=compensation]"].

(** [element.textContent?.trim()] as a truthy-or-not string: [null] and
    the empty string both give the empty string. *)
Definition trimmedText (textContent : option string) : string :=
  match textContent with Some t => trim t | None => "" end.

(** The helper [findBySelectors]: the first selector whose element has
    non-empty trimmed text; the result is that element's text content. *)
Fixpoint findBySelectors (doc : Document) (selectors : list string)
  : option (option string) :=
  match selectors with
  | [] => None
  | selector :: rest =>
      match querySelector doc selector with
      | Some textContent =>
          if truthy (trimmedText textContent) then Some textContent
          else findBySelectors doc rest
      | None => findBySelectors doc rest
      end
  end.

(** [el?.textContent?.trim() || ""]. *)
Definition textOf (element : option (option string)) : string :=
  match element with Some textContent => trimmedText textContent | None => "" end.

(** The object that the [page.evaluate] callback returns. *)
Record Evaluated : Type := mkEvaluated {
  ev_title : string;
  ev_company : string;
  ev_description : string;
  ev_location : string;
  ev_salary : string;
  ev_companyUrl : string;
  ev_fullText : string
}.

Definition evaluate (doc : Document) : Evaluated :=
  mkEvaluated
    (textOf (findBySelectors doc titleSelectors))
    (textOf (findBySelectors doc companySelectors))
    (textOf (findBySelectors doc descriptionSelectors))
    (textOf (findBySelectors doc locationSelectors))
    (textOf (findBySelectors doc salarySelectors))
    (hostname doc)
    (innerText doc).

Definition catalog : list string :=
  ["JavaScript"; "HTML"; "CSS"; "SQL"; "Git"; "Docker"; "Kubernetes"; "Angular";
   "Vue.js"; "Express.js"; "Django"; "Flask"; "Spring"; "Laravel";
   "Ruby on Rails"; "PHP"; "C++"; "C#"; "Java"; "Go"; "Rust"; "Swift"; "Kotlin";
   "Flutter"; "React Native"; "Unity"; "TensorFlow"; "PyTorch"; "Pandas";
   "NumPy"; "Scikit-learn"; "Elasticsearch"; "Kafka"; "RabbitMQ"; "Nginx";
   "Apache"; "Jenkins"; "GitLab CI"; "GitHub Actions"; "Terraform"; "Ansible"].

(** [[...new Set(l)]]: the first occurrence of each string is kept. *)
Fixpoint uniq (seen l : list string) : list string :=
  match l with
  | [] => []
  | x :: r =>
      if existsb (String.eqb x) seen then uniq seen r else x :: uniq (x :: seen) r
  end.

Definition extractTechStack (resumeData : ResumeData.t) (text : string)
  : Outcome (list string) :=
  match ResumeData.data resumeData with
  | None => Threw (TypeError_reading "tech_stack")
  | Some data =>
      let allTechStack := (Candidate.tech_stack data ++ catalog)%list in
      let foundTech :=
        filter (fun tech => includes (toLowerCase text) (toLowerCase tech))
               allTechStack in
      Returned (uniq [] foundTech)
  end.

Definition requirementSections : list string :=
  ["requirements:"; "qualifications:"; "what we're looking for:";
   "you should have:"; "minimum requirements:"; "required skills:"; "must have:"].

(** The [for (const section of requirementSections)] loop of
    [extractRequirements]. *)
Fixpoint extractRequirements_from (text lowerText : string) (sections : list string)
  : string :=
  match sections with
  | [] => ""
  | section :: rest =>
      match indexOf lowerText section with
      | Some index =>
          let startIndex := (index + String.length section)%nat in
          let endIndex := Nat.min (startIndex + 1000) (String.length text) in
          trim (substring text startIndex endIndex)
      | None => extractRequirements_from text lowerText rest
      end
  end.

Definition extractRequirements (text : string) : string :=
  extractRequirements_from text (toLowerCase text) requirementSections.

Definition datePatterns : list (list atom) :=
  [ [Lit "posted"; Spaces; Digits; Spaces; Lit "day"; Opt "s"; Spaces; Lit "ago"];
    [Digits; Spaces; Lit "day"; Opt "s"; Spaces; Lit "ago"];
    [Lit "posted"; Spaces; Digits; Spaces; Lit "hour"; Opt "s"; Spaces; Lit "ago"];
    [Digits; Spaces; Lit "hour"; Opt "s"; Spaces; Lit "ago"];
    [Lit "posted"; Spaces; Lit "today"];
    [Lit "posted"; Spaces; Lit "yesterday"] ].

(** The [for (const pattern of datePatterns)] loop of [extractPostedDate]. *)
Fixpoint extractPostedDate_from (text : string) (now : Date) (patterns : list (list atom))
  : option Date :=
  match patterns with
  | [] => None
  | pattern :: rest =>
      match String_match text pattern with
      | Some m =>
          if includes (toLowerCase (whole m)) "today" then Some now
          else if includes (toLowerCase (whole m)) "yesterday"
               then Some (minusDays now 1)
          else if truthy (or_else (group1 m) "")
               then let value := parseInt_digits (or_else (group1 m) "") in
                    if includes (toLowerCase (whole m)) "hour"
                    then Some (minusHours now value)
                    else Some (minusDays now value)
          else extractPostedDate_from text now rest
      | None => extractPostedDate_from text now rest
      end
  end.

Definition extractPostedDate (text : string) : M (option Date) :=
  now <- Date_now ;;
  ret (extractPostedDate_from text (ValidDate now) datePatterns).

(** [s || undefined]. *)
Definition or_undefined (s : string) : option string :=
  if truthy s then Some s else None.

(** [extractJobDetails]; whatever is thrown inside the [try] is caught and
    turned into [null]. *)
Definition extractJobDetails (resumeData : ResumeData.t) (page : Page)
  : M (option JobDetails.t) :=
  if negb (domcontentloaded page) then ret None
  else
    match document page with
    | None => ret None
    | Some doc =>
        let jobDetails := evaluate doc in
        if negb (truthy (ev_title jobDetails)) || negb (truthy (ev_company jobDetails))
        then ret None
        else
          match extractTechStack resumeData (ev_fullText jobDetails) with
          | Threw _ => ret None
          | Returned techStack =>
              let requirements := extractRequirements (ev_fullText jobDetails) in
              postedDate <- extractPostedDate (ev_fullText jobDetails) ;;
              ret (Some (JobDetails.mk
                           (ev_title jobDetails)
                           (ev_company jobDetails)
                           (Some (ev_companyUrl jobDetails))
                           (url page)
                           (Some (ev_description jobDetails))
                           (Some requirements)
                           (Some techStack)
                           (or_undefined (ev_salary jobDetails))
                           (or_undefined (ev_location jobDetails))
                           postedDate))
          end
    end.

End JobParser.

(** ** Persistence ([src/database/repository.ts]) *)

(** The two tables as an in-memory store.  Every statement succeeds: a
    row that the columns of [init.sql] would reject, and what the columns
    do to a value they accept (the rounding of [score], the day of
    [posted_date], the default of [scraped_at]), are outside the model. *)
Module JobRepository.

Inductive Status : Type := running | completed | failed.

(** A row of [scraping_sessions]; [session_date] is a day, counted from the
    epoch. *)
Record ScrapingSession : Type := mkSession {
  id : nat;
  session_date : Z;
  search_queries : list string;
  status : Status;
  total_jobs_found : option nat;
  top_jobs_selected : option nat;
  completed_at : option Z;
  error_message : option string
}.

(** The argument of [insertJobListing]: [Omit<JobListing, "id">]. *)
Record JobListing : Type := mkListing {
  details : JobDetails.t;
  score : number;
  session_id : nat;
  scraped_at : Z
}.

(** A row of [job_listings]. *)
Record Row : Type := mkRow {
  row_id : nat;
  listing : JobListing;
  is_top_pick : bool
}.

Record t : Type := mk {
  scraping_sessions : list ScrapingSession;
  job_listings : list Row;
  next_session_id : nat;
  next_listing_id : nat
}.

(** [INSERT INTO scraping_sessions (session_date, search_queries, status)
    ... RETURNING id].  The statement names three columns: the two counts
    take their default 0 of [init.sql], [completed_at] and [error_message]
    are null.  The column [session_date] is a DATE: it keeps the day of the
    timestamp, here the day in UTC. *)
Definition createSession (session_date : Z) (search_queries : list string)
  (status : Status) (db : t) : nat * t :=
  let sid := next_session_id db in
  (sid,
   mk (scraping_sessions db
       ++ [mkSession sid (session_date / 86400000)%Z search_queries status
                     (Some 0%nat) (Some 0%nat) None None])%list
      (job_listings db) (S sid) (next_listing_id db)).

(** The [Partial<ScrapingSession>] passed to [updateSession]. *)
Record Updates : Type := mkUpdates {
  u_total_jobs_found : option nat;
  u_top_jobs_selected : option nat;
  u_status : option Status;
  u_completed_at : option Z;
  u_error_message : option string
}.

Definition override {A} (new : option A) (old : A) : A :=
  match new with Some x => x | None => old end.

Definition override_opt {A} (new old : option A) : option A :=
  match new with Some x => Some x | None => old end.

Definition applyUpdates (u : Updates) (s : ScrapingSession) : ScrapingSession :=
  mkSession (id s) (session_date s) (search_queries s)
    (override (u_status u) (status s))
    (override_opt (u_total_jobs_found u) (total_jobs_found s))
    (override_opt (u_top_jobs_selected u) (top_jobs_selected s))
    (override_opt (u_completed_at u) (completed_at s))
    (override_opt (u_error_message u) (error_message s)).

(** [UPDATE scraping_sessions SET ... WHERE id = $n]. *)
Definition updateSession (sessionId : nat) (u : Updates) (db : t) : t :=
  mk (map (fun s => if (id s =? sessionId)%nat then applyUpdates u s else s)
          (scraping_sessions db))
     (job_listings db) (next_session_id db) (next_listing_id db).

(** The conflict branch of the upsert: title, company, description and
    score are taken from the new listing. *)
Definition mergeListing (old new : JobListing) : JobListing :=
  let o := details old in
  let n := details new in
  mkListing
    (JobDetails.mk (JobDetails.title n) (JobDetails.company n)
       (JobDetails.company_url o) (JobDetails.job_url o)
       (JobDetails.description n) (JobDetails.requirements o)
       (JobDetails.tech_stack o) (JobDetails.salary_range o)
       (JobDetails.location o) (JobDetails.posted_date o))
    (score new) (session_id old) (scraped_at old).

Definition same_url (job : JobListing) (r : Row) : bool :=
  String.eqb (JobDetails.job_url (details (listing r)))
             (JobDetails.job_url (details job)).

(** [INSERT ... ON CONFLICT (job_url) DO UPDATE ... RETURNING id]. *)
Definition insertJobListing (job : JobListing) (db : t) : nat * t :=
  match find (same_url job) (job_listings db) with
  | Some r =>
      (row_id r,
       mk (scraping_sessions db)
          (map (fun r' => if same_url job r'
                          then mkRow (row_id r') (mergeListing (listing r') job)
                                     (is_top_pick r')
                          else r')
               (job_listings db))
          (next_session_id db) (next_listing_id db))
  | None =>
      let jid := next_listing_id db in
      (jid,
       mk (scraping_sessions db)
          (job_listings db ++ [mkRow jid job false])%list
          (next_session_id db) (S jid))
  end.

(** [UPDATE job_listings SET is_top_pick = TRUE WHERE id = ANY($1)]. *)
Definition markTopPicks (jobIds : list nat) (db : t) : t :=
  mk (scraping_sessions db)
     (map (fun r => if existsb (Nat.eqb (row_id r)) jobIds
                    then mkRow (row_id r) (listing r) true
                    else r)
          (job_listings db))
     (next_session_id db) (next_listing_id db).

Definition lookupSession (sessionId : nat) (db : t) : option ScrapingSession :=
  find (fun s => (id s =? sessionId)%nat) (scraping_sessions db).

End JobRepository.

(** ** The browser pool ([src/scrapers/playwright-manager.ts]) *)

Module PlaywrightManager.

(** The part of the manager that the scraping loop depends on: whether the
    browser was launched, how many contexts are open, and the cap. *)
Record t : Type := mk {
  browser : bool;
  contexts : nat;
  maxConcurrency : number
}.

(** [createContext]: throws without a browser, at the cap, or when the
    browser refuses ([newContextOk] is what the browser does); a context
    that was created is counted. *)
Definition createContext (newContextOk : bool) (pm : t) : option t :=
  if negb (browser pm) then None
  else if geb (of_nat (contexts pm)) (maxConcurrency pm) then None
  else if negb newContextOk then None
  else Some (mk (browser pm) (S (contexts pm)) (maxConcurrency pm)).

(** [closeContext]: the context leaves the list. *)
Definition closeContext (pm : t) : t :=
  mk (browser pm) (Nat.pred (contexts pm)) (maxConcurrency pm).

End PlaywrightManager.

(** ** [JobMatcher] ([src/services/job-matcher.ts]) *)

Module JobMatcher.

(** [reasons.push(r)]. *)
Definition push (reasons : list string) (r : string) : list string :=
  (reasons ++ [r])%list.

(** [if (b) reasons.push(r)]. *)
Definition push_if (b : bool) (r : string) (reasons : list string) : list string :=
  if b then push reasons r else reasons.

(** [roleMatches[0]] inside a template string ([undefined] prints as
    such). *)
Definition first_or_undefined (l : list string) : string :=
  match l with x :: _ => x | [] => "undefined" end.

Definition generateMatchReasons
  (resumeData : ResumeData.t) (jobDetails : JobDetails.t) (score : number)
  : M (list string) :=
  let reasons : list string := [] in
  let candidate := ResumeData.candidate resumeData in
  (* Tech stack matches *)
  let jobTechStack :=
    match JobDetails.tech_stack jobDetails with Some l => l | None => [] end in
  let techMatches :=
    filter (fun tech =>
              existsb (fun userTech =>
                         String.eqb (toLowerCase userTech) (toLowerCase tech))
                      (Candidate.tech_stack candidate))
           jobTechStack in
  let reasons :=
    push_if (0 <? List.length techMatches)%nat
      ("Tech stack match: " ++ join ", " (firstn 3 techMatches)
       ++ (if (3 <? List.length techMatches)%nat then "..." else ""))
      reasons in
  (* Role title matches *)
  let titleLower := toLowerCase (JobDetails.title jobDetails) in
  let roleMatches :=
    filter (fun role => includes titleLower (toLowerCase role))
           (Candidate.roles candidate) in
  let reasons :=
    push_if (0 <? List.length roleMatches)%nat
      ("Role match: " ++ first_or_undefined roleMatches) reasons in
  (* Location matches *)
  let locationLower := toLowerCase (or_else (JobDetails.location jobDetails) "") in
  let locationMatches :=
    filter (fun loc => includes locationLower (toLowerCase loc))
           (Candidate.location candidate) in
  let reasons :=
    if (0 <? List.length locationMatches)%nat
    then push reasons ("Location match: " ++ first_or_undefined locationMatches)
    else if includes locationLower "remote" || includes locationLower "work from home"
         then push reasons "Remote work available"
    else reasons in
  (* Recency *)
  reasons <-
    match JobDetails.posted_date jobDetails with
    | Some d =>
        now <- Date_now ;;
        let daysDiff :=
          Math_floor (div (sub (of_Z now) (getTime d)) JobParser.msPerDay) in
        ret (if leb daysDiff (Fin 1) then push reasons "Posted today"
             else if leb daysDiff (Fin 3) then push reasons "Recently posted"
             else reasons)
    | None => ret reasons
    end ;;
  (* Experience level indicators *)
  let description := toLowerCase (or_else (JobDetails.description jobDetails) "") in
  let requirements := toLowerCase (or_else (JobDetails.requirements jobDetails) "") in
  let fullText := description ++ " " ++ requirements in
  let reasons :=
    if includes fullText "senior" && geb (Candidate.experience_years candidate) (Fin 5)
    then push reasons "Senior level match"
    else if includes fullText "mid-level"
            && geb (Candidate.experience_years candidate) (Fin 3)
         then push reasons "Mid-level match"
    else reasons in
  (* Salary indicators *)
  let reasons :=
    push_if (truthy (or_else (JobDetails.salary_range jobDetails) ""))
      "Salary information available" reasons in
  (* Company type indicators *)
  let reasons :=
    push_if (includes fullText "startup" || includes fullText "early stage")
      "Startup opportunity" reasons in
  let reasons :=
    push_if (List.length reasons =? 0)%nat
      ("Overall match score: " ++ toFixed0 (mul score (Fin 100)) ++ "%") reasons in
  ret reasons.

Definition scoreJob (resumeData : ResumeData.t) (jobDetails : JobDetails.t)
  : M (Outcome ScoredJob.t) :=
  calculated <- JobParser.calculateJobScore resumeData jobDetails ;;
  score <-! calculated ;;
  matchReasons <- generateMatchReasons resumeData jobDetails score ;;
  ret (Returned (ScoredJob.mk jobDetails score matchReasons)).

(** [jobs.map(f)] for a callback that reads the clock: left to right. *)
Fixpoint mapM {A B} (f : A -> M B) (l : list A) : M (list B) :=
  match l with
  | [] => ret []
  | x :: r => y <- f x ;; ys <- mapM f r ;; ret (y :: ys)
  end.

(** [jobs.map(f)] for a callback that may throw: the first throw ends the
    map. *)
Fixpoint mapT {A B} (f : A -> M (Outcome B)) (l : list A) : M (Outcome (list B)) :=
  match l with
  | [] => ret (Returned [])
  | x :: r =>
      first <- f x ;;
      y <-! first ;;
      others <- mapT f r ;;
      ys <-! others ;;
      ret (Returned (y :: ys))
  end.

Definition byScoreDesc (a b : ScoredJob.t) : number :=
  sub (ScoredJob.score b) (ScoredJob.score a).

Definition scoreMultipleJobs (resumeData : ResumeData.t) (jobs : list JobDetails.t)
  : M (Outcome (list ScoredJob.t)) :=
  mapped <- mapT (scoreJob resumeData) jobs ;;
  scoredJobs <-! mapped ;;
  (* Sort by score (highest first) *)
  ret (Returned (sort byScoreDesc scoredJobs)).

(** [minScore] is [parseFloat(process.env.MIN_SCORE_THRESHOLD || "0.3")]
    (NaN for an unparsable setting); [count] defaults to 5 at the call. *)
Definition selectTopJobs
  (minScore : number) (scoredJobs : list ScoredJob.t) (count : number)
  : list ScoredJob.t :=
  (* Filter jobs that meet minimum score threshold *)
  let qualifiedJobs := filter (fun job => geb (ScoredJob.score job) minScore) scoredJobs in
  if (List.length qualifiedJobs =? 0)%nat
  then slice0 scoredJobs count
  else slice0 qualifiedJobs count.

(** A [Record<string, number>] filled by [m[k] = (m[k] || 0) + 1], for keys
    that are neither inherited from [Object.prototype] nor array indices:
    its entries in the order of first insertion, which for such keys is
    the order of [Object.entries]. *)
Fixpoint increment (k : string) (m : list (string * nat)) : list (string * nat) :=
  match m with
  | [] => [(k, 1%nat)]
  | (k', v) :: r =>
      if String.eqb k k' then (k', S v) :: r else (k', v) :: increment k r
  end.

Definition countAll (keys : list string) : list (string * nat) :=
  fold_left (fun m k => increment k m) keys [].

Definition byCountDesc (a b : string * nat) : number :=
  sub (of_nat (snd b)) (of_nat (snd a)).

(** [Object.entries(m).sort(...).slice(0, 10).map(([k]) => k)]. *)
Definition top10 (m : list (string * nat)) : list string :=
  map fst (slice0 (sort byCountDesc m) (Fin 10)).

Record ScoreDistribution : Type := mkScoreDistribution {
  excellent : nat;
  good : nat;
  fair : nat;
  poor : nat
}.

Record JobReport : Type := mkJobReport {
  totalJobs : nat;
  averageScore : number;
  topTechStack : list string;
  topCompanies : list string;
  locationDistribution : list (string * nat);
  scoreDistribution : ScoreDistribution
}.

Definition count_if (f : ScoredJob.t -> bool) (l : list ScoredJob.t) : nat :=
  List.length (filter f l).

Definition generateJobReport (scoredJobs : list ScoredJob.t) : JobReport :=
  if (List.length scoredJobs =? 0)%nat
  then mkJobReport 0 (Fin 0) [] [] [] (mkScoreDistribution 0 0 0 0)
  else
    (* Calculate average score *)
    let averageScore :=
      div (fold_left (fun sum job => add sum (ScoredJob.score job)) scoredJobs (Fin 0))
          (of_nat (List.length scoredJobs)) in
    (* Count tech stack occurrences *)
    let techStackCount :=
      countAll (flat_map
                  (fun job =>
                     match JobDetails.tech_stack (ScoredJob.job job) with
                     | Some l => l
                     | None => []
                     end)
                  scoredJobs) in
    let topTechStack := top10 techStackCount in
    (* Count company occurrences *)
    let companyCount :=
      countAll (map (fun job => JobDetails.company (ScoredJob.job job)) scoredJobs) in
    let topCompanies := top10 companyCount in
    (* Location distribution *)
    let locationDistribution :=
      countAll (map (fun job =>
                       or_else (JobDetails.location (ScoredJob.job job)) "Unknown")
                    scoredJobs) in
    (* Score distribution *)
    let scoreDistribution :=
      mkScoreDistribution
        (count_if (fun job => gtb (ScoredJob.score job) (Fin (8 # 10))) scoredJobs)
        (count_if (fun job => gtb (ScoredJob.score job) (Fin (6 # 10))
                              && leb (ScoredJob.score job) (Fin (8 # 10))) scoredJobs)
        (count_if (fun job => gtb (ScoredJob.score job) (Fin (4 # 10))
                              && leb (ScoredJob.score job) (Fin (6 # 10))) scoredJobs)
        (count_if (fun job => leb (ScoredJob.score job) (Fin (4 # 10))) scoredJobs) in
    mkJobReport (List.length scoredJobs) averageScore topTechStack topCompanies
                locationDistribution scoreDistribution.

(** [convertToJobListing]: [scraped_at] is [new Date()]. *)
Definition convertToJobListing (scoredJob : ScoredJob.t) (sessionId : nat)
  : M JobRepository.JobListing :=
  now <- Date_now ;;
  ret (JobRepository.mkListing (ScoredJob.job scoredJob) (ScoredJob.score scoredJob)
                               sessionId now).

Definition convertMultipleToJobListings (scoredJobs : list ScoredJob.t) (sessionId : nat)
  : M (list JobRepository.JobListing) :=
  mapM (fun job => convertToJobListing job sessionId) scoredJobs.

End JobMatcher.

(** ** The orchestrator ([src/scraper/automation.ts]) *)

Module JobScrapingAutomation.

Record GoogleSearchResult : Type := mkResult {
  title : string;
  url : string;
  snippet : string;
  site : string
}.

(** What the browser does with one candidate URL. *)
Inductive Visit : Type :=
| NoContext                      (* browser.newContext throws *)
| NoPage                         (* context.newPage throws *)
| GotoThrows                     (* navigation fails or times out *)
| Loaded (page : JobParser.Page).

(** The surroundings of a run: the search feed, the web, and the two
    settings read from the process environment. *)
Record Env : Type := mkEnv {
  searchAllRoles :
    PlaywrightManager.t -> Outcome (list GoogleSearchResult) * PlaywrightManager.t;
  visit : string -> Visit;
  TOP_JOBS_COUNT : number;
  MIN_SCORE_THRESHOLD : number
}.

Record World : Type := mkWorld {
  db : JobRepository.t;
  pm : PlaywrightManager.t
}.

Record CycleResult : Type := mkCycleResult {
  sessionId : nat;
  totalJobsFound : nat;
  topJobsSelected : nat;
  averageScore : number
}.

(** The [try] block of one loop iteration, up to [closeContext]: the
    manager afterwards, and what the block threw or the extracted
    details. *)
Definition scrapeOne (env : Env) (resumeData : ResumeData.t)
  (searchResult : GoogleSearchResult) (pm : PlaywrightManager.t)
  : M (PlaywrightManager.t * Outcome (option JobDetails.t)) :=
  let v := visit env (url searchResult) in
  match PlaywrightManager.createContext
          (match v with NoContext => false | _ => true end) pm with
  | None => ret (pm, Threw "createContext")
  | Some pm1 =>
      match v with
      | NoContext => ret (pm, Threw "createContext")
      | NoPage => ret (pm1, Threw "createPage")
      | GotoThrows => ret (pm1, Threw "goto")
      | Loaded page =>
          details <- JobParser.extractJobDetails resumeData page ;;
          ret (PlaywrightManager.closeContext pm1, Returned details)
      end
  end.

(** The loop [for (const searchResult of ...)] with its [try]/[catch]:
    the [catch] only logs. *)
Fixpoint scrapeAll (env : Env) (resumeData : ResumeData.t)
  (searchResults : list GoogleSearchResult) (pm : PlaywrightManager.t)
  (jobDetails : list JobDetails.t)
  : M (PlaywrightManager.t * list JobDetails.t) :=
  match searchResults with
  | [] => ret (pm, jobDetails)
  | searchResult :: rest =>
      r <- scrapeOne env resumeData searchResult pm ;;
      match snd r with
      | Returned (Some details) =>
          scrapeAll env resumeData rest (fst r) (jobDetails ++ [details])%list
      | Returned None => scrapeAll env resumeData rest (fst r) jobDetails
      | Threw _ => scrapeAll env resumeData rest (fst r) jobDetails
      end
  end.

(** [for (const jobListing of jobListings) await insertJobListing(...)]. *)
Definition insertAll (jobListings : list JobRepository.JobListing)
  (db : JobRepository.t) : JobRepository.t :=
  fold_left (fun db jobListing => snd (JobRepository.insertJobListing jobListing db))
            jobListings db.

(** The loop that inserts the top jobs again and collects their ids. *)
Fixpoint markLoop (topJobs : list ScoredJob.t) (sessionId : nat)
  (db : JobRepository.t) (topJobIds : list nat)
  : M (JobRepository.t * list nat) :=
  match topJobs with
  | [] => ret (db, topJobIds)
  | topJob :: rest =>
      jobListing <- JobMatcher.convertToJobListing topJob sessionId ;;
      let r := JobRepository.insertJobListing jobListing db in
      markLoop rest sessionId (snd r) (topJobIds ++ [fst r])%list
  end.

Definition executeFullScrapingCycle (env : Env) (resumeData : ResumeData.t) (w : World)
  : M (World * Outcome CycleResult) :=
  (* Create new scraping session *)
  started <- Date_now ;;
  let created :=
    JobRepository.createSession started
      (Candidate.roles (ResumeData.candidate resumeData))
      JobRepository.running (db w) in
  let sessionId := fst created in
  let db0 := snd created in
  match searchAllRoles env (pm w) with
  | (Returned searchResults, pm1) =>
      (* Step 2: scrape detailed job information *)
      scraped <- scrapeAll env resumeData (firstn 50 searchResults) pm1 [] ;;
      let pm2 := fst scraped in
      let jobDetails := snd scraped in
      (* Step 3: score and rank jobs *)
      scored <- JobMatcher.scoreMultipleJobs resumeData jobDetails ;;
      match scored with
      | Returned scoredJobs =>
          let topJobs :=
            JobMatcher.selectTopJobs (MIN_SCORE_THRESHOLD env) scoredJobs
                                     (TOP_JOBS_COUNT env) in
          (* Step 4: save jobs to database *)
          jobListings <- JobMatcher.convertMultipleToJobListings scoredJobs sessionId ;;
          let db1 := insertAll jobListings db0 in
          (* Mark top jobs *)
          marked <- markLoop topJobs sessionId db1 [] ;;
          let db2 := JobRepository.markTopPicks (snd marked) (fst marked) in
          (* Update session with results *)
          finished <- Date_now ;;
          let db3 :=
            JobRepository.updateSession sessionId
              (JobRepository.mkUpdates
                 (Some (List.length scoredJobs)) (Some (List.length topJobs))
                 (Some JobRepository.completed) (Some finished) None)
              db2 in
          (* Generate report *)
          let report := JobMatcher.generateJobReport scoredJobs in
          ret (mkWorld db3 pm2,
               Returned (mkCycleResult sessionId (JobMatcher.totalJobs report)
                                       (List.length topJobs)
                                       (JobMatcher.averageScore report)))
      | Threw message =>
          (* Update session with error, then rethrow *)
          finished <- Date_now ;;
          let db1 :=
            JobRepository.updateSession sessionId
              (JobRepository.mkUpdates None None (Some JobRepository.failed)
                                       (Some finished) (Some message))
              db0 in
          ret (mkWorld db1 pm2, Threw message)
      end
  | (Threw message, pm1) =>
      (* Update session with error, then rethrow *)
      finished <- Date_now ;;
      let db1 :=
        JobRepository.updateSession sessionId
          (JobRepository.mkUpdates None None (Some JobRepository.failed)
                                   (Some finished) (Some message))
          db0 in
      ret (mkWorld db1 pm1, Threw message)
  end.

End JobScrapingAutomation.

(** ** The read-only statements of [JobRepository]
    ([src/database/repository.ts]) *)

Module JobRepositoryQueries.

(** [jobExists]: [SELECT id FROM job_listings WHERE job_url = $1] has a
    row. *)
Definition jobExists (jobUrl : string) (db : JobRepository.t) : bool :=
  (0 <? List.length
          (filter (fun r => String.eqb
                              (JobDetails.job_url
                                 (JobRepository.details (JobRepository.listing r)))
                              jobUrl)
                  (JobRepository.job_listings db)))%nat.

(** [getJobsForSession], as the set of rows it returns (the order is the
    database's). *)
Definition jobsForSession (sessionId : nat) (db : JobRepository.t)
  : list JobRepository.Row :=
  filter (fun r => (JobRepository.session_id (JobRepository.listing r) =? sessionId)%nat)
         (JobRepository.job_listings db).

End JobRepositoryQueries.

(** ** The search feed ([src/scrapers/google-search.ts]) *)

Module GoogleJobSearcher.

(** [l.findIndex(p)]: [None] for -1. *)
Fixpoint findIndex {A} (p : A -> bool) (l : list A) : option nat :=
  match l with
  | [] => None
  | x :: r => if p x then Some 0%nat else option_map S (findIndex p r)
  end.

(** [l.filter((x, index) => f x index)], from index [i] on. *)
Fixpoint filter_indexed {A} (f : A -> nat -> bool) (i : nat) (l : list A) : list A :=
  match l with
  | [] => []
  | x :: r =>
      if f x i then x :: filter_indexed f (S i) r else filter_indexed f (S i) r
  end.

Definition same_index (o : option nat) (i : nat) : bool :=
  match o with Some k => (k =? i)%nat | None => false end.

(** [self.filter((result, index, self) =>
       index === self.findIndex((r) => r.url === result.url))]. *)
Definition uniqueResults (self : list JobScrapingAutomation.GoogleSearchResult)
  : list JobScrapingAutomation.GoogleSearchResult :=
  filter_indexed
    (fun result index =>
       same_index
         (findIndex (fun r => String.eqb (JobScrapingAutomation.url r)
                                         (JobScrapingAutomation.url result))
                    self)
         index)
    0 self.

(** The loop [for (const role of roles)] of [searchAllRoles]: a role whose
    search throws is logged and contributes nothing. *)
Fixpoint collectRoles
  (searchJobsForRole :
     string -> Outcome (list JobScrapingAutomation.GoogleSearchResult))
  (roles : list string)
  (allResults : list JobScrapingAutomation.GoogleSearchResult)
  : list JobScrapingAutomation.GoogleSearchResult :=
  match roles with
  | [] => allResults
  | role :: rest =>
      match searchJobsForRole role with
      | Returned roleResults =>
          collectRoles searchJobsForRole rest (allResults ++ roleResults)%list
      | Threw _ =>
          collectRoles searchJobsForRole rest allResults
      end
  end.

(** [searchAllRoles]; [searchJobsForRole] is what the search for one role
    over the preferred sites returns or throws.  [resumeData.data.roles] is
    read before the loop, outside its [try]. *)
Definition searchAllRoles
  (searchJobsForRole :
     string -> Outcome (list JobScrapingAutomation.GoogleSearchResult))
  (resumeData : ResumeData.t)
  : Outcome (list JobScrapingAutomation.GoogleSearchResult) :=
  match ResumeData.data resumeData with
  | None => Threw (TypeError_reading "roles")
  | Some data =>
      let roles := Candidate.roles data in
      Returned (uniqueResults (collectRoles searchJobsForRole roles []))
  end.

End GoogleJobSearcher.

(** ** The scheduler ([src/services/scheduler.ts]) *)

Module JobScrapingScheduler.

Record SchedulerConfig : Type := mkConfig {
  intervalDays : number;
  enabled : bool;
  timezone : option string
}.

(** The cron library, as far as the scheduler uses it: the tasks that are
    scheduled and not stopped, and the next task to be created. *)
Record Cron : Type := mkCron {
  running_tasks : list nat;
  next_task : nat
}.

(** [cron.schedule(expression, callback, { scheduled: true })]. *)
Definition schedule (cron : Cron) : nat * Cron :=
  (next_task cron,
   mkCron (running_tasks cron ++ [next_task cron])%list (S (next_task cron))).

(** [task.stop()]. *)
Definition task_stop (task : nat) (cron : Cron) : Cron :=
  mkCron (filter (fun t => negb (t =? task)%nat) (running_tasks cron))
         (next_task cron).

Record t : Type := mk {
  config : SchedulerConfig;
  task : option nat
}.

Definition start (s : t) (cron : Cron) : t * Cron :=
  if negb (enabled (config s)) then (s, cron)
  else
    let r := schedule cron in
    (mk (config s) (Some (fst r)), snd r).

Definition stop (s : t) (cron : Cron) : t * Cron :=
  match task s with
  | Some tk => (mk (config s) None, task_stop tk cron)
  | None => (s, cron)
  end.

(** A [Partial<SchedulerConfig>]. *)
Record PartialConfig : Type := mkPartial {
  p_intervalDays : option number;
  p_enabled : option bool;
  p_timezone : option (option string)
}.

(** [{ ...config, ...newConfig }]. *)
Definition merge (c : SchedulerConfig) (n : PartialConfig) : SchedulerConfig :=
  mkConfig
    (match p_intervalDays n with Some x => x | None => intervalDays c end)
    (match p_enabled n with Some x => x | None => enabled c end)
    (match p_timezone n with Some x => x | None => timezone c end).

Definition updateConfig (newConfig : PartialConfig) (s : t) (cron : Cron) : t * Cron :=
  let wasRunning := match task s with Some _ => true | None => false end in
  let stopped := if wasRunning then stop s cron else (s, cron) in
  let s1 := mk (merge (config (fst stopped)) newConfig) (task (fst stopped)) in
  if wasRunning && enabled (config s1) then start s1 (snd stopped)
  else (s1, snd stopped).

(** The field [isRunning] of [getStatus]. *)
Definition isRunning (s : t) : bool :=
  match task s with Some _ => true | None => false end.

(** [shouldRunScraping]; [lastScrapingDate] is what
    [jobRepository.getLastScrapingDate()] returns or throws. *)
Definition shouldRunScraping (s : t)
  (lastScrapingDate : Outcome (option Date)) : M bool :=
  match lastScrapingDate with
  | Threw _ => ret true
  | Returned None => ret true
  | Returned (Some d) =>
      now <- Date_now ;;
      let daysSinceLastRun :=
        Math_floor (div (sub (of_Z now) (getTime d)) (Fin (1000 * 60 * 60 * 24))) in
      ret (geb daysSinceLastRun (intervalDays (config s)))
  end.

(** [executeScrapingJob]: the trigger runs only when a run is due; what
    the trigger throws is thrown on.  The result tells whether the trigger
    ran. *)
Definition executeScrapingJob (s : t)
  (lastScrapingDate : Outcome (option Date))
  (onScrapingTrigger : Outcome unit)
  : M (Outcome bool) :=
  shouldRun <- shouldRunScraping s lastScrapingDate ;;
  if negb shouldRun then ret (Returned false)
  else
    match onScrapingTrigger with
    | Returned _ => ret (Returned true)
    | Threw message => ret (Threw message)
    end.

End JobScrapingScheduler.

(** ** The scheduler of named tasks ([AdvancedJobScheduler]) *)

Module AdvancedJobScheduler.

(** A [Map<string, cron.ScheduledTask>]: the entries in insertion order,
    one for each key. *)
Definition TaskMap : Type := list (string * nat).

(** [tasks.get(name)]. *)
Fixpoint get (name : string) (m : TaskMap) : option nat :=
  match m with
  | [] => None
  | (k, v) :: r => if String.eqb k name then Some v else get name r
  end.

(** [tasks.has(name)]. *)
Definition has (name : string) (m : TaskMap) : bool :=
  match get name m with Some _ => true | None => false end.

(** [tasks.set(name, task)]: an existing key keeps its place. *)
Fixpoint set (name : string) (task : nat) (m : TaskMap) : TaskMap :=
  match m with
  | [] => [(name, task)]
  | (k, v) :: r =>
      if String.eqb k name then (k, task) :: r else (k, v) :: set name task r
  end.

(** [tasks.delete(name)]. *)
Fixpoint delete (name : string) (m : TaskMap) : TaskMap :=
  match m with
  | [] => []
  | (k, v) :: r => if String.eqb k name then r else (k, v) :: delete name r
  end.

Record t : Type := mk {
  base : JobScrapingScheduler.t;
  tasks : TaskMap
}.

Definition addScheduledTask (name : string) (s : t) (cron : JobScrapingScheduler.Cron)
  : t * JobScrapingScheduler.Cron :=
  let cron1 :=
    if has name (tasks s)
    then match get name (tasks s) with
         | Some previous => JobScrapingScheduler.task_stop previous cron
         | None => cron
         end
    else cron in
  let r := JobScrapingScheduler.schedule cron1 in
  (mk (base s) (set name (fst r) (tasks s)), snd r).

Definition removeScheduledTask (name : string) (s : t) (cron : JobScrapingScheduler.Cron)
  : bool * (t * JobScrapingScheduler.Cron) :=
  match get name (tasks s) with
  | Some task =>
      (true, (mk (base s) (delete name (tasks s)),
              JobScrapingScheduler.task_stop task cron))
  | None => (false, (s, cron))
  end.

(** The loop [for (const [name, task] of this.tasks) task.stop()]. *)
Fixpoint stopEach (m : TaskMap) (cron : JobScrapingScheduler.Cron)
  : JobScrapingScheduler.Cron :=
  match m with
  | [] => cron
  | (_, task) :: r => stopEach r (JobScrapingScheduler.task_stop task cron)
  end.

Definition stopAll (s : t) (cron : JobScrapingScheduler.Cron)
  : t * JobScrapingScheduler.Cron :=
  let stopped := JobScrapingScheduler.stop (base s) cron in
  (mk (fst stopped) [], stopEach (tasks s) (snd stopped)).

(** [Array.from(this.tasks.keys())]. *)
Definition getActiveTasks (s : t) : list string := map fst (tasks s).

End AdvancedJobScheduler.

(** ** Vocabulary of the specification *)

(** [sub] occurs in [s] at position [n]. *)
Definition occurs_at (s sub : string) (n : nat) : Prop :=
  exists pre post, s = pre ++ sub ++ post /\ String.length pre = n.

(** [n] is a finite number between [lo] and [hi]: not NaN, not infinite. *)
Definition in_range (lo hi : Q) (n : number) : Prop :=
  exists q, n = Fin q /\ lo <= q <= hi.

(** Two tokens are the same up to the case of their letters. *)
Fixpoint ci_eqb (a b : string) : bool :=
  match a, b with
  | EmptyString, EmptyString => true
  | String c a', String d b' =>
      Ascii.eqb (lower_char c) (lower_char d) && ci_eqb a' b'
  | _, _ => false
  end.

(** The tech-overlap rule in the specification's words: the number of job
    techs that have a case-insensitive match in the profile list, over the
    longer of the two lists, times 100; 0 for a job that lists no tech. *)
Definition tech_overlap_spec (job_tech profile_tech : list string) : Q :=
  match job_tech with
  | [] => 0
  | _ =>
      let matches :=
        List.length (filter (fun t => existsb (ci_eqb t) profile_tech) job_tech) in
      inject_Z (Z.of_nat matches)
      / inject_Z (Z.of_nat (Nat.max (List.length job_tech) (List.length profile_tech)))
      * 100
  end.

(** The title rule in the specification's words. *)
Definition six_keywords : list string :=
  ["developer"; "engineer"; "software"; "full stack"; "backend"; "frontend"].

Definition matched_keywords (title : string) : nat :=
  List.length (filter (includes (toLowerCase title)) six_keywords).

Definition title_contains_role (roles : list string) (title : string) : bool :=
  existsb (fun role => includes (toLowerCase title) (toLowerCase role)) roles.

Definition title_score_spec (roles : list string) (title : string) : Q :=
  if title_contains_role roles title then 100
  else inject_Z (Z.of_nat (matched_keywords title)) / 6 * 60.

(** The seven specific match-reason rules, as conditions on the profile and
    the record ([now] is the clock reading the recency rule sees). *)
Module Rules.

Definition jobText (j : JobDetails.t) : string :=
  toLowerCase (or_else (JobDetails.description j) "") ++ " "
  ++ toLowerCase (or_else (JobDetails.requirements j) "").

Definition tech (rd : ResumeData.t) (j : JobDetails.t) : bool :=
  existsb (JobParser.techMatch (Candidate.tech_stack (ResumeData.candidate rd)))
          (match JobDetails.tech_stack j with Some l => l | None => [] end).

Definition role (rd : ResumeData.t) (j : JobDetails.t) : bool :=
  title_contains_role (Candidate.roles (ResumeData.candidate rd)) (JobDetails.title j).

Definition location (rd : ResumeData.t) (j : JobDetails.t) : bool :=
  let loc := toLowerCase (or_else (JobDetails.location j) "") in
  existsb (fun l => includes loc (toLowerCase l))
          (Candidate.location (ResumeData.candidate rd))
  || includes loc "remote" || includes loc "work from home".

Definition recency (now : Z) (j : JobDetails.t) : bool :=
  match JobDetails.posted_date j with
  | Some d =>
      leb (Math_floor (div (sub (of_Z now) (getTime d)) JobParser.msPerDay)) (Fin 3)
  | None => false
  end.

Definition seniority (rd : ResumeData.t) (j : JobDetails.t) : bool :=
  let years := Candidate.experience_years (ResumeData.candidate rd) in
  (includes (jobText j) "senior" && geb years (Fin 5))
  || (includes (jobText j) "mid-level" && geb years (Fin 3)).

Definition salary (j : JobDetails.t) : bool :=
  match JobDetails.salary_range j with
  | Some s => negb (String.eqb s "")
  | None => false
  end.

Definition startup (j : JobDetails.t) : bool :=
  includes (jobText j) "startup" || includes (jobText j) "early stage".

Definition any (rd : ResumeData.t) (now : Z) (j : JobDetails.t) : bool :=
  tech rd j || role rd j || location rd j || recency now j
  || seniority rd j || salary j || startup j.

End Rules.

Definition fallbackReason (score : number) : string :=
  "Overall match score: " ++ toFixed0 (mul score (Fin 100)) ++ "%".

(** A field is resolved on a document when some selector of its chain
    finds an element with non-empty trimmed text. *)
Definition resolved (doc : JobParser.Document) (selectors : list string) : Prop :=
  exists selector textContent,
    In selector selectors
    /\ JobParser.querySelector doc selector = Some textContent
    /\ JobParser.trimmedText textContent <> "".

(** The first [n] characters of [s] (all of [s] when it is shorter). *)
Definition take (n : nat) (s : string) : string := String.substring 0 n s.

(** [a] scores at least as much as [b]. *)
Definition score_ge (a b : ScoredJob.t) : Prop :=
  geb (ScoredJob.score a) (ScoredJob.score b) = true.

(** The scored jobs whose score equals [s]. *)
Definition same_score (s : number) (a : ScoredJob.t) : bool :=
  match ScoredJob.score a, s with
  | Fin x, Fin y => Qeq_bool x y
  | _, _ => false
  end.

Definition finite_score (a : ScoredJob.t) : Prop :=
  exists q, ScoredJob.score a = Fin q.

(** A candidate URL yields no record: the context or the page cannot be
    created, the navigation fails, or the loaded page gives [null]. *)
Definition unusable (env : JobScrapingAutomation.Env) (rd : ResumeData.t)
  (searchResult : JobScrapingAutomation.GoogleSearchResult) : Prop :=
  match JobScrapingAutomation.visit env (JobScrapingAutomation.url searchResult) with
  | JobScrapingAutomation.Loaded page =>
      run (JobParser.extractJobDetails rd page) (fun _ => 0%Z) = None
  | _ => True
  end.

(** A candidate URL fails to load. *)
Definition fails_to_load (env : JobScrapingAutomation.Env)
  (searchResult : JobScrapingAutomation.GoogleSearchResult) : Prop :=
  forall page,
    JobScrapingAutomation.visit env (JobScrapingAutomation.url searchResult)
    <> JobScrapingAutomation.Loaded page.

(** The record with every optional field missing and every required one
    empty. *)
Definition emptyRecord : JobDetails.t :=
  JobDetails.mk "" "" None "" None None None None None None.

(** The recency band of a posting that is [days] whole days old. *)
Definition recency_band (days : Z) : Q :=
  if (days <=? 1)%Z then 100
  else if (days <=? 3)%Z then 80
  else if (days <=? 7)%Z then 60
  else if (days <=? 14)%Z then 40
  else if (days <=? 30)%Z then 20
  else 0.

(** The section headers without [minimum requirements:]. *)
Definition sectionsWithoutMinimum : list string :=
  ["requirements:"; "qualifications:"; "what we're looking for:";
   "you should have:"; "required skills:"; "must have:"].

(** [s] consists of decimal digits. *)
Definition all_digits (s : string) : Prop :=
  forallb is_digit (list_ascii_of_string s) = true.

(** The sum of the counts of a distribution. *)
Definition total_count (m : list (string * nat)) : nat :=
  fold_right (fun kv acc => (snd kv + acc)%nat) 0%nat m.

(** The URL of a stored row. *)
Definition row_url (r : JobRepository.Row) : string :=
  JobDetails.job_url (JobRepository.details (JobRepository.listing r)).

(** The table [job_listings] as the database keeps it: [job_url] is
    unique, [id] is unique and below the next serial value. *)
Definition listings_wf (db : JobRepository.t) : Prop :=
  NoDup (map row_url (JobRepository.job_listings db))
  /\ NoDup (map JobRepository.row_id (JobRepository.job_listings db))
  /\ Forall (fun r => (JobRepository.row_id r < JobRepository.next_listing_id db)%nat)
            (JobRepository.job_listings db).

(** The table [scraping_sessions]: every [id] is below the next serial
    value. *)
Definition sessions_wf (db : JobRepository.t) : Prop :=
  Forall (fun s => (JobRepository.id s < JobRepository.next_session_id db)%nat)
         (JobRepository.scraping_sessions db).

(** The scheduler's task, if it has one, is the only task running, and no
    task is running if it has none. *)
Definition owns_its_task (s : JobScrapingScheduler.t) (cron : JobScrapingScheduler.Cron)
  : Prop :=
  JobScrapingScheduler.running_tasks cron
    = match JobScrapingScheduler.task s with Some tk => [tk] | None => [] end
  /\ forall tk, JobScrapingScheduler.task s = Some tk ->
                (tk < JobScrapingScheduler.next_task cron)%nat.

(** [sub] is [l] with some elements left out, the rest in order. *)
Inductive subsequence {A} : list A -> list A -> Prop :=
| sub_nil : subsequence [] []
| sub_keep x s l : subsequence s l -> subsequence (x :: s) (x :: l)
| sub_drop x s l : subsequence s l -> subsequence s (x :: l).

(** The row with id [i] is a top pick. *)
Definition flagged (db : JobRepository.t) (i : nat) : Prop :=
  exists r, In r (JobRepository.job_listings db)
            /\ JobRepository.row_id r = i
            /\ JobRepository.is_top_pick r = true.

(** Some row with URL [u] is a top pick. *)
Definition flagged_url (db : JobRepository.t) (u : string) : Prop :=
  exists r, In r (JobRepository.job_listings db)
            /\ row_url r = u
            /\ JobRepository.is_top_pick r = true.

(** The store holds a row with id [i] and URL [u]. *)
Definition has_row (db : JobRepository.t) (i : nat) (u : string) : Prop :=
  exists r, In r (JobRepository.job_listings db)
            /\ JobRepository.row_id r = i /\ row_url r = u.

(** The rows after an insert that meets a row of the same URL. *)
Definition upserted (job : JobRepository.JobListing) (r' : JobRepository.Row)
  : JobRepository.Row :=
  if JobRepository.same_url job r'
  then JobRepository.mkRow (JobRepository.row_id r')
         (JobRepository.mergeListing (JobRepository.listing r') job)
         (JobRepository.is_top_pick r')
  else r'.

(** The results whose URL is not among those seen before them, in order. *)
Fixpoint firstByUrl (seen : list string)
  (l : list JobScrapingAutomation.GoogleSearchResult)
  : list JobScrapingAutomation.GoogleSearchResult :=
  match l with
  | [] => []
  | x :: r =>
      if existsb (String.eqb (JobScrapingAutomation.url x)) seen
      then firstByUrl (seen ++ [JobScrapingAutomation.url x])%list r
      else x :: firstByUrl (seen ++ [JobScrapingAutomation.url x])%list r
  end.

(** The cron tasks a scheduler of named tasks refers to: the task of
    [start], if any, and the named ones. *)
Definition task_ids (s : AdvancedJobScheduler.t) : list nat :=
  (match JobScrapingScheduler.task (AdvancedJobScheduler.base s) with
   | Some tk => [tk]
   | None => []
   end ++ map snd (AdvancedJobScheduler.tasks s))%list.

(** Every running cron task is referred to by the scheduler exactly once,
    every task it refers to is running, and each name has one entry. *)
Definition tasks_accounted (s : AdvancedJobScheduler.t)
  (cron : JobScrapingScheduler.Cron) : Prop :=
  NoDup (map fst (AdvancedJobScheduler.tasks s))
  /\ NoDup (task_ids s)
  /\ NoDup (JobScrapingScheduler.running_tasks cron)
  /\ (forall tk, In tk (JobScrapingScheduler.running_tasks cron) <-> In tk (task_ids s))
  /\ (forall tk, In tk (JobScrapingScheduler.running_tasks cron) ->
                 (tk < JobScrapingScheduler.next_task cron)%nat).

(** What the columns of [job_listings] in [init.sql] accept of the
    parameters of the insert statement: a string without the code unit 0,
    within the length of a VARCHAR column; a posted date that is a valid
    date of the years 1970 to 9999; a score that the column
    [DECIMAL(3,2)] holds; a session id within INTEGER.  A listing outside
    these limits makes the statement throw. *)
Definition no_NUL (s : string) : bool :=
  forallb (fun ch => negb (Ascii.eqb ch Ascii.zero)) (list_ascii_of_string s).

Definition varchar (n : nat) (s : string) : bool :=
  (String.length s <=? n)%nat && no_NUL s.

Definition nullable (accepts : string -> bool) (o : option string) : bool :=
  match o with Some s => accepts s | None => true end.

Definition storable (job : JobRepository.JobListing) : bool :=
  let d := JobRepository.details job in
  varchar 255 (JobDetails.title d)
  && varchar 255 (JobDetails.company d)
  && nullable (varchar 500) (JobDetails.company_url d)
  && varchar 500 (JobDetails.job_url d)
  && nullable no_NUL (JobDetails.description d)
  && nullable no_NUL (JobDetails.requirements d)
  && match JobDetails.tech_stack d with
     | Some l => forallb no_NUL l
     | None => true
     end
  && nullable (varchar 100) (JobDetails.salary_range d)
  && nullable (varchar 255) (JobDetails.location d)
  && match JobDetails.posted_date d with
     | Some (ValidDate ms) => ((0 <=? ms) && (ms <? 253402300800000))%Z
     | Some InvalidDate => false
     | None => true
     end
  && match JobRepository.score job with
     | Fin q => Qle_bool 0 q && Qle_bool q 1
     | _ => false
     end
  && (JobRepository.session_id job <? 2 ^ 31)%nat.

(** The property names that every object inherits from
    [Object.prototype]. *)
Definition inherited : list string :=
  ["constructor"; "__defineGetter__"; "__defineSetter__"; "hasOwnProperty";
   "__lookupGetter__"; "__lookupSetter__"; "isPrototypeOf";
   "propertyIsEnumerable"; "toString"; "valueOf"; "__proto__"; "toLocaleString"].

(** A key for which a plain object [{}] is a map that lists its keys in
    the order of their first insertion: not a name inherited from
    [Object.prototype] (for which [m[k] || 0] is not 0 before the first
    insertion), and not a string of digits (an array index, which
    [Object.entries] lists before the other keys). *)
Definition plain_key (k : string) : bool :=
  negb (existsb (String.eqb k) inherited)
  && (negb (forallb is_digit (list_ascii_of_string k)) || String.eqb k "").

(** [m[k] || 0] on a counter. *)
Definition count_of (m : list (string * nat)) (k : string) : nat :=
  match find (fun kv => String.eqb k (fst kv)) m with
  | Some kv => snd kv
  | None => 0%nat
  end.

(** The number of times [k] is in [keys]. *)
Definition occurrences (k : string) (keys : list string) : nat :=
  List.length (filter (String.eqb k) keys).

(** ** Sample inputs *)

Definition profile1 : Candidate.t :=
  Candidate.mk "Asha" "asha@example.com" "000" "https://asha.example"
    ["Bangalore"] (Fin 6) ["Backend Engineer"] ["Python"; "PostgreSQL"].

(** A resume file that carries the profile under both keys. *)
Definition resume1 : ResumeData.t := ResumeData.mk profile1 (Some profile1).

Definition resume_no_roles : ResumeData.t :=
  ResumeData.mk profile1 (Some (Candidate.mk "" "" "" "" [] (Fin 0) [] [])).

(** A resume of the declared shape: the profile under [candidate] only. *)
Definition resume_declared : ResumeData.t := ResumeData.mk profile1 None.

Definition clock0 : Clock := fun _ => 0%Z.

(** A document whose only element is a heading. *)
Definition doc_title_only : JobParser.Document :=
  JobParser.mkDocument
    (fun selector => if String.eqb selector "h1" then Some (Some " Engineer ") else None)
    "jobs.example" "Engineer".

Definition page_title_only : JobParser.Page :=
  JobParser.mkPage "https://jobs.example/1" true (Some doc_title_only).

(** A document with a heading and a company element, nothing else. *)
Definition doc_minimal : JobParser.Document :=
  JobParser.mkDocument
    (fun selector =>
       if String.eqb selector "h1" then Some (Some " Engineer ")
       else if String.eqb selector ".company-name" then Some (Some "Acme")
       else None)
    "jobs.example" "Engineer Acme".

Definition page_minimal : JobParser.Page :=
  JobParser.mkPage "https://jobs.example/2" true (Some doc_minimal).

Definition scored (url : string) (s : Q) : ScoredJob.t :=
  ScoredJob.mk (JobDetails.mk "" "" None url None None None None None None)
               (Fin s) ["r"].

(** The record of the specification's worked example, posted at time 0. *)
Definition job_worked : JobDetails.t :=
  JobDetails.mk "Senior Backend Engineer" "Acme" None "https://acme.example/1"
    None None (Some ["Python"; "PostgreSQL"]) None (Some "Remote")
    (Some (ValidDate 0)).

(** A record posted at time 0 and a record without posted date. *)
Definition job_dated : JobDetails.t :=
  JobDetails.mk "" "" None "a" None None None None None (Some (ValidDate 0)).

Definition job_undated : JobDetails.t :=
  JobDetails.mk "" "" None "b" None None None None None None.

(** Forty days after time 0. *)
Definition clock40 : Clock := fun _ => (40 * 86400000)%Z.

(** A web on which every navigation fails, a feed of two URLs, an empty
    store and a launched browser. *)
Definition feed2 : list JobScrapingAutomation.GoogleSearchResult :=
  [JobScrapingAutomation.mkResult "t1" "https://a.example/1" "" "a.example";
   JobScrapingAutomation.mkResult "t2" "https://b.example/2" "" "b.example"].

Definition env_offline : JobScrapingAutomation.Env :=
  JobScrapingAutomation.mkEnv
    (fun pm => (Returned feed2, pm))
    (fun _ => JobScrapingAutomation.GotoThrows)
    (Fin 5) (Fin (3 # 10)).

Definition world0 : JobScrapingAutomation.World :=
  JobScrapingAutomation.mkWorld
    (JobRepository.mk [] [] 1 1)
    (PlaywrightManager.mk true 0 (Fin 3)).

(** A store with one listing, and a listing for the same URL found again
    in a later session. *)
Definition listing_a (session : nat) (s : Q) : JobRepository.JobListing :=
  JobRepository.mkListing
    (JobDetails.mk "Engineer" "Acme" None "https://acme.example/1"
                   None None None None None None)
    (Fin s) session 0.

Definition db_one : JobRepository.t :=
  JobRepository.mk
    [JobRepository.mkSession 1 0 [] JobRepository.completed (Some 1%nat) (Some 1%nat)
                             (Some 0%Z) None]
    [JobRepository.mkRow 1 (listing_a 1 (1 # 2)) true]
    2 2.

(** An enabled scheduler that has not been started, and an idle cron. *)
Definition scheduler0 : JobScrapingScheduler.t :=
  JobScrapingScheduler.mk (JobScrapingScheduler.mkConfig (Fin 3) true None) None.

Definition cron0 : JobScrapingScheduler.Cron := JobScrapingScheduler.mkCron [] 0.

(** * Properties *)


(** ** Strings *)

Lemma lower_char_idem c : lower_char (lower_char c) = lower_char c.
Proof.
  destruct c as [[] [] [] [] [] [] [] []]; reflexivity.
Qed.

Lemma toLowerCase_idem s : toLowerCase (toLowerCase s) = toLowerCase s.
Proof.
  induction s as [|c s IH]; simpl; [reflexivity|].
  now rewrite lower_char_idem, IH.
Qed.

Lemma toLowerCase_length s : String.length (toLowerCase s) = String.length s.
Proof.
  induction s as [|c s IH]; simpl; congruence.
Qed.

Lemma prefix_app p s : prefix p s = true <-> exists r, s = p ++ r.
Proof.
  revert s; induction p as [|c p IH]; intros s.
  - split; [intros _; now exists s | intros _; now destruct s].
  - destruct s as [|d s]; simpl.
    + split; [discriminate | intros [r Hr]; discriminate].
    + destruct (ascii_dec c d) as [->|Hne].
      * rewrite IH. split; intros [r Hr]; exists r; simpl in *; congruence.
      * split; [discriminate | intros [r Hr]; simpl in Hr; congruence].
Qed.

Lemma occurs_at_0 s sub : occurs_at s sub 0 <-> prefix sub s = true.
Proof.
  rewrite prefix_app. split.
  - intros (pre & post & -> & Hl). destruct pre; [|discriminate].
    now exists post.
  - intros [r ->]. now exists "", r.
Qed.

Lemma occurs_at_S c s sub n : occurs_at (String c s) sub (S n) <-> occurs_at s sub n.
Proof.
  split.
  - intros (pre & post & E & Hl). destruct pre as [|d pre]; [discriminate|].
    simpl in *. exists pre, post. split; congruence.
  - intros (pre & post & -> & Hl). exists (String c pre), post.
    simpl. split; congruence.
Qed.

Lemma occurs_at_empty sub n : occurs_at "" sub n -> n = 0%nat.
Proof.
  intros (pre & post & E & Hl). destruct pre; [now subst | discriminate].
Qed.

Lemma indexOf_None s sub : indexOf s sub = None -> forall n, ~ occurs_at s sub n.
Proof.
  induction s as [|c s IH]; cbn [indexOf]; intros E n Hocc.
  - destruct (prefix sub "") eqn:P; [discriminate|].
    pose proof (occurs_at_empty Hocc); subst.
    apply occurs_at_0 in Hocc. congruence.
  - destruct (prefix sub (String c s)) eqn:P; [discriminate|].
    destruct (indexOf s sub) eqn:E'; [discriminate|].
    destruct n as [|n].
    + apply occurs_at_0 in Hocc. congruence.
    + apply occurs_at_S in Hocc. now apply (IH eq_refl n).
Qed.

(** [indexOf] finds the first occurrence. *)
Lemma indexOf_Some s sub n :
  indexOf s sub = Some n ->
  occurs_at s sub n /\ forall m, (m < n)%nat -> ~ occurs_at s sub m.
Proof.
  revert n; induction s as [|c s IH]; intros n; cbn [indexOf].
  - destruct (prefix sub "") eqn:P; [|discriminate].
    intros [= <-]. split; [now apply occurs_at_0 | intros m Hm; lia].
  - destruct (prefix sub (String c s)) eqn:P.
    + intros [= <-]. split; [now apply occurs_at_0 | intros m Hm; lia].
    + destruct (indexOf s sub) as [k|] eqn:E; simpl; [|discriminate].
      intros [= <-]. destruct (IH k eq_refl) as [H Hmin]. split.
      * now apply occurs_at_S.
      * intros [|m] Hm Hocc.
        -- apply occurs_at_0 in Hocc. congruence.
        -- apply occurs_at_S in Hocc. apply (Hmin m); [lia | assumption].
Qed.

Lemma includes_true s sub :
  includes s sub = true <-> exists n, occurs_at s sub n.
Proof.
  unfold includes. destruct (indexOf s sub) as [n|] eqn:E.
  - split; [intros _ | reflexivity]. exists n. now apply indexOf_Some.
  - split; [discriminate|]. intros [n Hn]. now apply indexOf_None with (n := n) in E.
Qed.

(** ** Numbers *)

Lemma Qis_zero_of_nat n : (0 < n)%nat -> Qis_zero (inject_Z (Z.of_nat n)) = false.
Proof.
  intros Hn. unfold Qis_zero. destruct (Qeq_bool _ 0) eqn:E; [|reflexivity].
  apply Qeq_bool_iff in E. unfold Qeq in E. simpl in E. lia.
Qed.

Lemma div_of_nat m n :
  (0 < n)%nat ->
  div (of_nat m) (of_nat n) = Fin (inject_Z (Z.of_nat m) / inject_Z (Z.of_nat n)).
Proof.
  intros Hn. unfold div, of_nat. now rewrite Qis_zero_of_nat.
Qed.

Lemma Math_max_of_nat a b : Math_max (of_nat a) (of_nat b) = of_nat (Nat.max a b).
Proof.
  unfold Math_max, of_nat, leb.
  destruct (Qle_bool _ _) eqn:E.
  - apply Qle_bool_iff in E. rewrite <- Zle_Qle in E.
    now rewrite Nat.max_r by lia.
  - assert (~ (Z.of_nat a <= Z.of_nat b)%Z) as H.
    { intros H. rewrite Zle_Qle in H. apply Qle_bool_iff in H. congruence. }
    now rewrite Nat.max_l by lia.
Qed.

(** A ratio of a count to a bound on it lies between 0 and 1. *)
Lemma ratio_bounds m n :
  (m <= n)%nat -> (0 < n)%nat ->
  0 <= inject_Z (Z.of_nat m) / inject_Z (Z.of_nat n) <= 1.
Proof.
  intros Hmn Hn.
  assert (0 < inject_Z (Z.of_nat n)) as Hpos.
  { change 0 with (inject_Z 0). rewrite <- Zlt_Qlt. lia. }
  split.
  - apply Qle_shift_div_l; [assumption|]. rewrite Qmult_0_l.
    change 0 with (inject_Z 0). rewrite <- Zle_Qle. lia.
  - apply Qle_shift_div_r; [assumption|]. rewrite Qmult_1_l.
    rewrite <- Zle_Qle. lia.
Qed.

Lemma filter_length_le {A} (f : A -> bool) l :
  (List.length (filter f l) <= List.length l)%nat.
Proof.
  induction l as [|x l IH]; simpl; [lia|]. destruct (f x); simpl; lia.
Qed.

(** ** Sub-scores *)

Lemma ci_eqb_lower a b : ci_eqb a b = String.eqb (toLowerCase a) (toLowerCase b).
Proof.
  revert b; induction a as [|c a IH]; intros [|d b]; simpl; try reflexivity.
  rewrite IH. now destruct (Ascii.eqb _ _).
Qed.

Lemma techMatch_spec user tech : JobParser.techMatch user tech = existsb (ci_eqb tech) user.
Proof.
  unfold JobParser.techMatch. induction user as [|u user IH]; simpl; [reflexivity|].
  rewrite IH, ci_eqb_lower. f_equal. apply String.eqb_sym.
Qed.

Lemma techStackScore_value rd profile job :
  ResumeData.data rd = Some profile ->
  job <> [] ->
  let user := Candidate.tech_stack profile in
  JobParser.calculateTechStackScore rd job =
  Returned
    (Fin (inject_Z (Z.of_nat (List.length (filter (JobParser.techMatch user) job)))
          / inject_Z (Z.of_nat (Nat.max (List.length job) (List.length user)))
          * 100)).
Proof.
  intros Hd Hne user. unfold JobParser.calculateTechStackScore. rewrite Hd.
  destruct job as [|t job]; [congruence|].
  cbn [List.length Nat.eqb]. fold user.
  rewrite Math_max_of_nat, div_of_nat by lia. reflexivity.
Qed.

(** Without [data], the read of [tech_stack] throws for every job that
    lists a technology. *)
Lemma techStackScore_throws rd job :
  ResumeData.data rd = None ->
  job <> [] ->
  JobParser.calculateTechStackScore rd job = Threw (TypeError_reading "tech_stack").
Proof.
  intros Hd Hne. unfold JobParser.calculateTechStackScore. rewrite Hd.
  destruct job as [|t job]; [congruence | reflexivity].
Qed.

Lemma techStackScore_returns rd profile job :
  ResumeData.data rd = Some profile ->
  exists v, JobParser.calculateTechStackScore rd job = Returned v.
Proof.
  intros Hd. unfold JobParser.calculateTechStackScore. rewrite Hd.
  destruct (_ =? _)%nat; eexists; reflexivity.
Qed.

Lemma techStackScore_range rd job v :
  JobParser.calculateTechStackScore rd job = Returned v -> in_range 0 100 v.
Proof.
  destruct job as [|t job].
  - intros [= <-]. exists 0. split; [reflexivity | lra].
  - destruct (ResumeData.data rd) as [profile|] eqn:Hd.
    + intros E. rewrite (@techStackScore_value rd _ (t :: job) Hd) in E by discriminate.
      cbv zeta in E. set (user := Candidate.tech_stack profile) in E.
      assert (in_range 0 100
                (Fin (inject_Z (Z.of_nat (List.length
                                            (filter (JobParser.techMatch user) (t :: job))))
                      / inject_Z (Z.of_nat (Nat.max (List.length (t :: job))
                                                    (List.length user)))
                      * 100))) as Hr.
      { eexists; split; [reflexivity|].
        pose proof (@ratio_bounds
          (List.length (filter (JobParser.techMatch user) (t :: job)))
          (Nat.max (List.length (t :: job)) (List.length user))) as H.
        pose proof (filter_length_le (JobParser.techMatch user) (t :: job)).
        lapply H; [clear H; intros H | cbn [List.length] in *; lia].
        lapply H; [clear H; intros H | cbn [List.length]; lia].
        lra. }
      congruence.
    + rewrite techStackScore_throws by (assumption || discriminate). discriminate.
Qed.

Lemma anyRoleInTitle_existsb t roles :
  JobParser.anyRoleInTitle t roles =
  existsb (fun role => includes t (toLowerCase role)) roles.
Proof.
  induction roles as [|r roles IH]; simpl; [reflexivity|].
  rewrite IH. now destruct (includes t (toLowerCase r)).
Qed.

Lemma titleScore_value rd profile title :
  ResumeData.data rd = Some profile ->
  JobParser.calculateTitleScore rd title =
  Returned
    (if title_contains_role (Candidate.roles profile) title then Fin 100
     else Fin (inject_Z (Z.of_nat (matched_keywords title)) / 6 * 60)).
Proof.
  intros Hd. unfold JobParser.calculateTitleScore, title_contains_role. rewrite Hd.
  rewrite anyRoleInTitle_existsb.
  destruct (existsb _ _); [reflexivity|].
  rewrite div_of_nat by (simpl; lia). reflexivity.
Qed.

(** Without [data], the read of [roles] throws for every title. *)
Lemma titleScore_throws rd title :
  ResumeData.data rd = None ->
  JobParser.calculateTitleScore rd title = Threw (TypeError_reading "roles").
Proof.
  intros Hd. unfold JobParser.calculateTitleScore. now rewrite Hd.
Qed.

Lemma matched_keywords_le title : (matched_keywords title <= 6)%nat.
Proof. apply (filter_length_le _ six_keywords). Qed.

Lemma titleScore_range rd title v :
  JobParser.calculateTitleScore rd title = Returned v -> in_range 0 100 v.
Proof.
  destruct (ResumeData.data rd) as [profile|] eqn:Hd.
  - rewrite (@titleScore_value rd _ title Hd). intros [= <-].
    destruct (title_contains_role _ _).
    + exists 100. split; [reflexivity | lra].
    + eexists; split; [reflexivity|].
      pose proof (@ratio_bounds (matched_keywords title) 6 (matched_keywords_le title)) as H.
      lapply H; [clear H; intros H | lia].
      change (inject_Z (Z.of_nat 6)) with 6 in H. lra.
  - rewrite titleScore_throws by assumption. discriminate.
Qed.

Lemma locationScore_cases rd profile loc :
  ResumeData.data rd = Some profile ->
  JobParser.calculateLocationScore rd loc = Returned (Fin 0) \/
  JobParser.calculateLocationScore rd loc = Returned (Fin 100).
Proof.
  intros Hd. unfold JobParser.calculateLocationScore. rewrite Hd.
  destruct (JobParser.anyLocationIn _ _); [now right|].
  destruct (_ || _); [now right | now left].
Qed.

(** Without [data], the read of [location] throws for every location. *)
Lemma locationScore_throws rd loc :
  ResumeData.data rd = None ->
  JobParser.calculateLocationScore rd loc = Threw (TypeError_reading "location").
Proof.
  intros Hd. unfold JobParser.calculateLocationScore. now rewrite Hd.
Qed.

Lemma locationScore_range rd loc v :
  JobParser.calculateLocationScore rd loc = Returned v -> in_range 0 100 v.
Proof.
  destruct (ResumeData.data rd) as [profile|] eqn:Hd.
  - destruct (@locationScore_cases rd _ loc Hd) as [-> | ->]; intros [= <-];
      eexists; (split; [reflexivity | lra]).
  - rewrite locationScore_throws by assumption. discriminate.
Qed.

Lemma recencyScore_range d c :
  in_range 0 100 (run (JobParser.calculateRecencyScore d) c).
Proof.
  destruct d as [d|]; unfold run; simpl.
  - repeat match goal with
           | |- context [if ?b then _ else _] => destruct b
           end; eexists; (split; [reflexivity | lra]).
  - exists 50. split; [reflexivity | lra].
Qed.

(** The weighted sum of four sub-scores in [0,100], capped at 100 and
    divided by 100, lies in [0,1]; a recency score of at least [r]
    guarantees at least [r/1000]. *)
Lemma weighted_sum_range t ti l r lo :
  0 <= lo ->
  in_range 0 100 t -> in_range 0 100 ti -> in_range 0 100 l -> in_range lo 100 r ->
  in_range (lo / 1000) 1
    (div (Math_min
            (add (add (add (add (Fin 0) (mul t (Fin (4 # 10))))
                           (mul ti (Fin (3 # 10))))
                      (mul l (Fin (2 # 10))))
                 (mul r (Fin (1 # 10))))
            (Fin 100))
         (Fin 100)).
Proof.
  intros Hlo (qt & -> & Ht) (qi & -> & Hi) (ql & -> & Hl) (qr & -> & Hr).
  cbn [add mul Math_min leb].
  destruct (Qle_bool _ 100) eqn:E.
  - apply Qle_bool_iff in E. eexists; split; [reflexivity|].
    split.
    + apply Qle_shift_div_l; [lra|]. 
      assert (lo / 1000 * 100 == lo / 10) as -> by (field). 
      assert (lo / 10 == lo * (1 # 10)) as -> by (field).
      lra.
    + apply Qle_shift_div_r; lra.
  - eexists; split; [reflexivity|]. split.
    + apply Qle_shift_div_l; [lra|].
      assert (lo / 1000 * 100 == lo * (1 # 10)) as -> by (field).
      lra.
    + apply Qle_shift_div_r; lra.
Qed.

(** With [data], the three reads succeed and the score is the capped
    weighted sum; the clock is read as the recency sub-score reads it. *)
Lemma calculateJobScore_returns rd profile j c :
  ResumeData.data rd = Some profile ->
  exists t ti l,
    JobParser.calculateTechStackScore rd
      (match JobDetails.tech_stack j with Some l => l | None => [] end) = Returned t
    /\ JobParser.calculateTitleScore rd (JobDetails.title j) = Returned ti
    /\ JobParser.calculateLocationScore rd (or_else (JobDetails.location j) "")
       = Returned l
    /\ JobParser.calculateJobScore rd j c =
       (Returned
          (div (Math_min
                  (add (add (add (add (Fin 0) (mul t (Fin (4 # 10))))
                                 (mul ti (Fin (3 # 10))))
                            (mul l (Fin (2 # 10))))
                       (mul (run (JobParser.calculateRecencyScore
                                    (JobDetails.posted_date j)) c)
                            (Fin (1 # 10))))
                  (Fin 100))
               (Fin 100)),
        snd (JobParser.calculateRecencyScore (JobDetails.posted_date j) c)).
Proof.
  intros Hd.
  destruct (@techStackScore_returns rd _
              (match JobDetails.tech_stack j with Some l => l | None => [] end) Hd)
    as [t Ht].
  pose proof (@titleScore_value rd _ (JobDetails.title j) Hd) as Hti.
  destruct (@locationScore_cases rd _ (or_else (JobDetails.location j) "") Hd) as [Hl | Hl].
  all: eexists t, _, _; split; [exact Ht|]; split; [exact Hti|]; split; [exact Hl|].
  all: unfold JobParser.calculateJobScore; rewrite Ht, Hti, Hl.
  all: cbn [unless_thrown]; unfold run, bind, ret.
  all: destruct (JobParser.calculateRecencyScore (JobDetails.posted_date j) c) as [r c'].
  all: reflexivity.
Qed.

(** Without [data], scoring throws a TypeError for every record, before
    the clock is read. *)
Lemma calculateJobScore_throws rd j :
  ResumeData.data rd = None ->
  exists message, forall c, JobParser.calculateJobScore rd j c = (Threw message, c).
Proof.
  intros Hd. unfold JobParser.calculateJobScore.
  destruct (match JobDetails.tech_stack j with Some l => l | None => [] end)
    as [|t job] eqn:E.
  - cbn [JobParser.calculateTechStackScore List.length Nat.eqb unless_thrown].
    rewrite titleScore_throws by assumption. eexists. reflexivity.
  - rewrite techStackScore_throws by (assumption || discriminate).
    eexists. reflexivity.
Qed.

Lemma in_range_weaken lo lo' hi n : lo' <= lo -> in_range lo hi n -> in_range lo' hi n.
Proof.
  intros H (q & -> & Hq). exists q. split; [reflexivity | lra].
Qed.

Lemma calculateJobScore_range rd profile j c :
  ResumeData.data rd = Some profile ->
  exists score,
    run (JobParser.calculateJobScore rd j) c = Returned score /\ in_range 0 1 score.
Proof.
  intros Hd. destruct (@calculateJobScore_returns rd _ j c Hd) as (t & ti & l & Ht & Hti & Hl & E).
  unfold run. rewrite E. eexists. split; [reflexivity|].
  apply in_range_weaken with (lo := 0 / 1000); [unfold Qle; simpl; lia|].
  apply weighted_sum_range; [lra | | | | ].
  - exact (@techStackScore_range _ _ _ Ht).
  - exact (@titleScore_range _ _ _ Hti).
  - exact (@locationScore_range _ _ _ Hl).
  - apply recencyScore_range.
Qed.

(** ** The relevance score *)

(** C1.  On a resume of the declared shape, which has no [data],
    [calculateJobScore] throws a TypeError for every job record: it
    returns no score.  On a resume that carries the profile under [data]
    it returns, for every record and every reading of the clock, a finite
    number between 0 and 1 (never NaN): a record without tech stack has
    tech sub-score 0, a record without posted date has recency sub-score
    50, and the record with all fields empty still scores between 0.05
    and 1. *)
Theorem calculateJobScore_unit_interval rd j c :
  (ResumeData.data rd = None ->
   exists message, run (JobParser.calculateJobScore rd j) c = Threw message)
  /\ (forall profile,
        ResumeData.data rd = Some profile ->
        (exists score,
           run (JobParser.calculateJobScore rd j) c = Returned score
           /\ in_range 0 1 score)
        /\ (exists score,
              run (JobParser.calculateJobScore rd emptyRecord) c = Returned score
              /\ in_range (1 # 20) 1 score))
  /\ (JobDetails.tech_stack j = None \/ JobDetails.tech_stack j = Some [] ->
      JobParser.calculateTechStackScore rd
        (match JobDetails.tech_stack j with Some l => l | None => [] end)
      = Returned (Fin 0))
  /\ (JobDetails.posted_date j = None ->
      run (JobParser.calculateRecencyScore (JobDetails.posted_date j)) c = Fin 50).
Proof.
  split; [|split; [|split]].
  - intros Hd. destruct (@calculateJobScore_throws rd j Hd) as [message E].
    exists message. unfold run. now rewrite E.
  - intros profile Hd. split; [now apply calculateJobScore_range with profile|].
    destruct (@calculateJobScore_returns rd _ emptyRecord c Hd)
      as (t & ti & l & Ht & Hti & Hl & E).
    unfold run. rewrite E. eexists. split; [reflexivity|].
    apply in_range_weaken with (lo := 50 / 1000); [unfold Qle; simpl; lia|].
    apply weighted_sum_range; [lra | | | | ].
    + exact (@techStackScore_range _ _ _ Ht).
    + exact (@titleScore_range _ _ _ Hti).
    + exact (@locationScore_range _ _ _ Hl).
    + exists 50. split; [reflexivity | lra].
  - intros [-> | ->]; reflexivity.
  - intros ->. reflexivity.
Qed.

(** The score of a record on the resume of the declared shape. *)
Lemma calculateJobScore_unit_interval_witness :
  exists message,
    run (JobParser.calculateJobScore resume_declared emptyRecord) clock0 = Threw message.
Proof.
  destruct (calculateJobScore_unit_interval resume_declared emptyRecord clock0)
    as (Hthrows & _).
  apply Hthrows. reflexivity.
Defined.

(** The worked example of the specification, on a resume that carries
    [data]: all four sub-scores are 100 and the score is 1. *)
Example calculateJobScore_worked :
  exists q, run (JobParser.calculateJobScore resume1 job_worked) clock0 = Returned (Fin q)
            /\ q == 1.
Proof. eexists. split; [vm_compute; reflexivity | reflexivity]. Qed.

(** The floor of the all-empty record, for a profile without empty role or
    location strings: only the neutral recency half-score counts. *)
Example calculateJobScore_floor :
  exists q, run (JobParser.calculateJobScore resume1 emptyRecord) clock0 = Returned (Fin q)
            /\ q == 1 # 20.
Proof. eexists. split; [vm_compute; reflexivity | reflexivity]. Qed.

(** ** The tech-overlap sub-score *)

(** C6.  On a resume of the declared shape, which has no [data],
    [calculateTechStackScore] throws a TypeError for every job that lists
    a technology.  On a resume that carries the profile under [data] the
    sub-score is the number of job techs with a case-insensitive match in
    the profile list, over the longer of the two lists, times 100.  It is 0
    for a job that lists no tech, on every resume; and matching ignores
    case on both sides, so "React" and "react" match either way round. *)
Theorem calculateTechStackScore_rule rd job :
  (ResumeData.data rd = None -> job <> [] ->
   exists message, JobParser.calculateTechStackScore rd job = Threw message)
  /\ (forall profile,
        ResumeData.data rd = Some profile ->
        exists q, JobParser.calculateTechStackScore rd job = Returned (Fin q)
                  /\ q == tech_overlap_spec job (Candidate.tech_stack profile))
  /\ JobParser.calculateTechStackScore rd [] = Returned (Fin 0)
  /\ (forall a b, JobParser.techMatch [a] b = ci_eqb a b)
  /\ (forall a b, ci_eqb a b = ci_eqb b a)
  /\ (forall a b, ci_eqb (toLowerCase a) b = ci_eqb a b)
  /\ JobParser.techMatch ["React"] "react" = true
  /\ JobParser.techMatch ["react"] "React" = true.
Proof.
  split; [|split; [|split; [reflexivity|]]].
  - intros Hd Hne. eexists. now apply techStackScore_throws.
  - intros profile Hd. destruct job as [|t job].
    + exists 0. split; reflexivity.
    + eexists. split; [apply (@techStackScore_value rd _ (t :: job) Hd); discriminate|].
      unfold tech_overlap_spec.
      rewrite (filter_ext _ _ (techMatch_spec (Candidate.tech_stack profile))).
      reflexivity.
  - split; [|split; [|split; [|split; reflexivity]]].
    + intros a b. rewrite techMatch_spec. simpl. rewrite orb_false_r.
      rewrite !ci_eqb_lower. apply String.eqb_sym.
    + intros a b. rewrite !ci_eqb_lower. apply String.eqb_sym.
    + intros a b. now rewrite !ci_eqb_lower, toLowerCase_idem.
Qed.

(** The tech sub-score of a job that lists React on the resume of the
    declared shape. *)
Lemma calculateTechStackScore_rule_witness :
  exists message,
    JobParser.calculateTechStackScore resume_declared ["React"] = Threw message.
Proof.
  destruct (calculateTechStackScore_rule resume_declared ["React"]) as (Hthrows & _).
  apply Hthrows; [reflexivity | discriminate].
Defined.

(** ** The title sub-score *)

(** C7.  On a resume of the declared shape, which has no [data],
    [calculateTitleScore] throws a TypeError for every title.  On a resume
    that carries the profile under [data] the sub-score is 100 when the
    lower-cased title contains a (lower-cased) profile role as a substring;
    otherwise it is the number of the six generic keywords contained in the
    title, over 6, times 60, hence 0 when no keyword occurs. *)
Theorem calculateTitleScore_rule rd title :
  (ResumeData.data rd = None ->
   exists message, JobParser.calculateTitleScore rd title = Threw message)
  /\ JobParser.keywords = six_keywords
  /\ forall profile,
       ResumeData.data rd = Some profile ->
       let roles := Candidate.roles profile in
       exists q,
         JobParser.calculateTitleScore rd title = Returned (Fin q)
         /\ q == title_score_spec roles title
         /\ ((exists role n, In role roles
                             /\ occurs_at (toLowerCase title) (toLowerCase role) n)
             -> q == 100)
         /\ (~ (exists role n, In role roles
                               /\ occurs_at (toLowerCase title) (toLowerCase role) n)
             -> q == inject_Z (Z.of_nat (matched_keywords title)) / 6 * 60
                /\ (matched_keywords title = 0%nat -> q == 0)).
Proof.
  split; [|split; [reflexivity|]].
  - intros Hd. eexists. now apply titleScore_throws.
  - intros profile Hd roles.
    assert (title_contains_role roles title = true <->
            exists role n, In role roles
                           /\ occurs_at (toLowerCase title) (toLowerCase role) n) as Hc.
    { unfold title_contains_role. rewrite existsb_exists. split.
      - intros (role & Hin & Hinc). apply includes_true in Hinc as [n Hn].
        now exists role, n.
      - intros (role & n & Hin & Hn). exists role. split; [assumption|].
        apply includes_true. now exists n. }
    rewrite (@titleScore_value rd _ title Hd). unfold title_score_spec. fold roles.
    destruct (title_contains_role roles title) eqn:E.
    + exists 100. split; [reflexivity|]. split; [reflexivity|].
      split; [reflexivity|].
      intros H. exfalso. apply H, Hc. reflexivity.
    + eexists. split; [reflexivity|]. split; [reflexivity|].
      split.
      * intros H. apply Hc in H. discriminate.
      * intros _. split; [reflexivity|]. intros ->. reflexivity.
Qed.

Lemma calculateTitleScore_rule_witness :
  (exists message,
     JobParser.calculateTitleScore resume_declared "Senior Backend Engineer"
     = Threw message)
  /\ (exists q, JobParser.calculateTitleScore resume1 "Senior Backend Engineer"
                = Returned (Fin q)
                /\ q == 100)
  /\ (exists q, JobParser.calculateTitleScore resume_no_roles "Chef" = Returned (Fin q)
                /\ q == 0).
Proof.
  split; [|split].
  - destruct (calculateTitleScore_rule resume_declared "Senior Backend Engineer")
      as (Hthrows & _).
    apply Hthrows. reflexivity.
  - destruct (calculateTitleScore_rule resume1 "Senior Backend Engineer")
      as (_ & _ & Hrule).
    destruct (Hrule profile1 eq_refl) as (q & Hq & _ & Hrole & _).
    exists q. split; [exact Hq|]. apply Hrole.
    exists "Backend Engineer", 7%nat. split; [left; reflexivity|].
    exists "senior ", "". split; reflexivity.
  - destruct (calculateTitleScore_rule resume_no_roles "Chef")
      as (_ & _ & Hrule).
    destruct (Hrule _ eq_refl) as (q & Hq & _ & _ & Hnone).
    exists q. split; [exact Hq|].
    apply Hnone.
    + intros (role & n & Hin & _). destruct Hin.
    + reflexivity.
Defined.

(** ** Match reasons *)

Lemma pos_length_filter {A} (f : A -> bool) l :
  (0 <? List.length (filter f l))%nat = existsb f l.
Proof.
  induction l as [|x l IH]; simpl; [reflexivity|].
  destruct (f x); simpl; [reflexivity | exact IH].
Qed.

Lemma push_if_nonempty r s :
  (1 <= List.length (JobMatcher.push_if (List.length r =? 0)%nat s r))%nat.
Proof.
  destruct r as [|x r]; simpl; lia.
Qed.

Lemma leb_1_3 d : leb d (Fin 1) = true -> leb d (Fin 3) = true.
Proof.
  destruct d as [q| | |]; simpl; try discriminate; try reflexivity.
  intros H. apply Qle_bool_iff in H. apply Qle_bool_iff. lra.
Qed.

Lemma truthy_or_else_empty o :
  truthy (or_else o "") =
  match o with Some s => negb (String.eqb s "") | None => false end.
Proof.
  destruct o as [[|ch s]|]; reflexivity.
Qed.

Lemma generateMatchReasons_lower_bound rd j score c :
  (1 <= List.length (run (JobMatcher.generateMatchReasons rd j score) c))%nat.
Proof.
  unfold JobMatcher.generateMatchReasons, run, bind, ret.
  destruct (JobDetails.posted_date j) as [d|]; cbn [Date_now fst];
    apply push_if_nonempty.
Qed.

(** C2.  The list of match reasons is never empty: when none of the seven
    specific rules fires it is the single fallback reason that carries the
    percentage score. *)
Theorem generateMatchReasons_nonempty rd j score c :
  let reasons := run (JobMatcher.generateMatchReasons rd j score) c in
  (1 <= List.length reasons)%nat
  /\ (Rules.any rd (c 0%nat) j = false -> reasons = [fallbackReason score]).
Proof.
  intros reasons. subst reasons. split.
  - apply generateMatchReasons_lower_bound.
  - unfold Rules.any, Rules.tech, JobParser.techMatch, Rules.role,
      title_contains_role, Rules.location, Rules.seniority, Rules.salary,
      Rules.startup, Rules.jobText.
    cbv zeta. intros H.
    repeat match goal with
           | H : _ || _ = false |- _ =>
               apply orb_false_iff in H; destruct H as [? ?]
           end.
    unfold JobMatcher.generateMatchReasons, run, bind, ret.
    rewrite !pos_length_filter.
    rewrite truthy_or_else_empty.
    repeat match goal with
           | H : _ = false |- _ => rewrite H; clear H
           end.
    unfold Rules.recency in *.
    destruct (JobDetails.posted_date j) as [d|]; cbn [Date_now fst].
    + destruct (leb _ (Fin 1)) eqn:E1.
      * apply leb_1_3 in E1. congruence.
      * match goal with H : leb _ (Fin 3) = false |- _ => rewrite H end.
        reflexivity.
    + reflexivity.
Qed.

Lemma generateMatchReasons_nonempty_witness :
  run (JobMatcher.generateMatchReasons resume1 emptyRecord (Fin (1 # 20))) clock0
  = ["Overall match score: 5%"].
Proof.
  exact (proj2 (generateMatchReasons_nonempty resume1 emptyRecord (Fin (1 # 20)) clock0)
               eq_refl).
Defined.

(** ** Selection of the top jobs *)

Lemma slice0_of_nat {A} (l : list A) n : slice0 l (of_nat n) = firstn n l.
Proof.
  unfold slice0, of_nat. cbn [inject_Z Qnum Qden].
  rewrite Z.quot_1_r.
  destruct (Z.ltb_spec (Z.of_nat n) 0); [lia|].
  now rewrite Nat2Z.id.
Qed.

(** C4, as the code has it.  For every list, threshold and count [n],
    [selectTopJobs] returns the first [n] of the jobs that clear the
    threshold, or, when none clears it, the first [n] of the whole list; the
    selection is non-empty when the list is non-empty and [n] is at least
    1. *)
Theorem selectTopJobs_rule minScore scoredJobs (n : nat) :
  let qualified :=
    filter (fun job => geb (ScoredJob.score job) minScore) scoredJobs in
  JobMatcher.selectTopJobs minScore scoredJobs (of_nat n) =
    (match qualified with
     | [] => firstn n scoredJobs
     | _ => firstn n qualified
     end)
  /\ (scoredJobs <> [] -> (1 <= n)%nat ->
      JobMatcher.selectTopJobs minScore scoredJobs (of_nat n) <> []).
Proof.
  intros qualified.
  assert (JobMatcher.selectTopJobs minScore scoredJobs (of_nat n) =
          match qualified with
          | [] => firstn n scoredJobs
          | _ => firstn n qualified
          end) as E.
  { unfold JobMatcher.selectTopJobs. fold qualified.
    destruct qualified; cbn [List.length Nat.eqb]; apply slice0_of_nat. }
  split; [exact E|].
  intros Hne Hn. rewrite E.
  destruct n as [|n]; [lia|].
  destruct qualified as [|x q]; [|discriminate].
  destruct scoredJobs; [congruence | discriminate].
Qed.

Lemma selectTopJobs_rule_witness :
  JobMatcher.selectTopJobs (Fin (3 # 10)) [scored "a" (1 # 10); scored "b" (1 # 20)]
                           (of_nat 2)
  <> [].
Proof.
  apply (selectTopJobs_rule (Fin (3 # 10)) [scored "a" (1 # 10); scored "b" (1 # 20)] 2).
  - discriminate.
  - lia.
Defined.

(** Against C4 as stated: with count 0 the selection is empty although the
    list is not. *)
Lemma selectTopJobs_count_zero :
  [scored "a" (9 # 10)] <> []
  /\ JobMatcher.selectTopJobs (Fin (3 # 10)) [scored "a" (9 # 10)] (Fin 0) = [].
Proof.
  split; [discriminate | reflexivity].
Qed.

(** The two selections worked out in the specification. *)
Example selectTopJobs_one_clears :
  JobMatcher.selectTopJobs (Fin (3 # 10)) [scored "a" (9 # 10); scored "b" (2 # 10)]
                           (Fin 5)
  = [scored "a" (9 # 10)].
Proof. reflexivity. Qed.

Example selectTopJobs_fallback :
  JobMatcher.selectTopJobs (Fin (3 # 10)) [scored "a" (1 # 10); scored "b" (1 # 20)]
                           (Fin 2)
  = [scored "a" (1 # 10); scored "b" (1 # 20)].
Proof. reflexivity. Qed.

(** ** The report *)

(** C10.  For the empty list [generateJobReport] returns the zero report:
    no jobs, average 0 (a finite number, not NaN), empty rankings, empty
    location distribution and four zero band counts; the guard is what
    keeps the average from the 0/0 of the general formula, which is NaN. *)
Theorem generateJobReport_empty :
  JobMatcher.generateJobReport [] =
  JobMatcher.mkJobReport 0 (Fin 0) [] [] [] (JobMatcher.mkScoreDistribution 0 0 0 0)
  /\ JobMatcher.averageScore (JobMatcher.generateJobReport []) <> NaN
  /\ div (fold_left (fun sum job => add sum (ScoredJob.score job)) [] (Fin 0))
         (of_nat (List.length (@nil ScoredJob.t))) = NaN.
Proof.
  split; [reflexivity | split; [discriminate | reflexivity]].
Qed.

(** ** Extraction of a record *)

Lemma truthy_false s : truthy s = false <-> s = "".
Proof. destruct s; simpl; split; congruence. Qed.

Lemma truthy_true s : truthy s = true <-> s <> "".
Proof. destruct s; simpl; split; congruence. Qed.

(** The fallback chain yields non-empty text exactly when the field is
    resolved. *)
Lemma findBySelectors_resolved doc selectors :
  JobParser.textOf (JobParser.findBySelectors doc selectors) <> ""
  <-> resolved doc selectors.
Proof.
  induction selectors as [|sel rest IH]; simpl.
  - split; [congruence | intros (s & t & [] & _)].
  - destruct (JobParser.querySelector doc sel) as [tc|] eqn:Q.
    + destruct (truthy (JobParser.trimmedText tc)) eqn:T.
      * simpl. apply truthy_true in T. split; [intros _ | intros _; exact T].
        exists sel, tc. simpl. auto.
      * rewrite IH. apply truthy_false in T. split.
        -- intros (s & t & Hin & Hq & Ht). exists s, t. simpl. auto.
        -- intros (s & t & [<- | Hin] & Hq & Ht).
           ++ rewrite Q in Hq. injection Hq as <-. congruence.
           ++ exists s, t. simpl. auto.
    + rewrite IH. split.
      * intros (s & t & Hin & Hq & Ht). exists s, t. simpl. auto.
      * intros (s & t & [<- | Hin] & Hq & Ht); [congruence|].
        exists s, t. simpl. auto.
Qed.

(** Without [data], [extractTechStack] throws. *)
Lemma extractTechStack_throws rd text :
  ResumeData.data rd = None ->
  JobParser.extractTechStack rd text = Threw (TypeError_reading "tech_stack").
Proof.
  intros Hd. unfold JobParser.extractTechStack. now rewrite Hd.
Qed.

Lemma extractTechStack_returns rd profile text :
  ResumeData.data rd = Some profile ->
  JobParser.extractTechStack rd text =
  Returned
    (JobParser.uniq []
       (filter (fun tech => includes (toLowerCase text) (toLowerCase tech))
               (Candidate.tech_stack profile ++ JobParser.catalog)%list)).
Proof.
  intros Hd. unfold JobParser.extractTechStack. now rewrite Hd.
Qed.

Lemma extractJobDetails_Some rd profile page doc c :
  ResumeData.data rd = Some profile ->
  JobParser.domcontentloaded page = true ->
  JobParser.document page = Some doc ->
  truthy (JobParser.ev_title (JobParser.evaluate doc)) = true ->
  truthy (JobParser.ev_company (JobParser.evaluate doc)) = true ->
  exists techStack postedDate,
    JobParser.extractTechStack rd (JobParser.innerText doc) = Returned techStack
    /\ run (JobParser.extractJobDetails rd page) c =
       Some (JobDetails.mk
               (JobParser.ev_title (JobParser.evaluate doc))
               (JobParser.ev_company (JobParser.evaluate doc))
               (Some (JobParser.hostname doc))
               (JobParser.url page)
               (Some (JobParser.ev_description (JobParser.evaluate doc)))
               (Some (JobParser.extractRequirements (JobParser.innerText doc)))
               (Some techStack)
               (JobParser.or_undefined (JobParser.ev_salary (JobParser.evaluate doc)))
               (JobParser.or_undefined (JobParser.ev_location (JobParser.evaluate doc)))
               postedDate).
Proof.
  intros Hp Hl Hd Ht Hc. unfold JobParser.extractJobDetails.
  rewrite Hl, Hd, Ht, Hc. cbn [negb orb].
  cbn [JobParser.evaluate JobParser.ev_fullText].
  rewrite (@extractTechStack_returns rd _ (JobParser.innerText doc) Hp).
  unfold run, bind, ret, JobParser.extractPostedDate, Date_now.
  eexists _, _. split; reflexivity.
Qed.

(** Without [data] no page yields a record: the throw of
    [extractTechStack] is caught and turned into [null]. *)
Lemma extractJobDetails_without_data rd page c :
  ResumeData.data rd = None ->
  JobParser.extractJobDetails rd page c = (None, c).
Proof.
  intros Hp. unfold JobParser.extractJobDetails.
  destruct (JobParser.domcontentloaded page); [|reflexivity]. cbn [negb].
  destruct (JobParser.document page) as [doc|]; [|reflexivity].
  destruct (_ || _); [reflexivity|].
  now rewrite extractTechStack_throws.
Qed.

(** C3, as the code has it.  On a resume that carries the profile under
    [data], [extractJobDetails] returns [null] exactly when the page fails
    to load or to evaluate, or the title is unresolved, or the company is
    unresolved.  When both are resolved on a page that loads, a record is
    produced whatever the other fields are: an unresolved description is
    the empty string, an unresolved salary or location is [undefined].
    (On a resume without [data] every page gives [null].) *)
Theorem extractJobDetails_rule rd page c :
  let r := run (JobParser.extractJobDetails rd page) c in
  (ResumeData.data rd = None -> r = None)
  /\ forall profile,
       ResumeData.data rd = Some profile ->
       (r = None <->
        JobParser.domcontentloaded page = false
        \/ JobParser.document page = None
        \/ exists doc, JobParser.document page = Some doc
                       /\ (~ resolved doc JobParser.titleSelectors
                           \/ ~ resolved doc JobParser.companySelectors))
       /\ (forall doc,
             JobParser.domcontentloaded page = true ->
             JobParser.document page = Some doc ->
             resolved doc JobParser.titleSelectors ->
             resolved doc JobParser.companySelectors ->
             exists record,
               r = Some record
               /\ JobDetails.title record <> ""
               /\ JobDetails.company record <> ""
               /\ JobDetails.job_url record = JobParser.url page
               /\ (~ resolved doc JobParser.descriptionSelectors ->
                   JobDetails.description record = Some "")
               /\ (~ resolved doc JobParser.salarySelectors ->
                   JobDetails.salary_range record = None)
               /\ (~ resolved doc JobParser.locationSelectors ->
                   JobDetails.location record = None)).
Proof.
  intros r. subst r.
  split.
  { intros Hp. unfold run. now rewrite extractJobDetails_without_data. }
  intros profile Hp.
  assert (forall doc sels, ~ resolved doc sels <->
            JobParser.textOf (JobParser.findBySelectors doc sels) = "") as Hun.
  { intros doc sels. rewrite <- findBySelectors_resolved.
    destruct (string_dec (JobParser.textOf (JobParser.findBySelectors doc sels)) "");
      tauto. }
  split.
  - destruct (JobParser.domcontentloaded page) eqn:Hl.
    2:{ unfold JobParser.extractJobDetails. rewrite Hl. split; auto. }
    destruct (JobParser.document page) as [doc|] eqn:Hd.
    2:{ unfold JobParser.extractJobDetails. rewrite Hl, Hd. split; auto. }
    destruct (truthy (JobParser.ev_title (JobParser.evaluate doc))) eqn:Ht.
    + destruct (truthy (JobParser.ev_company (JobParser.evaluate doc))) eqn:Hc.
      * destruct (@extractJobDetails_Some rd _ page doc c Hp Hl Hd Ht Hc)
          as (ts & pd & _ & ->).
        split; [discriminate|].
        intros [? | [? | (doc' & [= <-] & [Hu | Hu])]]; try discriminate.
        -- exfalso. apply Hun in Hu. apply truthy_true in Ht. now apply Ht.
        -- exfalso. apply Hun in Hu. apply truthy_true in Hc. now apply Hc.
      * unfold JobParser.extractJobDetails. rewrite Hl, Hd, Ht, Hc.
        split; [intros _ | reflexivity].
        right; right. exists doc. split; [reflexivity|]. right.
        apply Hun. now apply truthy_false.
    + unfold JobParser.extractJobDetails. rewrite Hl, Hd, Ht.
      split; [intros _ | reflexivity].
      right; right. exists doc. split; [reflexivity|]. left.
      apply Hun. now apply truthy_false.
  - intros doc Hl Hd Ht Hc.
    apply findBySelectors_resolved in Ht, Hc.
    destruct (@extractJobDetails_Some rd _ page doc c Hp Hl Hd) as (ts & pd & _ & ->).
    + now apply truthy_true.
    + now apply truthy_true.
    + eexists. split; [reflexivity|]. cbn [JobDetails.title JobDetails.company
        JobDetails.job_url JobDetails.description JobDetails.salary_range
        JobDetails.location].
      split; [exact Ht|]. split; [exact Hc|]. split; [reflexivity|].
      split; [|split].
      * intros Hu. apply Hun in Hu. cbn [JobParser.evaluate JobParser.ev_description].
        now rewrite Hu.
      * intros Hu. apply Hun in Hu. cbn [JobParser.evaluate JobParser.ev_salary].
        now rewrite Hu.
      * intros Hu. apply Hun in Hu. cbn [JobParser.evaluate JobParser.ev_location].
        now rewrite Hu.
Qed.

Lemma extractJobDetails_rule_witness :
  exists record,
    run (JobParser.extractJobDetails resume1 page_minimal) clock0 = Some record
    /\ JobDetails.title record <> ""
    /\ JobDetails.salary_range record = None.
Proof.
  assert (resolved doc_minimal JobParser.titleSelectors) as Ht.
  { exists "h1", (Some " Engineer "). split; [simpl; tauto|].
    split; [reflexivity | discriminate]. }
  assert (resolved doc_minimal JobParser.companySelectors) as Hc.
  { exists ".company-name", (Some "Acme"). split; [simpl; tauto|].
    split; [reflexivity | discriminate]. }
  destruct (extractJobDetails_rule resume1 page_minimal clock0) as [_ Hrule].
  destruct (proj2 (Hrule profile1 eq_refl) doc_minimal eq_refl eq_refl Ht Hc)
    as (record & Hr & Htitle & _ & _ & _ & Hsalary & _).
  exists record. split; [exact Hr|]. split; [exact Htitle|].
  apply Hsalary. intros (sel & tc & Hin & Hq & _).
  simpl in Hin.
  repeat (destruct Hin as [<- | Hin]; [discriminate Hq|]).
  destruct Hin.
Defined.

(** Against C3 as stated: the title is resolved, the page loads and
    evaluates, and still no record is produced, because the company is
    not resolved. *)
Lemma extractJobDetails_title_without_company :
  resolved doc_title_only JobParser.titleSelectors
  /\ JobParser.domcontentloaded page_title_only = true
  /\ JobParser.document page_title_only = Some doc_title_only
  /\ run (JobParser.extractJobDetails resume1 page_title_only) clock0 = None.
Proof.
  split; [|split; [reflexivity | split; reflexivity]].
  exists "h1", (Some " Engineer "). split; [simpl; tauto|].
  split; [reflexivity | discriminate].
Qed.

(** ** Extraction of the requirements section *)

Lemma toLowerCase_app a b : toLowerCase (a ++ b) = toLowerCase a ++ toLowerCase b.
Proof.
  induction a as [|c a IH]; simpl; [reflexivity | now rewrite IH].
Qed.

Lemma toLowerCase_split s a b :
  toLowerCase s = a ++ b ->
  exists a' b', s = a' ++ b' /\ toLowerCase a' = a /\ toLowerCase b' = b.
Proof.
  revert s; induction a as [|c a IH]; intros s E; simpl in E.
  - exists "", s. auto.
  - destruct s as [|d s]; [discriminate|]. simpl in E.
    injection E as Ec Es. destruct (IH s Es) as (a' & b' & -> & Ha & Hb).
    exists (String d a'), b'. simpl. rewrite Ha, Ec. auto.
Qed.

Lemma length_app a b : String.length (a ++ b) = (String.length a + String.length b)%nat.
Proof.
  induction a as [|c a IH]; simpl; [reflexivity | now rewrite IH].
Qed.

Lemma substring_skip a b m :
  String.substring (String.length a) m (a ++ b) = String.substring 0 m b.
Proof.
  induction a as [|c a IH]; simpl; [reflexivity | exact IH].
Qed.

Lemma substring_0_min n s :
  String.substring 0 (Nat.min n (String.length s)) s = String.substring 0 n s.
Proof.
  revert n; induction s as [|c s IH]; intros [|n]; simpl; try reflexivity.
  now rewrite IH.
Qed.

Lemma substring_length_le n m s : (String.length (String.substring n m s) <= m)%nat.
Proof.
  revert n m; induction s as [|c s IH]; intros [|n] [|m]; simpl; try lia.
  - specialize (IH 0%nat m). lia.
  - apply IH.
  - apply IH.
Qed.

Lemma trimStart_length_le s : (String.length (trimStart s) <= String.length s)%nat.
Proof.
  induction s as [|c s IH]; simpl; [lia|]. destruct (is_space c); simpl; lia.
Qed.

Lemma trimEnd_length_le s : (String.length (trimEnd s) <= String.length s)%nat.
Proof.
  induction s as [|c s IH]; simpl; [lia|].
  destruct (trimEnd s); [destruct (is_space c)|]; simpl in *; lia.
Qed.

Lemma trim_length_le s : (String.length (trim s) <= String.length s)%nat.
Proof.
  unfold trim. pose proof (trimEnd_length_le (trimStart s)).
  pose proof (trimStart_length_le s). lia.
Qed.

(** The first occurrence is what [indexOf] returns. *)
Lemma indexOf_first s sub i :
  occurs_at s sub i -> (forall m, (m < i)%nat -> ~ occurs_at s sub m) ->
  indexOf s sub = Some i.
Proof.
  intros Hocc Hmin. destruct (indexOf s sub) as [k|] eqn:E.
  - apply indexOf_Some in E as [Hk Hkmin]. f_equal.
    destruct (Nat.lt_trichotomy k i) as [Hlt | [-> | Hgt]]; [|reflexivity|].
    + exfalso. now apply (Hmin k).
    + exfalso. now apply (Hkmin i).
  - exfalso. eapply indexOf_None; eassumption.
Qed.

Lemma extractRequirements_from_bound text lower sections :
  (String.length (JobParser.extractRequirements_from text lower sections) <= 1000)%nat.
Proof.
  induction sections as [|h rest IH]; simpl; [lia|].
  destruct (indexOf lower h) as [i|]; [|exact IH].
  unfold substring.
  pose proof (trim_length_le
    (String.substring (i + String.length h)
       (Nat.min (i + String.length h + 1000) (String.length text)
        - (i + String.length h)) text)).
  pose proof (substring_length_le (i + String.length h)
       (Nat.min (i + String.length h + 1000) (String.length text)
        - (i + String.length h)) text).
  lia.
Qed.

Lemma extractRequirements_from_skip text lower earlier rest :
  (forall h, In h earlier -> forall n, ~ occurs_at lower h n) ->
  JobParser.extractRequirements_from text lower (earlier ++ rest) =
  JobParser.extractRequirements_from text lower rest.
Proof.
  induction earlier as [|h earlier IH]; intros Hno; simpl; [reflexivity|].
  destruct (indexOf lower h) as [i|] eqn:E.
  - apply indexOf_Some in E as [Hocc _]. exfalso.
    apply (Hno h (or_introl eq_refl) i Hocc).
  - apply IH. intros h' Hin. apply Hno. now right.
Qed.

(** On the strings of this model, whose lower-casing keeps every length,
    [extractRequirements] tries the section headers in their fixed order
    against the lower-cased text; the first header of that order that
    occurs anywhere wins, and the result is the (trimmed) first 1000
    characters of what follows its first occurrence, hence at most 1000
    characters; when no header occurs the result is empty. *)
Theorem extractRequirements_rule text :
  (String.length (JobParser.extractRequirements text) <= 1000)%nat
  /\ ((forall h, In h JobParser.requirementSections ->
                 forall n, ~ occurs_at (toLowerCase text) h n) ->
      JobParser.extractRequirements text = "")
  /\ (forall earlier h later i,
        JobParser.requirementSections = (earlier ++ h :: later)%list ->
        (forall h', In h' earlier -> forall n, ~ occurs_at (toLowerCase text) h' n) ->
        occurs_at (toLowerCase text) h i ->
        (forall m, (m < i)%nat -> ~ occurs_at (toLowerCase text) h m) ->
        exists pre hdr post,
          text = pre ++ hdr ++ post
          /\ String.length pre = i
          /\ toLowerCase hdr = h
          /\ JobParser.extractRequirements text = trim (take 1000 post)).
Proof.
  split; [apply extractRequirements_from_bound|]. split.
  - intros Hno. unfold JobParser.extractRequirements.
    rewrite <- (app_nil_r JobParser.requirementSections).
    now rewrite extractRequirements_from_skip.
  - intros earlier h later i Hsplit Hno Hocc Hmin.
    unfold JobParser.extractRequirements. rewrite Hsplit.
    rewrite extractRequirements_from_skip by assumption.
    cbn [JobParser.extractRequirements_from].
    rewrite (indexOf_first Hocc Hmin).
    destruct Hocc as (lpre & lpost & E & Hlen).
    apply toLowerCase_split in E as (pre & rest & -> & Hpre & E).
    apply toLowerCase_split in E as (hdr & post & -> & Hhdr & Hpost).
    exists pre, hdr, post. split; [reflexivity|].
    assert (String.length pre = i) as Hi.
    { rewrite <- Hlen, <- Hpre. symmetry. apply toLowerCase_length. }
    split; [exact Hi|]. split; [exact Hhdr|].
    f_equal. unfold substring, take.
    assert (String.length hdr = String.length h) as Hh.
    { rewrite <- Hhdr. symmetry. apply toLowerCase_length. }
    rewrite <- Hi, <- Hh.
    replace (pre ++ hdr ++ post) with ((pre ++ hdr) ++ post).
    2:{ clear. induction pre as [|c p IH]; simpl; [reflexivity | now rewrite IH]. }
    rewrite <- length_app.
    replace (Nat.min (String.length (pre ++ hdr) + 1000)
                     (String.length ((pre ++ hdr) ++ post))
             - String.length (pre ++ hdr))%nat
      with (Nat.min 1000 (String.length post)).
    2:{ rewrite (length_app (pre ++ hdr) post). lia. }
    rewrite substring_skip. apply substring_0_min.
Qed.

Lemma extractRequirements_rule_witness :
  exists pre hdr post,
    "Must have: tea. Qualifications:  Rust " = pre ++ hdr ++ post
    /\ String.length pre = 16%nat
    /\ toLowerCase hdr = "qualifications:"
    /\ JobParser.extractRequirements "Must have: tea. Qualifications:  Rust "
       = trim (take 1000 post).
Proof.
  set (text := "Must have: tea. Qualifications:  Rust ").
  destruct (@indexOf_Some (toLowerCase text) "qualifications:" 16 eq_refl)
    as [Hocc Hmin].
  apply (proj2 (proj2 (extractRequirements_rule text))
           ["requirements:"] "qualifications:"
           ["what we're looking for:"; "you should have:"; "minimum requirements:";
            "required skills:"; "must have:"] 16%nat eq_refl).
  - intros h' [<- | []] n. now apply indexOf_None.
  - exact Hocc.
  - exact Hmin.
Defined.

Lemma cut_after front rest :
  substring (front ++ rest) (String.length front)
            (Nat.min (String.length front + 1000) (String.length (front ++ rest)))
  = take 1000 rest.
Proof.
  unfold substring, take.
  replace (Nat.min (String.length front + 1000) (String.length (front ++ rest))
           - String.length front)%nat
    with (Nat.min 1000 (String.length rest)) by (rewrite length_app; lia).
  rewrite substring_skip. apply substring_0_min.
Qed.

(** C8.  The loop of [extractRequirements] looks the headers up in the
    lower-cased text and cuts the original text at the index found there.
    So when the header found at index [|pre| + |lost|] of the lower-cased
    text stands at index [|pre|] of the original, the result is not what
    follows the header: the characters [lost] after it are missing.  The
    two indices differ by the number of code units that lower-casing adds
    before the header, which is 1 for every U+0130 there. *)
Theorem extractRequirements_cut_at_lowered_index
  text lowerText earlier h later pre hdr lost rest :
  JobParser.requirementSections = (earlier ++ h :: later)%list ->
  (forall h', In h' earlier -> forall n, ~ occurs_at lowerText h' n) ->
  occurs_at lowerText h (String.length pre + String.length lost) ->
  (forall m, (m < String.length pre + String.length lost)%nat ->
             ~ occurs_at lowerText h m) ->
  text = pre ++ hdr ++ lost ++ rest ->
  String.length hdr = String.length h ->
  JobParser.extractRequirements_from text lowerText JobParser.requirementSections
  = trim (take 1000 rest).
Proof.
  intros Hsplit Hno Hocc Hmin Htext Hh.
  rewrite Hsplit, extractRequirements_from_skip by assumption.
  cbn [JobParser.extractRequirements_from].
  rewrite (indexOf_first Hocc Hmin). f_equal.
  assert (text = (pre ++ hdr ++ lost) ++ rest) as ->.
  { assert (forall a b c : string, (a ++ b) ++ c = a ++ b ++ c) as Hassoc.
    { intros a b c. induction a as [|ch a IH]; simpl; [reflexivity | now rewrite IH]. }
    now rewrite Htext, !Hassoc. }
  replace (String.length pre + String.length lost + String.length h)%nat
    with (String.length (pre ++ hdr ++ lost))
    by (rewrite !length_app; lia).
  apply cut_after.
Qed.

(** The text [İstanbul requirements:x y z], with [I] written for its first
    code unit U+0130, and its lower-cased form, with [_] written for
    U+0307: the result lacks the [x] that follows the header. *)
Lemma extractRequirements_cut_at_lowered_index_witness :
  JobParser.extractRequirements_from
    "Istanbul requirements:x y z" "i_stanbul requirements:x y z"
    JobParser.requirementSections
  = "y z".
Proof.
  apply (@extractRequirements_cut_at_lowered_index
           "Istanbul requirements:x y z" "i_stanbul requirements:x y z"
           [] "requirements:"
           ["qualifications:"; "what we're looking for:"; "you should have:";
            "minimum requirements:"; "required skills:"; "must have:"]
           "Istanbul " "requirements:" "x" " y z" eq_refl).
  - intros h' [].
  - exists "i_stanbul ", "x y z". split; reflexivity.
  - apply (@indexOf_Some "i_stanbul requirements:x y z" "requirements:" 10 eq_refl).
  - reflexivity.
  - reflexivity.
Defined.

(** ** Ranking *)

Lemma sort_insert_perm {A} (cmp : A -> A -> number) x l :
  Permutation (x :: l) (sort_insert cmp x l).
Proof.
  induction l as [|y r IH]; cbn [sort_insert]; [reflexivity|].
  destruct (gtb (cmp x y) (Fin 0)); [|reflexivity].
  rewrite perm_swap. now apply perm_skip.
Qed.

Lemma sort_perm {A} (cmp : A -> A -> number) l : Permutation l (sort cmp l).
Proof.
  induction l as [|x l IH]; simpl; [reflexivity|].
  rewrite <- sort_insert_perm. now apply perm_skip.
Qed.

(** On finite scores the comparator moves [a] past [b] exactly when [a]
    scores strictly less. *)
Lemma byScoreDesc_moves a b qa qb :
  ScoredJob.score a = Fin qa -> ScoredJob.score b = Fin qb ->
  gtb (JobMatcher.byScoreDesc a b) (Fin 0) = negb (Qle_bool qb qa).
Proof.
  intros Ha Hb. unfold JobMatcher.byScoreDesc, gtb, sub. rewrite Ha, Hb. simpl.
  f_equal. destruct (Qle_bool qb qa) eqn:E.
  - apply Qle_bool_iff in E. apply Qle_bool_iff. lra.
  - destruct (Qle_bool (qb + - qa) 0) eqn:E'; [|reflexivity].
    apply Qle_bool_iff in E'.
    assert (qb <= qa) as H by lra. apply Qle_bool_iff in H. congruence.
Qed.

Lemma score_ge_fin a b qa qb :
  ScoredJob.score a = Fin qa -> ScoredJob.score b = Fin qb ->
  (score_ge a b <-> qb <= qa).
Proof.
  intros Ha Hb. unfold score_ge, geb. rewrite Ha, Hb. simpl. apply Qle_bool_iff.
Qed.

Lemma sort_insert_sorted x l :
  finite_score x -> Forall finite_score l ->
  StronglySorted score_ge l ->
  StronglySorted score_ge (sort_insert JobMatcher.byScoreDesc x l).
Proof.
  intros [qx Hx] Hfin Hs. induction Hs as [|y r Hr IH Hy]; cbn [sort_insert].
  - constructor; constructor.
  - inversion Hfin as [|? ? [qy Hqy] Hfr]; subst.
    rewrite (byScoreDesc_moves _ _ Hx Hqy).
    destruct (Qle_bool qy qx) eqn:E; simpl.
    + apply Qle_bool_iff in E. constructor; [now constructor|].
      constructor; [now apply (score_ge_fin _ _ Hx Hqy)|].
      rewrite Forall_forall in *. intros z Hz.
      destruct (Hfr z Hz) as [qz Hqz].
      apply (score_ge_fin _ _ Hx Hqz).
      pose proof (proj1 (score_ge_fin _ _ Hqy Hqz) (Hy z Hz)). lra.
    + constructor; [now apply IH|].
      apply (Permutation_Forall (sort_insert_perm JobMatcher.byScoreDesc x r)).
      constructor; [|exact Hy].
      apply (score_ge_fin _ _ Hqy Hx).
      destruct (Qlt_le_dec qy qx) as [Hlt | Hle]; [|exact Hle].
      exfalso. assert (qy <= qx) as H by lra.
      apply Qle_bool_iff in H. congruence.
Qed.

Lemma sort_sorted l :
  Forall finite_score l -> StronglySorted score_ge (sort JobMatcher.byScoreDesc l).
Proof.
  induction 1 as [|x l Hx Hl IH]; simpl; [constructor|].
  apply sort_insert_sorted; [exact Hx | | exact IH].
  now apply (Permutation_Forall (sort_perm JobMatcher.byScoreDesc l)).
Qed.

(** Inserting never moves an element past one of equal score. *)
Lemma sort_insert_stable s x l :
  finite_score x -> Forall finite_score l ->
  filter (same_score s) (sort_insert JobMatcher.byScoreDesc x l) =
  filter (same_score s) (x :: l).
Proof.
  intros [qx Hx] Hfin. induction Hfin as [|y r [qy Hy] Hr IH]; [reflexivity|].
  cbn [sort_insert]. rewrite (byScoreDesc_moves _ _ Hx Hy).
  destruct (Qle_bool qy qx) eqn:E; [reflexivity|].
  cbn [negb filter] in *. rewrite IH.
  destruct (same_score s x) eqn:Sx; [|reflexivity].
  assert (same_score s y = false) as ->; [|reflexivity].
  unfold same_score in *. rewrite Hx in Sx. rewrite Hy.
  destruct s as [qs| | |]; try reflexivity.
  destruct (Qeq_bool qy qs) eqn:Sy; [|reflexivity].
  apply Qeq_bool_iff in Sx, Sy.
  assert (qy <= qx) as H by (rewrite Sx, Sy; apply Qle_refl).
  apply Qle_bool_iff in H. congruence.
Qed.

Lemma sort_stable s l :
  Forall finite_score l ->
  filter (same_score s) (sort JobMatcher.byScoreDesc l) = filter (same_score s) l.
Proof.
  induction 1 as [|x l Hx Hl IH]; [reflexivity|].
  cbn [sort fold_right]. fold (sort JobMatcher.byScoreDesc l).
  rewrite sort_insert_stable.
  - cbn [filter]. now rewrite IH.
  - exact Hx.
  - now apply (Permutation_Forall (sort_perm JobMatcher.byScoreDesc l)).
Qed.

Lemma mapM_cons {A B} (f : A -> M B) x r c :
  JobMatcher.mapM f (x :: r) c =
  (fst (f x c) :: fst (JobMatcher.mapM f r (snd (f x c))),
   snd (JobMatcher.mapM f r (snd (f x c)))).
Proof.
  cbn [JobMatcher.mapM]. unfold bind, ret.
  destruct (f x c) as [y c1]. cbn [fst snd].
  destruct (JobMatcher.mapM f r c1) as [ys c2]. reflexivity.
Qed.

Lemma mapT_cons {A B} (f : A -> M (Outcome B)) x r c y c1 :
  f x c = (Returned y, c1) ->
  JobMatcher.mapT f (x :: r) c =
  match JobMatcher.mapT f r c1 with
  | (Returned ys, c2) => (Returned (y :: ys), c2)
  | (Threw message, c2) => (Threw message, c2)
  end.
Proof.
  intros E. cbn [JobMatcher.mapT]. unfold bind. rewrite E. cbn [unless_thrown].
  unfold bind. destruct (JobMatcher.mapT f r c1) as [[message | ys] c2]; reflexivity.
Qed.

Lemma mapT_throws {A B} (f : A -> M (Outcome B)) x r c message c1 :
  f x c = (Threw message, c1) ->
  JobMatcher.mapT f (x :: r) c = (Threw message, c1).
Proof.
  intros E. cbn [JobMatcher.mapT]. unfold bind. rewrite E. reflexivity.
Qed.

(** With [data], every job is scored: the scored job carries its record,
    a score in [0,1] and at least one reason. *)
Lemma scoreJob_returns rd profile j c :
  ResumeData.data rd = Some profile ->
  exists s c',
    JobMatcher.scoreJob rd j c = (Returned s, c')
    /\ ScoredJob.job s = j
    /\ in_range 0 1 (ScoredJob.score s)
    /\ (1 <= List.length (ScoredJob.matchReasons s))%nat.
Proof.
  intros Hd. destruct (@calculateJobScore_range rd _ j c Hd) as (score & Hrun & Hr).
  unfold JobMatcher.scoreJob, bind. unfold run in Hrun.
  destruct (JobParser.calculateJobScore rd j c) as [o c1]. cbn [fst] in Hrun. subst o.
  cbn [unless_thrown]. unfold bind, ret.
  pose proof (generateMatchReasons_lower_bound rd j score c1) as Hlen. unfold run in Hlen.
  destruct (JobMatcher.generateMatchReasons rd j score c1) as [rs c2].
  eexists _, _. split; [reflexivity|].
  cbn [ScoredJob.job ScoredJob.score ScoredJob.matchReasons fst] in *. auto.
Qed.

(** Without [data], scoring a job throws, before the clock is read. *)
Lemma scoreJob_throws rd j :
  ResumeData.data rd = None ->
  exists message, forall c, JobMatcher.scoreJob rd j c = (Threw message, c).
Proof.
  intros Hd. destruct (@calculateJobScore_throws rd j Hd) as [message E].
  exists message. intros c. unfold JobMatcher.scoreJob, bind. now rewrite E.
Qed.

Lemma mapT_scoreJob_returns rd profile jobs c :
  ResumeData.data rd = Some profile ->
  exists l c',
    JobMatcher.mapT (JobMatcher.scoreJob rd) jobs c = (Returned l, c')
    /\ map ScoredJob.job l = jobs
    /\ Forall (fun s => in_range 0 1 (ScoredJob.score s)
                        /\ (1 <= List.length (ScoredJob.matchReasons s))%nat) l.
Proof.
  intros Hd. revert c; induction jobs as [|j jobs IH]; intros c.
  - exists [], c. split; [reflexivity|]. split; [reflexivity | constructor].
  - destruct (@scoreJob_returns rd _ j c Hd) as (s & c1 & E & Hj & Hr & Hn).
    destruct (IH c1) as (l & c2 & El & Hm & Hf).
    exists (s :: l), c2. rewrite (@mapT_cons _ _ _ _ jobs _ _ _ E), El.
    split; [reflexivity|]. split.
    + cbn [map]. now rewrite Hj, Hm.
    + constructor; auto.
Qed.

Lemma mapT_scoreJob_throws rd jobs :
  ResumeData.data rd = None ->
  jobs <> [] ->
  exists message,
    forall c, JobMatcher.mapT (JobMatcher.scoreJob rd) jobs c = (Threw message, c).
Proof.
  intros Hd Hne. destruct jobs as [|j jobs]; [congruence|].
  destruct (@scoreJob_throws rd j Hd) as [message E].
  exists message. intros c. apply mapT_throws. apply E.
Qed.

Lemma finite_of_range s :
  in_range 0 1 (ScoredJob.score s) -> finite_score s.
Proof. intros (q & Hq & _). now exists q. Qed.

(** A record without posted date is scored without reading the clock. *)
Lemma scoreJob_undated rd j c :
  JobDetails.posted_date j = None ->
  JobMatcher.scoreJob rd j c = (fst (JobMatcher.scoreJob rd j clock0), c).
Proof.
  intros H. destruct (ResumeData.data rd) as [profile|] eqn:Hd.
  - destruct (@calculateJobScore_returns rd _ j c Hd) as (t & ti & l & Ht & Hti & Hl & E).
    destruct (@calculateJobScore_returns rd _ j clock0 Hd)
      as (t0 & ti0 & l0 & Ht0 & Hti0 & Hl0 & E0).
    assert (t0 = t) as -> by congruence.
    assert (ti0 = ti) as -> by congruence.
    assert (l0 = l) as -> by congruence.
    unfold JobMatcher.scoreJob, bind. rewrite E, E0. cbn [unless_thrown].
    unfold JobMatcher.generateMatchReasons, bind, ret, run.
    rewrite H. reflexivity.
  - destruct (@scoreJob_throws rd j Hd) as [message E]. now rewrite !E.
Qed.

Lemma mapT_scoreJob_undated rd jobs c :
  (forall j, In j jobs -> JobDetails.posted_date j = None) ->
  JobMatcher.mapT (JobMatcher.scoreJob rd) jobs c =
  (fst (JobMatcher.mapT (JobMatcher.scoreJob rd) jobs clock0), c).
Proof.
  revert c; induction jobs as [|j jobs IH]; intros c H; [reflexivity|].
  assert (JobDetails.posted_date j = None) as Hj by (apply H; now left).
  pose proof (@scoreJob_undated rd j c Hj) as Ec.
  pose proof (@scoreJob_undated rd j clock0 Hj) as E0.
  destruct (fst (JobMatcher.scoreJob rd j clock0)) as [message | s].
  - rewrite (@mapT_throws _ _ _ _ jobs _ _ _ Ec), (@mapT_throws _ _ _ _ jobs _ _ _ E0).
    reflexivity.
  - rewrite (@mapT_cons _ _ _ _ jobs _ _ _ Ec), (@mapT_cons _ _ _ _ jobs _ _ _ E0).
    rewrite (IH c) by (intros; apply H; now right).
    rewrite (IH clock0) by (intros; apply H; now right).
    destruct (fst (JobMatcher.mapT (JobMatcher.scoreJob rd) jobs clock0));
      reflexivity.
Qed.

Lemma scoreMultipleJobs_eq rd jobs c :
  JobMatcher.scoreMultipleJobs rd jobs c =
  match JobMatcher.mapT (JobMatcher.scoreJob rd) jobs c with
  | (Returned scoredJobs, c') =>
      (Returned (sort JobMatcher.byScoreDesc scoredJobs), c')
  | (Threw message, c') => (Threw message, c')
  end.
Proof.
  unfold JobMatcher.scoreMultipleJobs, bind.
  destruct (JobMatcher.mapT (JobMatcher.scoreJob rd) jobs c) as [[message | l] c'];
    reflexivity.
Qed.

(** With [data], ranking returns the sorted list of the scored jobs. *)
Lemma scoreMultipleJobs_returns rd profile jobs c :
  ResumeData.data rd = Some profile ->
  exists l c',
    JobMatcher.mapT (JobMatcher.scoreJob rd) jobs c = (Returned l, c')
    /\ JobMatcher.scoreMultipleJobs rd jobs c
       = (Returned (sort JobMatcher.byScoreDesc l), c')
    /\ map ScoredJob.job l = jobs
    /\ Forall (fun s => in_range 0 1 (ScoredJob.score s)
                        /\ (1 <= List.length (ScoredJob.matchReasons s))%nat) l.
Proof.
  intros Hd. destruct (@mapT_scoreJob_returns rd _ jobs c Hd) as (l & c' & E & Hm & Hf).
  exists l, c'. rewrite scoreMultipleJobs_eq, E. auto.
Qed.

(** The empty batch is ranked on every resume. *)
Lemma scoreMultipleJobs_nil rd c :
  JobMatcher.scoreMultipleJobs rd [] c = (Returned [], c).
Proof. reflexivity. Qed.

(** C5, as the code has it.  On a resume that carries the profile under
    [data], for every batch and every sequence of clock readings,
    [scoreMultipleJobs] returns a permutation of the scored inputs, sorted
    by descending score, in which jobs of equal score keep their input
    order.  The output is a function of the batch and of the clock
    readings; for a batch in which no record has a posted date it is the
    same at all clock readings.  (On a resume without [data] the call
    throws for every batch that is not empty.) *)
Theorem scoreMultipleJobs_ranking rd jobs c :
  (ResumeData.data rd = None -> jobs <> [] ->
   exists message, run (JobMatcher.scoreMultipleJobs rd jobs) c = Threw message)
  /\ forall profile,
       ResumeData.data rd = Some profile ->
       exists scoredJobs ranked,
         run (JobMatcher.mapT (JobMatcher.scoreJob rd) jobs) c = Returned scoredJobs
         /\ run (JobMatcher.scoreMultipleJobs rd jobs) c = Returned ranked
         /\ map ScoredJob.job scoredJobs = jobs
         /\ Permutation scoredJobs ranked
         /\ StronglySorted score_ge ranked
         /\ (forall s, filter (same_score s) ranked = filter (same_score s) scoredJobs)
         /\ ((forall j, In j jobs -> JobDetails.posted_date j = None) ->
             forall c', run (JobMatcher.scoreMultipleJobs rd jobs) c' = Returned ranked).
Proof.
  split.
  - intros Hd Hne. destruct (@mapT_scoreJob_throws rd jobs Hd Hne) as [message E].
    exists message. unfold run. now rewrite scoreMultipleJobs_eq, E.
  - intros profile Hd.
    destruct (@scoreMultipleJobs_returns rd _ jobs c Hd) as (l & c1 & El & Er & Hm & Hf).
    assert (Forall finite_score l) as Hfin.
    { eapply Forall_impl; [|exact Hf]. intros s [Hs _]. now apply finite_of_range. }
    exists l, (sort JobMatcher.byScoreDesc l). unfold run. rewrite El, Er. cbn [fst].
    split; [reflexivity|]. split; [reflexivity|]. split; [exact Hm|].
    split; [apply sort_perm|]. split; [now apply sort_sorted|]. split.
    + intros s. now apply sort_stable.
    + intros Hnone c'. rewrite !scoreMultipleJobs_eq.
      rewrite (@mapT_scoreJob_undated rd jobs c' Hnone).
      rewrite (@mapT_scoreJob_undated rd jobs c Hnone) in El.
      injection El as El _. now rewrite El.
Qed.

Lemma scoreMultipleJobs_ranking_witness :
  run (JobMatcher.scoreMultipleJobs resume1 [job_undated; emptyRecord]) clock40
  = run (JobMatcher.scoreMultipleJobs resume1 [job_undated; emptyRecord]) clock0.
Proof.
  destruct (scoreMultipleJobs_ranking resume1 [job_undated; emptyRecord] clock0)
    as [_ Hrule].
  destruct (Hrule profile1 eq_refl) as (scoredJobs & ranked & _ & E0 & _ & _ & _ & _ & Hsame).
  rewrite E0. apply Hsame.
  intros j [<- | [<- | []]]; reflexivity.
Defined.

(** Against C5 as stated: the same batch, scored at time 0 and scored forty
    days later, comes out in two different orders. *)
Lemma scoreMultipleJobs_order_changes_with_time :
  (exists ranked,
     run (JobMatcher.scoreMultipleJobs resume1 [job_dated; job_undated]) clock0
     = Returned ranked
     /\ map (fun s => JobDetails.job_url (ScoredJob.job s)) ranked = ["a"; "b"])
  /\ (exists ranked,
        run (JobMatcher.scoreMultipleJobs resume1 [job_dated; job_undated]) clock40
        = Returned ranked
        /\ map (fun s => JobDetails.job_url (ScoredJob.job s)) ranked = ["b"; "a"]).
Proof.
  split; eexists; (split; [vm_compute; reflexivity | reflexivity]).
Qed.

(** ** The scraping loop and the session record *)

(** Whether a page gives [null] does not depend on the clock, and giving
    [null] reads no clock. *)
Lemma extractJobDetails_None_any_clock rd page c c' :
  run (JobParser.extractJobDetails rd page) c = None ->
  JobParser.extractJobDetails rd page c' = (None, c').
Proof.
  unfold JobParser.extractJobDetails, run.
  destruct (JobParser.domcontentloaded page); [|reflexivity].
  destruct (JobParser.document page) as [doc|]; [|reflexivity].
  destruct (truthy (JobParser.ev_title (JobParser.evaluate doc)));
    [|reflexivity].
  destruct (truthy (JobParser.ev_company (JobParser.evaluate doc)));
    [|reflexivity].
  cbn [negb orb].
  destruct (JobParser.extractTechStack rd _); [reflexivity|].
  unfold bind, ret, JobParser.extractPostedDate, Date_now.
  discriminate.
Qed.

(** One unusable URL: the iteration leaves the accumulated records and the
    clock as they are, and the loop goes on with the next URL. *)
Lemma scrapeAll_skip env rd sr rest pm acc c :
  unusable env rd sr ->
  exists pm',
    JobScrapingAutomation.scrapeAll env rd (sr :: rest) pm acc c =
    JobScrapingAutomation.scrapeAll env rd rest pm' acc c.
Proof.
  unfold unusable. intros H.
  cbn [JobScrapingAutomation.scrapeAll]. unfold bind.
  unfold JobScrapingAutomation.scrapeOne.
  destruct (PlaywrightManager.createContext _ pm) as [pm1|].
  - destruct (JobScrapingAutomation.visit env (JobScrapingAutomation.url sr))
      as [| | |page].
    + exists pm. reflexivity.
    + exists pm1. reflexivity.
    + exists pm1. reflexivity.
    + unfold bind. rewrite (@extractJobDetails_None_any_clock rd page _ c H).
      exists (PlaywrightManager.closeContext pm1). reflexivity.
  - exists pm. reflexivity.
Qed.

Lemma scrapeAll_all_unusable env rd results pm acc c :
  Forall (unusable env rd) results ->
  exists pm', JobScrapingAutomation.scrapeAll env rd results pm acc c = ((pm', acc), c).
Proof.
  intros H. revert pm. induction H as [|sr rest Hsr Hrest IH]; intros pm.
  - exists pm. reflexivity.
  - destruct (@scrapeAll_skip env rd sr rest pm acc c Hsr) as [pm1 ->]. apply IH.
Qed.

(** Once the pool is at its cap, every remaining URL is skipped: a context
    left open by a failed navigation is never closed by the loop. *)
Lemma scrapeAll_pool_full env rd results pm acc c :
  PlaywrightManager.browser pm = true ->
  geb (of_nat (PlaywrightManager.contexts pm)) (PlaywrightManager.maxConcurrency pm)
    = true ->
  JobScrapingAutomation.scrapeAll env rd results pm acc c = ((pm, acc), c).
Proof.
  intros Hb Hfull. induction results as [|sr rest IH]; [reflexivity|].
  cbn [JobScrapingAutomation.scrapeAll]. unfold bind at 1.
  unfold JobScrapingAutomation.scrapeOne, PlaywrightManager.createContext.
  rewrite Hb, Hfull. cbn [negb ret fst snd]. exact IH.
Qed.

Example scrapeAll_three_failures_poison_the_rest :
  forall page,
    let env := JobScrapingAutomation.mkEnv
                 (fun pm => (Returned [], pm))
                 (fun u => if String.eqb u "good" then JobScrapingAutomation.Loaded page
                           else JobScrapingAutomation.GotoThrows)
                 (Fin 5) (Fin (3 # 10)) in
    let bad := JobScrapingAutomation.mkResult "" "bad" "" "" in
    let good := JobScrapingAutomation.mkResult "" "good" "" "" in
    snd (run (JobScrapingAutomation.scrapeAll env resume1 [bad; bad; bad; good]
                (PlaywrightManager.mk true 0 (Fin 3)) [])
             clock0)
    = [].
Proof. reflexivity. Qed.

Lemma slice0_nil {A} (count : number) : slice0 (@nil A) count = [].
Proof.
  destruct count as [q| | |]; try reflexivity.
  unfold slice0. destruct (_ <? 0)%Z; apply firstn_nil.
Qed.

Lemma markTopPicks_nil db : JobRepository.markTopPicks [] db = db.
Proof.
  destruct db as [ss rows ns nl]. unfold JobRepository.markTopPicks. cbn.
  f_equal. rewrite <- (map_id rows) at 2. apply map_ext. reflexivity.
Qed.

(** After [createSession] and a later [updateSession] on the returned id,
    the session found under that id carries the update. *)
Lemma lookup_updated_new_session date queries st u db :
  let created := JobRepository.createSession date queries st db in
  exists s0,
    JobRepository.lookupSession (fst created)
      (JobRepository.updateSession (fst created) u (snd created))
    = Some (JobRepository.applyUpdates u s0).
Proof.
  cbn. unfold JobRepository.lookupSession, JobRepository.updateSession.
  cbn [JobRepository.scraping_sessions].
  set (sid := JobRepository.next_session_id db).
  induction (JobRepository.scraping_sessions db) as [|s l IH]; cbn.
  - rewrite Nat.eqb_refl. cbn. rewrite Nat.eqb_refl. eexists. reflexivity.
  - destruct (JobRepository.id s =? sid)%nat eqn:E.
    + cbn. rewrite E. eexists. reflexivity.
    + rewrite E. exact IH.
Qed.

(** C9.  A candidate URL that fails to load, or whose page gives no
    record, is skipped: the loop goes on with the next URL and keeps what
    it has collected.  When every candidate URL is like that, the run
    returns normally with 0 jobs found and 0 selected, and the session
    found under the returned id is completed with both counts 0. *)
Theorem executeFullScrapingCycle_all_urls_fail env rd w c searchResults pm1 :
  JobScrapingAutomation.searchAllRoles env (JobScrapingAutomation.pm w)
    = (Returned searchResults, pm1) ->
  Forall (unusable env rd) (firstn 50 searchResults) ->
  let out := run (JobScrapingAutomation.executeFullScrapingCycle env rd w) c in
  (exists sid,
     snd out = Returned
                 (JobScrapingAutomation.mkCycleResult sid 0 0 (Fin 0))
     /\ exists s,
          JobRepository.lookupSession sid (JobScrapingAutomation.db (fst out)) = Some s
          /\ JobRepository.status s = JobRepository.completed
          /\ JobRepository.total_jobs_found s = Some 0%nat
          /\ JobRepository.top_jobs_selected s = Some 0%nat)
  /\ (forall sr rest pm acc k,
        unusable env rd sr ->
        exists pm',
          JobScrapingAutomation.scrapeAll env rd (sr :: rest) pm acc k =
          JobScrapingAutomation.scrapeAll env rd rest pm' acc k)
  /\ (forall sr, fails_to_load env sr -> unusable env rd sr).
Proof.
  intros Hsearch Hall out. split; [|split].
  - subst out. unfold JobScrapingAutomation.executeFullScrapingCycle, run, bind.
    cbn [Date_now]. rewrite Hsearch.
    destruct (@scrapeAll_all_unusable env rd (firstn 50 searchResults) pm1 []
                (fun k => c (S k)) Hall) as [pm2 ->].
    cbn [fst snd]. rewrite scoreMultipleJobs_nil.
    unfold JobMatcher.selectTopJobs. cbn [filter List.length Nat.eqb].
    rewrite slice0_nil.
    cbn [JobMatcher.convertMultipleToJobListings JobMatcher.mapM ret
         JobScrapingAutomation.insertAll fold_left
         JobScrapingAutomation.markLoop fst snd List.length].
    unfold JobMatcher.convertMultipleToJobListings, ret.
    cbn [JobMatcher.mapM ret JobScrapingAutomation.insertAll fold_left
         JobScrapingAutomation.markLoop fst snd List.length].
    rewrite markTopPicks_nil.
    eexists. split; [reflexivity|].
    cbn [fst JobScrapingAutomation.db].
    destruct (lookup_updated_new_session (c 0%nat)
                (Candidate.roles (ResumeData.candidate rd)) JobRepository.running
                (JobRepository.mkUpdates (Some 0%nat) (Some 0%nat)
                   (Some JobRepository.completed) (Some (c 1%nat)) None)
                (JobScrapingAutomation.db w)) as [s0 Hs0].
    eexists. split; [exact Hs0|]. split; [reflexivity|]. split; reflexivity.
  - intros sr rest pm acc k. apply scrapeAll_skip.
  - intros sr Hf. unfold unusable.
    destruct (JobScrapingAutomation.visit env (JobScrapingAutomation.url sr))
      as [| | |page] eqn:E; try exact I.
    exfalso. now apply (Hf page).
Qed.

Lemma executeFullScrapingCycle_all_urls_fail_witness :
  exists sid,
    snd (run (JobScrapingAutomation.executeFullScrapingCycle env_offline resume1 world0)
             clock0)
    = Returned
        (JobScrapingAutomation.mkCycleResult sid 0 0 (Fin 0)).
Proof.
  destruct (@executeFullScrapingCycle_all_urls_fail env_offline resume1 world0 clock0
              feed2 (JobScrapingAutomation.pm world0) eq_refl)
    as [(sid & H & _) _].
  - repeat constructor.
  - exists sid. exact H.
Defined.

(** * Further properties of the code *)

(** ** Scoring *)

Lemma Math_min_below q : q <= 100 -> Math_min (Fin q) (Fin 100) = Fin q.
Proof.
  intros H. unfold Math_min, leb. apply Qle_bool_iff in H. now rewrite H.
Qed.

(** X1.  On a resume that carries the profile under [data], the score is
    exactly the weighted sum of the four sub-scores over 100, with weights
    0.4, 0.3, 0.2 and 0.1: the sum never exceeds 100, so the cap of
    [Math.min] is never the value returned. *)
Theorem calculateJobScore_is_weighted_sum rd profile j c :
  ResumeData.data rd = Some profile ->
  exists t ti l r q,
    JobParser.calculateTechStackScore rd
      (match JobDetails.tech_stack j with Some x => x | None => [] end)
    = Returned (Fin t)
    /\ JobParser.calculateTitleScore rd (JobDetails.title j) = Returned (Fin ti)
    /\ JobParser.calculateLocationScore rd (or_else (JobDetails.location j) "")
       = Returned (Fin l)
    /\ run (JobParser.calculateRecencyScore (JobDetails.posted_date j)) c = Fin r
    /\ run (JobParser.calculateJobScore rd j) c = Returned (Fin q)
    /\ q == (t * (4 # 10) + ti * (3 # 10) + l * (2 # 10) + r * (1 # 10)) / 100
    /\ t * (4 # 10) + ti * (3 # 10) + l * (2 # 10) + r * (1 # 10) <= 100.
Proof.
  intros Hd.
  destruct (@calculateJobScore_returns rd _ j c Hd) as (nt & nti & nl & Ht & Hti & Hl & E).
  destruct (@techStackScore_range _ _ _ Ht) as (t & -> & Hrt).
  destruct (@titleScore_range _ _ _ Hti) as (ti & -> & Hrti).
  destruct (@locationScore_range _ _ _ Hl) as (l & -> & Hrl).
  destruct (recencyScore_range (JobDetails.posted_date j) c) as (r & Hr & Hrr).
  assert (0 + t * (4 # 10) + ti * (3 # 10) + l * (2 # 10) + r * (1 # 10) <= 100)
    as Hsum by lra.
  eexists t, ti, l, r, _.
  unfold run at 2. rewrite E, Ht, Hti, Hl, Hr. cbn [fst].
  cbn [add mul]. rewrite (Math_min_below Hsum). cbn [div].
  repeat (split; [reflexivity|]). split; [|lra].
  change (Qis_zero 100) with false. cbv iota.
  apply Qmult_comp; [ring | reflexivity].
Qed.

Lemma calculateJobScore_is_weighted_sum_witness :
  exists q,
    run (JobParser.calculateJobScore resume1 job_worked) clock0 = Returned (Fin q)
    /\ q <= 1.
Proof.
  destruct (@calculateJobScore_is_weighted_sum resume1 profile1 job_worked clock0 eq_refl)
    as (t & ti & l & r & q & _ & _ & _ & _ & Hq & Heq & Hsum).
  exists q. split; [exact Hq|]. rewrite Heq.
  apply Qle_shift_div_r; lra.
Defined.

Lemma days_between now ms :
  Math_floor (div (sub (of_Z now) (of_Z ms)) JobParser.msPerDay)
  = Fin (inject_Z ((now - ms) / 86400000)).
Proof.
  unfold JobParser.msPerDay, of_Z. cbn [sub add neg div].
  change (Qis_zero (1000 * 60 * 60 * 24)) with false. cbv iota.
  cbn [Math_floor]. do 2 f_equal.
  rewrite (Qfloor_comp _ ((now - ms) # 86400000)); [reflexivity|].
  unfold Qeq. simpl. ring.
Qed.

Lemma leb_inject z k : leb (Fin (inject_Z z)) (Fin (inject_Z k)) = (z <=? k)%Z.
Proof.
  unfold leb, Qle_bool. simpl. now rewrite !Z.mul_1_r.
Qed.

Lemma recencyScore_valid ms c :
  run (JobParser.calculateRecencyScore (Some (ValidDate ms))) c
  = Fin (recency_band ((c 0%nat - ms) / 86400000)).
Proof.
  unfold JobParser.calculateRecencyScore, run, bind, ret, Date_now. cbn [fst getTime].
  rewrite days_between.
  change (Fin 1) with (Fin (inject_Z 1)). change (Fin 3) with (Fin (inject_Z 3)).
  change (Fin 7) with (Fin (inject_Z 7)). change (Fin 14) with (Fin (inject_Z 14)).
  change (Fin 30) with (Fin (inject_Z 30)).
  rewrite !leb_inject. unfold recency_band.
  repeat match goal with |- context [(?a <=? ?b)%Z] => destruct (a <=? b)%Z end;
    reflexivity.
Qed.

Lemma recency_band_antitone d d' :
  (d <= d')%Z -> recency_band d' <= recency_band d.
Proof.
  intros H. unfold recency_band.
  repeat match goal with
         | |- context [(?a <=? ?b)%Z] => destruct (Z.leb_spec a b)
         end; try lia; lra.
Qed.

(** X2.  For a record with a valid posted date the recency sub-score is the
    band of the whole days between the posted date and the clock reading,
    so it never grows as time passes; a posting less than two days old (or
    dated in the future) scores 100, one of 31 days or more scores 0, and
    an invalid date scores 0. *)
Theorem calculateRecencyScore_bands ms c c' :
  run (JobParser.calculateRecencyScore (Some (ValidDate ms))) c
    = Fin (recency_band ((c 0%nat - ms) / 86400000))
  /\ ((c 0%nat <= c' 0%nat)%Z ->
      exists q q',
        run (JobParser.calculateRecencyScore (Some (ValidDate ms))) c = Fin q
        /\ run (JobParser.calculateRecencyScore (Some (ValidDate ms))) c' = Fin q'
        /\ q' <= q)
  /\ ((c 0%nat < ms + 2 * 86400000)%Z ->
      run (JobParser.calculateRecencyScore (Some (ValidDate ms))) c = Fin 100)
  /\ ((ms + 31 * 86400000 <= c 0%nat)%Z ->
      run (JobParser.calculateRecencyScore (Some (ValidDate ms))) c = Fin 0)
  /\ run (JobParser.calculateRecencyScore (Some InvalidDate)) c = Fin 0.
Proof.
  split; [apply recencyScore_valid|]. split; [|split; [|split]].
  - intros H. do 2 eexists. rewrite !recencyScore_valid.
    split; [reflexivity|]. split; [reflexivity|].
    apply recency_band_antitone. apply Z.div_le_mono; lia.
  - intros H. rewrite recencyScore_valid. unfold recency_band.
    assert ((c 0%nat - ms) / 86400000 <= 1)%Z as Hd.
    { assert ((c 0%nat - ms) / 86400000 < 2)%Z; [|lia].
      apply Z.div_lt_upper_bound; lia. }
    apply Z.leb_le in Hd. now rewrite Hd.
  - intros H. rewrite recencyScore_valid. unfold recency_band.
    assert (31 <= (c 0%nat - ms) / 86400000)%Z as Hd
      by (apply Z.div_le_lower_bound; lia).
    repeat match goal with
           | |- context [(?a <=? ?b)%Z] => destruct (Z.leb_spec a b)
           end; try lia; reflexivity.
  - reflexivity.
Qed.

Lemma calculateRecencyScore_bands_witness :
  run (JobParser.calculateRecencyScore (Some (ValidDate 0))) clock0 = Fin 100
  /\ run (JobParser.calculateRecencyScore (Some (ValidDate 0))) clock40 = Fin 0
  /\ exists q q',
       run (JobParser.calculateRecencyScore (Some (ValidDate 0))) clock0 = Fin q
       /\ run (JobParser.calculateRecencyScore (Some (ValidDate 0))) clock40 = Fin q'
       /\ q' <= q.
Proof.
  destruct (calculateRecencyScore_bands 0 clock0 clock40) as (_ & Hmono & Hnew & _ & _).
  destruct (calculateRecencyScore_bands 0 clock40 clock0) as (_ & _ & _ & Hold & _).
  split; [apply Hnew; reflexivity|].
  split; [apply Hold; unfold clock40; lia|].
  apply Hmono. unfold clock0, clock40. lia.
Defined.

(** X3.  On a resume that carries the profile under [data], the location
    sub-score is 100 exactly when the lower-cased location contains a
    lower-cased preferred location, or [remote], or [work from home];
    otherwise it is 0.  A preferred location that is the empty string
    therefore matches every record, also one without location. *)
Theorem calculateLocationScore_rule rd profile location :
  ResumeData.data rd = Some profile ->
  let preferred := Candidate.location profile in
  let matches :=
    (exists l n, In l preferred
                 /\ occurs_at (toLowerCase location) (toLowerCase l) n)
    \/ (exists n, occurs_at (toLowerCase location) "remote" n)
    \/ (exists n, occurs_at (toLowerCase location) "work from home" n) in
  (matches -> JobParser.calculateLocationScore rd location = Returned (Fin 100))
  /\ (~ matches -> JobParser.calculateLocationScore rd location = Returned (Fin 0))
  /\ (In "" preferred ->
      JobParser.calculateLocationScore rd location = Returned (Fin 100)).
Proof.
  intros Hd preferred matches.
  assert (JobParser.anyLocationIn (toLowerCase location) preferred = true <->
          exists l n, In l preferred
                      /\ occurs_at (toLowerCase location) (toLowerCase l) n) as Hany.
  { induction preferred as [|p ps IH]; simpl.
    - split; [discriminate | intros (l & n & [] & _)].
    - destruct (includes (toLowerCase location) (toLowerCase p)) eqn:E.
      + split; [intros _ | reflexivity].
        apply includes_true in E as [n Hn]. exists p, n. auto.
      + rewrite IH. split.
        * intros (l & n & Hin & Hn). exists l, n. auto.
        * intros (l & n & [<- | Hin] & Hn).
          -- assert (includes (toLowerCase location) (toLowerCase p) = true)
               by (apply includes_true; now exists n).
             congruence.
          -- exists l, n. auto. }
  assert (matches <-> JobParser.calculateLocationScore rd location = Returned (Fin 100))
    as Hm.
  { unfold matches, JobParser.calculateLocationScore. rewrite Hd. fold preferred.
    rewrite <- Hany, <- !includes_true.
    destruct (JobParser.anyLocationIn _ _); [tauto|].
    destruct (includes _ "remote"); [simpl; tauto|].
    destruct (includes _ "work from home"); simpl; [tauto|].
    split; [intros [H | [H | H]]; discriminate | discriminate]. }
  split; [apply Hm|]. split.
  - intros Hn. destruct (@locationScore_cases rd _ location Hd) as [H | H]; [exact H|].
    exfalso. apply Hn, Hm, H.
  - intros Hin. apply Hm. left. exists "", 0%nat. split; [exact Hin|].
    exists "", (toLowerCase location). split; reflexivity.
Qed.

Lemma calculateLocationScore_rule_witness :
  JobParser.calculateLocationScore resume1 "Fully REMOTE (EU)" = Returned (Fin 100)
  /\ JobParser.calculateLocationScore resume1 "Berlin" = Returned (Fin 0).
Proof.
  destruct (@calculateLocationScore_rule resume1 profile1 "Fully REMOTE (EU)" eq_refl)
    as (Hyes & _ & _).
  destruct (@calculateLocationScore_rule resume1 profile1 "Berlin" eq_refl)
    as (_ & Hno & _).
  split.
  - apply Hyes. right; left. exists 6%nat, "fully ", " (eu)". split; reflexivity.
  - apply Hno. intros [(l & n & Hin & Hn) | [[n Hn] | [n Hn]]].
    + destruct Hin as [<- | []].
      assert (includes (toLowerCase "Berlin") (toLowerCase "Bangalore") = true)
        by (apply includes_true; now exists n).
      discriminate.
    + assert (includes (toLowerCase "Berlin") "remote" = true)
        by (apply includes_true; now exists n).
      discriminate.
    + assert (includes (toLowerCase "Berlin") "work from home" = true)
        by (apply includes_true; now exists n).
      discriminate.
Defined.

(** ** Extraction *)

Lemma existsb_eqb_In x seen : existsb (String.eqb x) seen = true <-> In x seen.
Proof.
  rewrite existsb_exists. split.
  - intros (y & Hin & E). apply String.eqb_eq in E. now subst.
  - intros H. exists x. split; [exact H | apply String.eqb_refl].
Qed.

Lemma uniq_In seen l x :
  In x (JobParser.uniq seen l) <-> In x l /\ ~ In x seen.
Proof.
  revert seen; induction l as [|y l IH]; intros seen; simpl; [tauto|].
  destruct (existsb (String.eqb y) seen) eqn:E.
  - apply existsb_eqb_In in E. rewrite IH. split.
    + intros [H1 H2]. auto.
    + intros [[<- | H1] H2]; [contradiction | auto].
  - assert (~ In y seen) as Hy.
    { intros H. apply existsb_eqb_In in H. congruence. }
    simpl. rewrite IH. simpl. split.
    + intros [<- | [H1 H2]]; [auto|]. split; [auto|]. intros H. apply H2. auto.
    + intros [[<- | H1] H2]; [auto|].
      destruct (string_dec y x) as [-> | Hne]; [auto|].
      right. split; [exact H1|]. intros [H | H]; [congruence | contradiction].
Qed.

Lemma uniq_NoDup seen l : NoDup (JobParser.uniq seen l).
Proof.
  revert seen; induction l as [|y l IH]; intros seen; simpl; [constructor|].
  destruct (existsb (String.eqb y) seen); [apply IH|].
  constructor; [|apply IH].
  intros H. apply uniq_In in H as [_ H]. apply H. now left.
Qed.

Lemma extractTechStack_In rd profile text found tech :
  ResumeData.data rd = Some profile ->
  JobParser.extractTechStack rd text = Returned found ->
  In tech found <->
  In tech (Candidate.tech_stack profile ++ JobParser.catalog)%list
  /\ exists n, occurs_at (toLowerCase text) (toLowerCase tech) n.
Proof.
  intros Hd. rewrite (@extractTechStack_returns rd _ text Hd). intros [= <-].
  rewrite uniq_In, filter_In, includes_true.
  split; [intros [H _]; exact H | intros H; split; [exact H | intros []]].
Qed.

(** X4.  On a resume that carries the profile under [data],
    [extractTechStack] returns, without duplicates, exactly the
    technologies of the profile and of the catalog whose lower-cased name
    occurs somewhere in the lower-cased text. *)
Theorem extractTechStack_members rd profile text :
  ResumeData.data rd = Some profile ->
  exists found,
    JobParser.extractTechStack rd text = Returned found
    /\ NoDup found
    /\ forall tech,
         In tech found <->
         In tech (Candidate.tech_stack profile ++ JobParser.catalog)%list
         /\ exists n, occurs_at (toLowerCase text) (toLowerCase tech) n.
Proof.
  intros Hd. eexists. split; [apply (@extractTechStack_returns rd _ text Hd)|].
  split; [apply uniq_NoDup|].
  intros tech. apply (@extractTechStack_In rd profile text _ tech Hd).
  apply (@extractTechStack_returns rd _ text Hd).
Qed.

Lemma extractTechStack_members_witness :
  exists found,
    JobParser.extractTechStack resume1 "Python and Docker" = Returned found
    /\ In "Docker" found.
Proof.
  destruct (@extractTechStack_members resume1 profile1 "Python and Docker" eq_refl)
    as (found & E & _ & Hmem).
  exists found. split; [exact E|]. apply Hmem. split.
  - apply in_or_app. right. apply existsb_eqb_In. vm_compute. reflexivity.
  - exists 11%nat, "python and ", "". split; reflexivity.
Defined.

Lemma append_assoc (a b c : string) : (a ++ b) ++ c = a ++ b ++ c.
Proof.
  induction a as [|ch a IH]; simpl; [reflexivity | now rewrite IH].
Qed.

(** An occurrence inside an occurrence. *)
Lemma occurs_at_trans s b a n m :
  occurs_at s b n -> occurs_at b a m -> occurs_at s a (n + m).
Proof.
  intros (pre & post & -> & <-) (pre' & post' & -> & <-).
  exists (pre ++ pre'), (post' ++ post). split.
  - now rewrite !append_assoc.
  - apply length_app.
Qed.

(** X5.  Matching is by substring, so a technology whose name is contained
    in the name of a technology that was found is found too: every text in
    which [JavaScript] is found also yields [Java], and [GitHub Actions]
    brings [Git]. *)
Theorem extractTechStack_contained_names rd text found :
  JobParser.extractTechStack rd text = Returned found ->
  (exists profile,
     ResumeData.data rd = Some profile
     /\ forall a b,
          In a (Candidate.tech_stack profile ++ JobParser.catalog)%list ->
          In b found ->
          (exists m, occurs_at (toLowerCase b) (toLowerCase a) m) ->
          In a found)
  /\ (In "JavaScript" found -> In "Java" found)
  /\ (In "GitHub Actions" found -> In "Git" found).
Proof.
  intros E.
  destruct (ResumeData.data rd) as [profile|] eqn:Hd;
    [|rewrite extractTechStack_throws in E by assumption; discriminate].
  assert (forall a b,
     In a (Candidate.tech_stack profile ++ JobParser.catalog)%list ->
     In b found ->
     (exists m, occurs_at (toLowerCase b) (toLowerCase a) m) ->
     In a found) as Hgen.
  { intros a b Ha Hb [m Hm].
    apply (@extractTechStack_In rd profile text found a Hd E). split; [exact Ha|].
    apply (@extractTechStack_In rd profile text found b Hd E) in Hb as [_ [n Hn]].
    exists (n + m)%nat.
    now apply occurs_at_trans with (b := toLowerCase b). }
  split; [exists profile; split; [reflexivity | exact Hgen]|]. split; intros H.
  - apply (Hgen "Java" "JavaScript"); [|exact H|].
    + apply in_or_app. right. now apply existsb_eqb_In.
    + exists 0%nat, "", "script". split; reflexivity.
  - apply (Hgen "Git" "GitHub Actions"); [|exact H|].
    + apply in_or_app. right. now apply existsb_eqb_In.
    + exists 0%nat, "", "hub actions". split; reflexivity.
Qed.

Lemma extractTechStack_contained_names_witness :
  exists found,
    JobParser.extractTechStack resume1 "We build in JavaScript." = Returned found
    /\ In "Java" found.
Proof.
  eexists. split; [reflexivity|].
  destruct (@extractTechStack_contained_names resume1 "We build in JavaScript." _ eq_refl)
    as (_ & Hjs & _).
  apply Hjs. apply existsb_eqb_In. vm_compute. reflexivity.
Defined.

Lemma runs_digits s m r : In (m, r) (runs is_digit s) -> all_digits m.
Proof.
  revert m r; induction s as [|ch s IH]; intros m r; simpl; [tauto|].
  destruct (is_digit ch) eqn:E; [|intros []].
  intros H. apply in_app_or in H as [H | [[= <- <-] | []]].
  - apply in_map_iff in H as ([m' r'] & [= <- <-] & Hin).
    unfold all_digits. simpl. rewrite E. exact (IH _ _ Hin).
  - unfold all_digits. simpl. now rewrite E.
Qed.

Lemma first_success_In {A B} (k : A -> option B) l y :
  first_success k l = Some y -> exists x, In x l /\ k x = Some y.
Proof.
  induction l as [|x l IH]; simpl; [discriminate|].
  destruct (k x) as [y'|] eqn:E.
  - intros [= <-]. exists x. auto.
  - intros H. destruct (IH H) as (x' & Hin & Hk). exists x'. auto.
Qed.

Lemma prepend_Some m g r x :
  prepend m g r = Some x ->
  exists x0, r = Some x0
             /\ group1 x = match g with Some _ => g | None => group1 x0 end.
Proof.
  destruct r as [x0|]; simpl; [|discriminate].
  intros [= <-]. exists x0. split; reflexivity.
Qed.

(** The capture group of a match consists of digits. *)
Lemma match_here_group re s m g :
  match_here re s = Some m -> group1 m = Some g -> all_digits g.
Proof.
  revert s m; induction re as [|a re IH]; intros s m; cbn [match_here].
  - intros [= <-]. discriminate.
  - destruct a as [l | | | ch].
    + destruct (strip_lit l s) as [[t r]|]; [|discriminate].
      intros H Hg. apply prepend_Some in H as (x0 & Hx0 & Hgr).
      rewrite Hgr in Hg. eapply IH; eassumption.
    + intros H Hg. apply first_success_In in H as ([t r] & _ & H).
      apply prepend_Some in H as (x0 & Hx0 & Hgr).
      rewrite Hgr in Hg. eapply IH; eassumption.
    + intros H Hg. apply first_success_In in H as ([t r] & Hin & H).
      apply prepend_Some in H as (x0 & Hx0 & Hgr).
      rewrite Hgr in Hg. injection Hg as <-. cbn [fst]. eapply runs_digits; eassumption.
    + assert (forall s', match_here re s' = Some m -> group1 m = Some g -> all_digits g)
        as IH' by (intros; eapply IH; eassumption).
      destruct s as [|d s']; [apply IH'|].
      destruct (same_letter ch d); [|apply IH'].
      destruct (prepend _ None (match_here re s')) as [x|] eqn:E; [|apply IH'].
      intros [= <-] Hg. apply prepend_Some in E as (x0 & Hx0 & Hgr).
      rewrite Hgr in Hg. eapply IH; eassumption.
Qed.

Lemma String_match_group s re m g :
  String_match s re = Some m -> group1 m = Some g -> all_digits g.
Proof.
  induction s as [|ch s IH]; cbn [String_match];
    destruct (match_here re _) as [m'|] eqn:E.
  - intros [= <-]. eapply match_here_group; eassumption.
  - discriminate.
  - intros [= <-]. eapply match_here_group; eassumption.
  - exact IH.
Qed.

Lemma is_digit_value ch : is_digit ch = true -> (0 <= Z.of_nat (nat_of_ascii ch) - 48)%Z.
Proof.
  unfold is_digit. intros H. apply andb_true_iff in H as [H _].
  apply Nat.leb_le in H. lia.
Qed.

Lemma parseInt_digits_nonneg s : all_digits s -> (0 <= parseInt_digits s)%Z.
Proof.
  unfold all_digits, parseInt_digits.
  assert (forall l acc, (0 <= acc)%Z -> forallb is_digit l = true ->
            (0 <= fold_left
                    (fun acc c => 10 * acc + (Z.of_nat (nat_of_ascii c) - 48))
                    l acc)%Z) as H.
  { induction l as [|ch l IH]; intros acc Hacc Hl; cbn [fold_left]; [exact Hacc|].
    cbn [forallb] in Hl. apply andb_true_iff in Hl as [Hc Hl].
    apply IH; [|exact Hl]. pose proof (is_digit_value _ Hc). lia. }
  intros Hs. apply H; [lia | exact Hs].
Qed.

Lemma timeClip_valid x d : timeClip x = ValidDate d -> d = x.
Proof.
  unfold timeClip. destruct (_ <=? _)%Z; [|discriminate]. now intros [= <-].
Qed.

Lemma extractPostedDate_from_bound text n patterns d :
  JobParser.extractPostedDate_from text (ValidDate n) patterns = Some (ValidDate d) ->
  (d <= n)%Z.
Proof.
  induction patterns as [|p ps IH]; cbn [JobParser.extractPostedDate_from];
    [discriminate|].
  destruct (String_match text p) as [m|] eqn:Hm; [|exact IH].
  destruct (includes (toLowerCase (whole m)) "today").
  { intros [= <-]. lia. }
  destruct (includes (toLowerCase (whole m)) "yesterday").
  { cbn [minusDays]. intros [= H]. apply timeClip_valid in H. lia. }
  destruct (group1 m) as [g|] eqn:Hg; cbn [or_else]; [|exact IH].
  destruct (truthy g) eqn:Tg; [|exact IH].
  cbv iota. rewrite Tg.
  pose proof (parseInt_digits_nonneg (String_match_group _ _ Hm Hg)) as Hv.
  destruct (includes (toLowerCase (whole m)) "hour"); cbn [minusHours minusDays];
    intros [= H]; apply timeClip_valid in H; lia.
Qed.

(** X6.  A posted date inferred from the page text is never later than the
    clock reading taken by the extraction: the offsets parsed from the text
    are subtracted, and they are not negative. *)
Theorem extractPostedDate_not_in_future text c d :
  run (JobParser.extractPostedDate text) c = Some (ValidDate d) ->
  (d <= c 0%nat)%Z.
Proof.
  unfold JobParser.extractPostedDate, run, bind, ret, Date_now. cbn [fst].
  apply extractPostedDate_from_bound.
Qed.

Lemma extractPostedDate_not_in_future_witness :
  run (JobParser.extractPostedDate "Posted 3 days ago by Acme") clock40
    = Some (ValidDate (37 * 86400000))
  /\ (37 * 86400000 <= clock40 0%nat)%Z.
Proof.
  assert (run (JobParser.extractPostedDate "Posted 3 days ago by Acme") clock40
          = Some (ValidDate (37 * 86400000))) as H by (vm_compute; reflexivity).
  split; [exact H|].
  exact (extractPostedDate_not_in_future "Posted 3 days ago by Acme" clock40 H).
Defined.

Lemma indexOf_minimum_requirements s :
  indexOf s "requirements:" = None -> indexOf s "minimum requirements:" = None.
Proof.
  intros H. destruct (indexOf s "minimum requirements:") as [n|] eqn:E; [|reflexivity].
  exfalso. apply indexOf_Some in E as [Hocc _].
  apply (@indexOf_None _ _ H (n + 8)%nat).
  apply occurs_at_trans with (b := "minimum requirements:"); [exact Hocc|].
  exists "minimum ", "". split; reflexivity.
Qed.

(** X7.  The header [minimum requirements:] never decides the result: it
    contains the header [requirements:], which is tried first, so
    [extractRequirements] gives on every text what it would give without
    that header in its list. *)
Theorem extractRequirements_minimum_header_unused text :
  JobParser.extractRequirements text =
  JobParser.extractRequirements_from text (toLowerCase text) sectionsWithoutMinimum.
Proof.
  unfold JobParser.extractRequirements, JobParser.requirementSections,
    sectionsWithoutMinimum.
  cbn [JobParser.extractRequirements_from].
  destruct (indexOf (toLowerCase text) "requirements:") eqn:E1; [reflexivity|].
  rewrite (indexOf_minimum_requirements _ E1). reflexivity.
Qed.

(** ** Match reasons *)

(** Splits on the innermost conditions of the goal, leaving the guard on
    the length of the list to be computed. *)
Ltac split_conditions :=
  repeat first
    [ progress cbv [JobMatcher.push JobMatcher.push_if app List.length Nat.eqb]
    | match goal with
      | |- context [if ?b then _ else _] =>
          lazymatch b with
          | context [if _ then _ else _] => fail
          | _ => destruct b eqn:?
          end
      end ].

(** X8.  There are never more than seven match reasons, and the score
    enters the list only through the fallback reason: as soon as one of the
    seven rules fires, the list is the same whatever the score. *)
Theorem generateMatchReasons_at_most_seven rd j score c :
  (List.length (run (JobMatcher.generateMatchReasons rd j score) c) <= 7)%nat
  /\ (Rules.any rd (c 0%nat) j = true ->
      forall score',
        run (JobMatcher.generateMatchReasons rd j score') c
        = run (JobMatcher.generateMatchReasons rd j score) c).
Proof.
  split.
  - unfold JobMatcher.generateMatchReasons, run, bind, ret.
    rewrite !pos_length_filter.
    destruct (JobDetails.posted_date j) as [d|]; cbn [Date_now fst];
      split_conditions; lia.
  - unfold Rules.any, Rules.tech, JobParser.techMatch, Rules.role,
      title_contains_role, Rules.location, Rules.recency, Rules.seniority,
      Rules.salary, Rules.startup, Rules.jobText.
    cbv zeta. intros H score'.
    unfold JobMatcher.generateMatchReasons, run, bind, ret.
    rewrite !pos_length_filter, !truthy_or_else_empty.
    destruct (JobDetails.posted_date j) as [d|]; cbn [Date_now fst] in *;
      split_conditions;
      try reflexivity;
      repeat (cbn [orb] in H;
              match goal with
              | E : _ = false |- _ => rewrite E in H; clear E
              end);
      cbn [orb] in H; discriminate H.
Qed.

Lemma generateMatchReasons_at_most_seven_witness :
  run (JobMatcher.generateMatchReasons resume1 job_worked NaN) clock0
  = run (JobMatcher.generateMatchReasons resume1 job_worked (Fin 1)) clock0.
Proof.
  destruct (generateMatchReasons_at_most_seven resume1 job_worked (Fin 1) clock0)
    as [_ Hsame].
  apply Hsame. vm_compute. reflexivity.
Defined.

(** ** Selection *)

Lemma subsequence_refl {A} (l : list A) : subsequence l l.
Proof. induction l; constructor; assumption. Qed.

Lemma subsequence_filter {A} (f : A -> bool) l : subsequence (filter f l) l.
Proof.
  induction l as [|x l IH]; simpl; [constructor|].
  destruct (f x); constructor; assumption.
Qed.

Lemma subsequence_nil {A} (l : list A) : subsequence [] l.
Proof. induction l; constructor; assumption. Qed.

Lemma subsequence_firstn {A} n (l : list A) : subsequence (firstn n l) l.
Proof.
  revert n; induction l as [|x l IH]; intros [|n]; simpl;
    try constructor; auto using subsequence_nil.
Qed.

Lemma subsequence_trans {A} (a b c : list A) :
  subsequence a b -> subsequence b c -> subsequence a c.
Proof.
  intros Hab Hbc. revert a Hab.
  induction Hbc as [|x s l Hsl IH|x s l Hsl IH]; intros a Hab.
  - exact Hab.
  - inversion Hab; subst; constructor; auto.
  - constructor. auto.
Qed.

Lemma subsequence_In {A} (s l : list A) x : subsequence s l -> In x s -> In x l.
Proof.
  induction 1; simpl; intros; tauto.
Qed.

Lemma subsequence_length {A} (s l : list A) :
  subsequence s l -> (List.length s <= List.length l)%nat.
Proof. induction 1; simpl; lia. Qed.

Lemma slice0_subsequence {A} (l : list A) count : subsequence (slice0 l count) l.
Proof.
  destruct count as [q| | |]; simpl;
    try apply subsequence_nil; try apply subsequence_refl.
  destruct (_ <? 0)%Z; apply subsequence_firstn.
Qed.

Lemma selectTopJobs_subsequence minScore scoredJobs count :
  subsequence (JobMatcher.selectTopJobs minScore scoredJobs count) scoredJobs.
Proof.
  unfold JobMatcher.selectTopJobs.
  destruct (_ =? 0)%nat; [apply slice0_subsequence|].
  eapply subsequence_trans; [apply slice0_subsequence | apply subsequence_filter].
Qed.

(** X9.  Whatever the threshold and the count, the selection keeps jobs of
    the ranked list in their order and never has more jobs than the list;
    for a count [n] it has at most [n] jobs, and when some job clears the
    threshold every selected job clears it. *)
Theorem selectTopJobs_selection minScore scoredJobs count (n : nat) :
  subsequence (JobMatcher.selectTopJobs minScore scoredJobs count) scoredJobs
  /\ (List.length (JobMatcher.selectTopJobs minScore scoredJobs count)
      <= List.length scoredJobs)%nat
  /\ (List.length (JobMatcher.selectTopJobs minScore scoredJobs (of_nat n)) <= n)%nat
  /\ ((exists job, In job scoredJobs /\ geb (ScoredJob.score job) minScore = true) ->
      Forall (fun job => geb (ScoredJob.score job) minScore = true)
             (JobMatcher.selectTopJobs minScore scoredJobs count)).
Proof.
  set (q := filter (fun job => geb (ScoredJob.score job) minScore) scoredJobs).
  assert (forall cnt, JobMatcher.selectTopJobs minScore scoredJobs cnt =
                      match q with [] => slice0 scoredJobs cnt | _ => slice0 q cnt end)
    as E.
  { intros cnt. unfold JobMatcher.selectTopJobs. fold q. now destruct q. }
  assert (subsequence (JobMatcher.selectTopJobs minScore scoredJobs count) scoredJobs)
    as Hsub.
  { rewrite E. destruct q eqn:Hq; [apply slice0_subsequence|].
    rewrite <- Hq. eapply subsequence_trans; [apply slice0_subsequence|].
    apply subsequence_filter. }
  split; [exact Hsub|]. split; [|split].
  - now apply subsequence_length.
  - rewrite E. destruct q; rewrite slice0_of_nat; apply firstn_le_length.
  - intros (job & Hin & Hge). rewrite E.
    assert (In job q) as Hjq by (apply filter_In; auto).
    destruct q as [|x q'] eqn:Hq; [contradiction|]. rewrite <- Hq.
    apply Forall_forall. intros y Hy.
    apply (@subsequence_In _ _ _ y (slice0_subsequence q count)) in Hy.
    subst q. now apply filter_In in Hy as [_ Hy].
Qed.

Lemma selectTopJobs_selection_witness :
  Forall (fun job => geb (ScoredJob.score job) (Fin (3 # 10)) = true)
         (JobMatcher.selectTopJobs (Fin (3 # 10))
            [scored "a" (9 # 10); scored "b" (2 # 10)] (Fin 5)).
Proof.
  apply (selectTopJobs_selection (Fin (3 # 10))
           [scored "a" (9 # 10); scored "b" (2 # 10)] (Fin 5) 5).
  exists (scored "a" (9 # 10)). split; [left; reflexivity | reflexivity].
Defined.

Lemma geb_NaN x : geb x NaN = false.
Proof. now destruct x. Qed.

(** X10.  The two settings read from the environment can disable the
    selection: with an unparsable threshold (NaN) no job clears it and the
    first [n] jobs of the list are taken unfiltered; with an unparsable
    count (NaN) nothing is selected from any list; and a negative count
    [-k] selects all but the last [k] of the jobs it would choose from. *)
Theorem selectTopJobs_unparsable_settings minScore scoredJobs (n k : nat) :
  JobMatcher.selectTopJobs NaN scoredJobs (of_nat n) = firstn n scoredJobs
  /\ JobMatcher.selectTopJobs minScore scoredJobs NaN = []
  /\ ((0 < k)%nat ->
      JobMatcher.selectTopJobs minScore scoredJobs (of_Z (- Z.of_nat k)) =
      let q := filter (fun job => geb (ScoredJob.score job) minScore) scoredJobs in
      match q with
      | [] => firstn (List.length scoredJobs - k) scoredJobs
      | _ => firstn (List.length q - k) q
      end).
Proof.
  split; [|split].
  - unfold JobMatcher.selectTopJobs.
    rewrite (filter_ext _ (fun _ => false)) by (intros; apply geb_NaN).
    assert (forall l : list ScoredJob.t, filter (fun _ => false) l = []) as ->
      by (induction l; auto).
    apply slice0_of_nat.
  - unfold JobMatcher.selectTopJobs. now destruct (_ =? 0)%nat.
  - intros Hk. cbv zeta. unfold JobMatcher.selectTopJobs.
    assert (forall (l : list ScoredJob.t),
              slice0 l (of_Z (- Z.of_nat k)) = firstn (List.length l - k) l) as Hs.
    { intros l. unfold slice0, of_Z. cbn [inject_Z Qnum Qden].
      rewrite Z.quot_1_r.
      destruct (Z.ltb_spec (- Z.of_nat k) 0); [|lia].
      f_equal. lia. }
    destruct (filter _ scoredJobs); cbn [List.length Nat.eqb]; apply Hs.
Qed.

Lemma selectTopJobs_unparsable_settings_witness :
  JobMatcher.selectTopJobs (Fin (3 # 10))
    [scored "a" (9 # 10); scored "b" (8 # 10); scored "c" (1 # 10)] (of_Z (- Z.of_nat 1))
  = [scored "a" (9 # 10)].
Proof.
  apply (selectTopJobs_unparsable_settings (Fin (3 # 10))
           [scored "a" (9 # 10); scored "b" (8 # 10); scored "c" (1 # 10)] 0 1).
  lia.
Defined.

(** ** The report *)

Lemma Qle_bool_false x y : Qle_bool x y = false <-> y < x.
Proof.
  split.
  - intros H. destruct (Qlt_le_dec y x) as [Hlt | Hle]; [exact Hlt|].
    apply Qle_bool_iff in Hle. congruence.
  - intros H. destruct (Qle_bool x y) eqn:E; [|reflexivity].
    apply Qle_bool_iff in E. lra.
Qed.

(** A score that is not NaN lies in exactly one of the four bands. *)
Lemma one_band x :
  x <> NaN ->
  (Nat.b2n (gtb x (Fin (8 # 10)))
   + Nat.b2n (gtb x (Fin (6 # 10)) && leb x (Fin (8 # 10)))
   + Nat.b2n (gtb x (Fin (4 # 10)) && leb x (Fin (6 # 10)))
   + Nat.b2n (leb x (Fin (4 # 10))) = 1)%nat.
Proof.
  destruct x as [q| | |]; try reflexivity; [|congruence].
  intros _. unfold gtb, ltb, leb.
  destruct (Qle_bool q (8 # 10)) eqn:E8; destruct (Qle_bool q (6 # 10)) eqn:E6;
    destruct (Qle_bool q (4 # 10)) eqn:E4; try reflexivity;
    repeat match goal with
           | H : Qle_bool _ _ = true |- _ => apply Qle_bool_iff in H
           | H : Qle_bool _ _ = false |- _ => apply Qle_bool_false in H
           end; exfalso; lra.
Qed.

Lemma no_band_NaN :
  (Nat.b2n (gtb NaN (Fin (8 # 10)))
   + Nat.b2n (gtb NaN (Fin (6 # 10)) && leb NaN (Fin (8 # 10)))
   + Nat.b2n (gtb NaN (Fin (4 # 10)) && leb NaN (Fin (6 # 10)))
   + Nat.b2n (leb NaN (Fin (4 # 10))) = 0)%nat.
Proof. reflexivity. Qed.

Lemma count_if_cons f x l :
  JobMatcher.count_if f (x :: l) = (Nat.b2n (f x) + JobMatcher.count_if f l)%nat.
Proof.
  unfold JobMatcher.count_if. simpl. now destruct (f x).
Qed.

Lemma generateJobReport_nonempty x l :
  exists avg tech comp loc,
    JobMatcher.generateJobReport (x :: l) =
    JobMatcher.mkJobReport (List.length (x :: l)) avg tech comp loc
      (JobMatcher.mkScoreDistribution
         (JobMatcher.count_if (fun job => gtb (ScoredJob.score job) (Fin (8 # 10)))
                              (x :: l))
         (JobMatcher.count_if (fun job => gtb (ScoredJob.score job) (Fin (6 # 10))
                                          && leb (ScoredJob.score job) (Fin (8 # 10)))
                              (x :: l))
         (JobMatcher.count_if (fun job => gtb (ScoredJob.score job) (Fin (4 # 10))
                                          && leb (ScoredJob.score job) (Fin (6 # 10)))
                              (x :: l))
         (JobMatcher.count_if (fun job => leb (ScoredJob.score job) (Fin (4 # 10)))
                              (x :: l))).
Proof.
  do 4 eexists. reflexivity.
Qed.

(** X11.  The four score bands of the report are disjoint and cover every
    score that is a number: their counts add up to the number of jobs whose
    score is not NaN, hence to [totalJobs] for a batch of finite scores. *)
Theorem generateJobReport_bands_partition scoredJobs :
  let report := JobMatcher.generateJobReport scoredJobs in
  let bands := JobMatcher.scoreDistribution report in
  (JobMatcher.excellent bands + JobMatcher.good bands
   + JobMatcher.fair bands + JobMatcher.poor bands
   = List.length
       (filter (fun job => match ScoredJob.score job with NaN => false | _ => true end)
               scoredJobs))%nat
  /\ (Forall finite_score scoredJobs ->
      (JobMatcher.excellent bands + JobMatcher.good bands
       + JobMatcher.fair bands + JobMatcher.poor bands
       = JobMatcher.totalJobs report)%nat)
  /\ JobMatcher.totalJobs report = List.length scoredJobs.
Proof.
  intros report bands.
  assert (JobMatcher.totalJobs report = List.length scoredJobs) as Htot.
  { subst report. destruct scoredJobs as [|x l]; [reflexivity|].
    destruct (generateJobReport_nonempty x l) as (a & t & cm & lo & ->). reflexivity. }
  assert (JobMatcher.excellent bands + JobMatcher.good bands
          + JobMatcher.fair bands + JobMatcher.poor bands
          = List.length
              (filter (fun job => match ScoredJob.score job with
                                  | NaN => false | _ => true end) scoredJobs))%nat
    as Hsum.
  { subst bands report. destruct scoredJobs as [|x l]; [reflexivity|].
    destruct (generateJobReport_nonempty x l) as (a & t & cm & lo & ->).
    cbn [JobMatcher.scoreDistribution JobMatcher.excellent JobMatcher.good
         JobMatcher.fair JobMatcher.poor].
    generalize (x :: l). clear. intros l.
    induction l as [|y l IH]; [reflexivity|].
    rewrite !count_if_cons. cbn [filter].
    destruct (ScoredJob.score y) eqn:Ey.
    1-3: cbn [List.length];
         match goal with
         | |- context [gtb ?s _] =>
             assert (s <> NaN) as Hn by discriminate;
             pose proof (one_band Hn)
         end; lia.
    pose proof no_band_NaN. lia. }
  split; [exact Hsum|]. split; [|exact Htot].
  intros Hfin. rewrite Hsum, Htot. f_equal.
  clear -Hfin. induction Hfin as [|y l [q Hq] Hl IH]; [reflexivity|].
  cbn [filter]. rewrite Hq. now rewrite IH.
Qed.

Lemma generateJobReport_bands_partition_witness :
  let report := JobMatcher.generateJobReport
                  [scored "a" (9 # 10); scored "b" (1 # 2); scored "c" (2 # 5)] in
  (JobMatcher.excellent (JobMatcher.scoreDistribution report)
   + JobMatcher.good (JobMatcher.scoreDistribution report)
   + JobMatcher.fair (JobMatcher.scoreDistribution report)
   + JobMatcher.poor (JobMatcher.scoreDistribution report)
   = JobMatcher.totalJobs report)%nat.
Proof.
  destruct (generateJobReport_bands_partition
              [scored "a" (9 # 10); scored "b" (1 # 2); scored "c" (2 # 5)])
    as (_ & Hfinite & _).
  apply Hfinite. repeat constructor; eexists; reflexivity.
Defined.

Lemma increment_total k m : total_count (JobMatcher.increment k m) = S (total_count m).
Proof.
  induction m as [|[k' v] m IH]; simpl; [reflexivity|].
  destruct (String.eqb k k'); simpl; [reflexivity | rewrite IH; lia].
Qed.

Lemma increment_keys k m x :
  In x (map fst (JobMatcher.increment k m)) <-> x = k \/ In x (map fst m).
Proof.
  induction m as [|[k' v] m IH]; simpl; [intuition|].
  destruct (String.eqb_spec k k') as [-> | Hne]; simpl; [intuition|].
  rewrite IH. intuition.
Qed.

Lemma increment_NoDup k m :
  NoDup (map fst m) -> NoDup (map fst (JobMatcher.increment k m)).
Proof.
  induction m as [|[k' v] m IH]; simpl; intros H.
  - constructor; [intros [] | constructor].
  - inversion H as [|? ? Hnot Hnd]; subst.
    destruct (String.eqb_spec k k') as [-> | Hne]; simpl.
    + constructor; assumption.
    + constructor; [|now apply IH].
      intros Hin. apply increment_keys in Hin as [-> | Hin]; [congruence | contradiction].
Qed.

Lemma countAll_facts keys :
  total_count (JobMatcher.countAll keys) = List.length keys
  /\ NoDup (map fst (JobMatcher.countAll keys))
  /\ forall x, In x (map fst (JobMatcher.countAll keys)) <-> In x keys.
Proof.
  unfold JobMatcher.countAll.
  assert (forall m,
            total_count (fold_left (fun m k => JobMatcher.increment k m) keys m)
              = (total_count m + List.length keys)%nat
            /\ (NoDup (map fst m) ->
                NoDup (map fst (fold_left (fun m k => JobMatcher.increment k m) keys m)))
            /\ forall x,
                 In x (map fst (fold_left (fun m k => JobMatcher.increment k m) keys m))
                 <-> In x (map fst m) \/ In x keys) as H.
  { induction keys as [|k keys IH]; intros m; simpl.
    - split; [lia|]. split; [auto | intuition].
    - destruct (IH (JobMatcher.increment k m)) as (H1 & H2 & H3).
      split; [rewrite H1, increment_total; lia|]. split.
      + intros Hm. apply H2. now apply increment_NoDup.
      + intros x. rewrite H3, increment_keys. intuition. }
  destruct (H []) as (H1 & H2 & H3). split; [exact H1|]. split.
  - apply H2. constructor.
  - intros x. rewrite H3. simpl. intuition.
Qed.

Lemma NoDup_firstn {A} n (l : list A) : NoDup l -> NoDup (firstn n l).
Proof.
  intros H. rewrite <- (firstn_skipn n l) in H. now apply NoDup_app_remove_r in H.
Qed.

Lemma top10_facts m :
  NoDup (map fst m) ->
  (List.length (JobMatcher.top10 m) <= 10)%nat
  /\ NoDup (JobMatcher.top10 m)
  /\ forall x, In x (JobMatcher.top10 m) -> In x (map fst m).
Proof.
  intros Hnd. unfold JobMatcher.top10.
  change (Fin 10) with (of_nat 10). rewrite slice0_of_nat.
  pose proof (sort_perm JobMatcher.byCountDesc m) as Hp.
  split; [rewrite length_map; apply firstn_le_length|]. split.
  - rewrite <- firstn_map. apply NoDup_firstn.
    eapply Permutation_NoDup; [apply Permutation_map; exact Hp | exact Hnd].
  - intros x Hx. rewrite <- firstn_map in Hx.
    apply (@subsequence_In _ _ _ x (subsequence_firstn 10 _)) in Hx.
    eapply Permutation_in; [apply Permutation_map, Permutation_sym; exact Hp | exact Hx].
Qed.

Lemma increment_count_of k m x :
  count_of (JobMatcher.increment k m) x
  = (count_of m x + if String.eqb x k then 1 else 0)%nat.
Proof.
  unfold count_of. induction m as [|[k' v] m IH]; cbn [JobMatcher.increment find fst snd].
  - destruct (String.eqb x k); reflexivity.
  - destruct (String.eqb_spec k k') as [-> | Hne]; cbn [find fst snd].
    + destruct (String.eqb x k'); cbn [snd]; lia.
    + destruct (String.eqb_spec x k') as [-> | Hx]; cbn [snd].
      * destruct (String.eqb_spec k' k); [congruence | lia].
      * exact IH.
Qed.

Lemma countAll_count_of keys x :
  count_of (JobMatcher.countAll keys) x = occurrences x keys.
Proof.
  unfold JobMatcher.countAll, occurrences.
  assert (forall m,
            count_of (fold_left (fun m k => JobMatcher.increment k m) keys m) x
            = (count_of m x + List.length (filter (String.eqb x) keys))%nat) as H.
  { induction keys as [|k keys IH]; intros m; cbn [fold_left filter].
    - cbn. lia.
    - rewrite IH, increment_count_of.
      destruct (String.eqb x k); cbn [List.length]; lia. }
  now rewrite H.
Qed.

(** X12.  For a batch whose locations, companies and technologies are
    plain keys, the location distribution of the report has one entry for
    each distinct location of the batch ([Unknown] for a record without
    one), its count is the number of jobs with that location, and the
    counts add up to the number of jobs; [topCompanies] and [topTechStack]
    hold at most ten names, none twice, each taken from the batch. *)
Theorem generateJobReport_distributions scoredJobs :
  let locations :=
    map (fun job => or_else (JobDetails.location (ScoredJob.job job)) "Unknown")
        scoredJobs in
  let companies := map (fun job => JobDetails.company (ScoredJob.job job)) scoredJobs in
  let techs :=
    flat_map (fun job => match JobDetails.tech_stack (ScoredJob.job job) with
                         | Some l => l
                         | None => []
                         end) scoredJobs in
  forallb plain_key (locations ++ companies ++ techs)%list = true ->
  let report := JobMatcher.generateJobReport scoredJobs in
  NoDup (map fst (JobMatcher.locationDistribution report))
  /\ (forall k, In k (map fst (JobMatcher.locationDistribution report))
                <-> In k locations)
  /\ (forall k, count_of (JobMatcher.locationDistribution report) k
                = occurrences k locations)
  /\ total_count (JobMatcher.locationDistribution report) = List.length scoredJobs
  /\ (List.length (JobMatcher.topCompanies report) <= 10)%nat
  /\ NoDup (JobMatcher.topCompanies report)
  /\ (forall company, In company (JobMatcher.topCompanies report) -> In company companies)
  /\ (List.length (JobMatcher.topTechStack report) <= 10)%nat
  /\ NoDup (JobMatcher.topTechStack report)
  /\ (forall tech, In tech (JobMatcher.topTechStack report) -> In tech techs).
Proof.
  intros locations companies techs _ report. subst report.
  destruct scoredJobs as [|x l].
  - cbn. repeat split; try constructor; try lia; try tauto; intros ? [].
  - set (jobs := x :: l) in *.
    change (JobMatcher.generateJobReport jobs) with
      (JobMatcher.mkJobReport (List.length jobs)
         (div (fold_left (fun sum job => add sum (ScoredJob.score job)) jobs (Fin 0))
              (of_nat (List.length jobs)))
         (JobMatcher.top10 (JobMatcher.countAll techs))
         (JobMatcher.top10 (JobMatcher.countAll companies))
         (JobMatcher.countAll locations)
         (JobMatcher.scoreDistribution (JobMatcher.generateJobReport jobs))).
    cbn [JobMatcher.locationDistribution JobMatcher.topCompanies JobMatcher.topTechStack].
    destruct (countAll_facts locations) as (L1 & L2 & L3).
    destruct (countAll_facts companies) as (_ & C2 & C3).
    destruct (countAll_facts techs) as (_ & T2 & T3).
    destruct (@top10_facts _ C2) as (C4 & C5 & C6).
    destruct (@top10_facts _ T2) as (T4 & T5 & T6).
    unfold locations in L1 at 2. rewrite length_map in L1.
    split; [exact L2|]. split; [exact L3|].
    split; [intros k; apply countAll_count_of|]. split; [exact L1|].
    split; [exact C4|]. split; [exact C5|].
    split; [|split; [exact T4|split; [exact T5|]]].
    + intros company Hc. now apply C3, C6.
    + intros tech Ht. now apply T3, T6.
Qed.

Lemma generateJobReport_distributions_witness :
  let report :=
    JobMatcher.generateJobReport [scored "a" (9 # 10); scored "b" (1 # 2)] in
  count_of (JobMatcher.locationDistribution report) "Unknown" = 2%nat
  /\ JobMatcher.topCompanies report = [""].
Proof.
  destruct (@generateJobReport_distributions
              [scored "a" (9 # 10); scored "b" (1 # 2)] eq_refl)
    as (_ & _ & Hcount & _).
  split; [apply Hcount | reflexivity].
Defined.

(** The sum of scores in [0,1] lies between 0 and their number. *)
Lemma sum_scores_range l acc :
  Forall (fun job => in_range 0 1 (ScoredJob.score job)) l ->
  exists q,
    fold_left (fun sum job => add sum (ScoredJob.score job)) l (Fin acc) = Fin q
    /\ acc <= q <= acc + inject_Z (Z.of_nat (List.length l)).
Proof.
  intros H. revert acc. induction H as [|x l (qx & Hx & Hr) Hl IH]; intros acc.
  - exists acc. split; [reflexivity|].
    change (inject_Z (Z.of_nat (List.length (@nil ScoredJob.t)))) with 0. lra.
  - cbn [fold_left]. rewrite Hx. cbn [add].
    destruct (IH (acc + qx)) as (q & Hq & Hb). exists q. split; [exact Hq|].
    cbn [List.length]. rewrite Nat2Z.inj_succ, <- Z.add_1_r, inject_Z_plus.
    change (inject_Z 1) with 1. lra.
Qed.

(** X13.  The average score of the report of a batch whose scores lie in
    [0,1] is a finite number in [0,1] (0 for the empty batch): it is never
    NaN. *)
Theorem generateJobReport_average_range scoredJobs :
  Forall (fun job => in_range 0 1 (ScoredJob.score job)) scoredJobs ->
  in_range 0 1 (JobMatcher.averageScore (JobMatcher.generateJobReport scoredJobs)).
Proof.
  intros H. destruct scoredJobs as [|x l].
  - exists 0. split; [reflexivity | lra].
  - set (jobs := x :: l) in *.
    change (JobMatcher.averageScore (JobMatcher.generateJobReport jobs)) with
      (div (fold_left (fun sum job => add sum (ScoredJob.score job)) jobs (Fin 0))
           (of_nat (List.length jobs))).
    destruct (@sum_scores_range jobs 0 H) as (q & -> & Hq).
    assert (0 < List.length jobs)%nat as Hpos by (subst jobs; simpl; lia).
    clearbody jobs. unfold div, of_nat. rewrite Qis_zero_of_nat by exact Hpos.
    eexists. split; [reflexivity|].
    assert (0 < inject_Z (Z.of_nat (List.length jobs))) as Hd.
    { change 0 with (inject_Z 0). rewrite <- Zlt_Qlt. lia. }
    split.
    + apply Qle_shift_div_l; [exact Hd | lra].
    + apply Qle_shift_div_r; [exact Hd | lra].
Qed.

Lemma generateJobReport_average_range_witness :
  in_range 0 1
    (JobMatcher.averageScore
       (JobMatcher.generateJobReport [scored "a" (9 # 10); scored "b" (1 # 2)])).
Proof.
  apply generateJobReport_average_range.
  repeat constructor; eexists; (split; [reflexivity | lra]).
Defined.

(** ** The store *)

Lemma jobExists_In u db :
  JobRepositoryQueries.jobExists u db = true
  <-> In u (map row_url (JobRepository.job_listings db)).
Proof.
  unfold JobRepositoryQueries.jobExists. rewrite pos_length_filter, existsb_exists.
  rewrite in_map_iff. split.
  - intros (r & Hin & E). apply String.eqb_eq in E. exists r. auto.
  - intros (r & E & Hin). exists r. split; [exact Hin|]. now apply String.eqb_eq.
Qed.

Lemma same_url_spec job r :
  JobRepository.same_url job r = true
  <-> row_url r = JobDetails.job_url (JobRepository.details job).
Proof. unfold JobRepository.same_url, row_url. apply String.eqb_eq. Qed.

Lemma upserted_fields job r :
  JobRepository.row_id (upserted job r) = JobRepository.row_id r
  /\ row_url (upserted job r) = row_url r
  /\ JobRepository.is_top_pick (upserted job r) = JobRepository.is_top_pick r
  /\ JobRepository.session_id (JobRepository.listing (upserted job r))
     = JobRepository.session_id (JobRepository.listing r).
Proof.
  unfold upserted. destruct (JobRepository.same_url job r); repeat split; reflexivity.
Qed.

Lemma insertJobListing_cases job db :
  (exists r0,
     find (JobRepository.same_url job) (JobRepository.job_listings db) = Some r0
     /\ JobRepository.insertJobListing job db =
        (JobRepository.row_id r0,
         JobRepository.mk (JobRepository.scraping_sessions db)
           (map (upserted job) (JobRepository.job_listings db))
           (JobRepository.next_session_id db) (JobRepository.next_listing_id db)))
  \/ (find (JobRepository.same_url job) (JobRepository.job_listings db) = None
      /\ JobRepository.insertJobListing job db =
         (JobRepository.next_listing_id db,
          JobRepository.mk (JobRepository.scraping_sessions db)
            (JobRepository.job_listings db
             ++ [JobRepository.mkRow (JobRepository.next_listing_id db) job false])%list
            (JobRepository.next_session_id db)
            (S (JobRepository.next_listing_id db)))).
Proof.
  unfold JobRepository.insertJobListing.
  destruct (find _ _) as [r0|]; [left; exists r0 | right]; split; reflexivity.
Qed.

Lemma map_upserted_fields job rows :
  map JobRepository.row_id (map (upserted job) rows) = map JobRepository.row_id rows
  /\ map row_url (map (upserted job) rows) = map row_url rows.
Proof.
  rewrite !map_map. split; apply map_ext; intros r; apply upserted_fields.
Qed.

Lemma find_none_url job rows :
  find (JobRepository.same_url job) rows = None ->
  ~ In (JobDetails.job_url (JobRepository.details job)) (map row_url rows).
Proof.
  intros H Hin. apply in_map_iff in Hin as (r & E & Hin).
  apply (find_none _ _ H) in Hin. apply same_url_spec in E. congruence.
Qed.

Lemma same_url_same_row rows a b :
  NoDup (map row_url rows) -> In a rows -> In b rows -> row_url a = row_url b -> a = b.
Proof.
  induction rows as [|x rows IH]; cbn [map]; intros Hnd Ha Hb E; [destruct Ha|].
  apply NoDup_cons_iff in Hnd as [Hx Hnd].
  destruct Ha as [<- | Ha], Hb as [<- | Hb]; [reflexivity | | |now apply IH].
  - exfalso. apply Hx. rewrite E. now apply in_map.
  - exfalso. apply Hx. rewrite <- E. now apply in_map.
Qed.

(** X14.  [insertJobListing] is an upsert by URL, for a listing that the
    columns accept.  On a table whose URLs and ids are unique it keeps
    them unique; afterwards the URL exists and the returned id is the id
    of the row with that URL; rows of other URLs are as they were.  A row
    that had the URL keeps its id, its flag, its session and all fields
    but title, company and description, which are those of the listing
    (and its score, which the column rounds), and the number of rows is
    the same.  A new URL adds one row, not flagged, under an id that no
    row had, with the fields of the listing. *)
Theorem insertJobListing_upsert job db :
  listings_wf db ->
  storable job = true ->
  let u := JobDetails.job_url (JobRepository.details job) in
  let r := JobRepository.insertJobListing job db in
  listings_wf (snd r)
  /\ JobRepositoryQueries.jobExists u (snd r) = true
  /\ has_row (snd r) (fst r) u
  /\ (forall x, In x (JobRepository.job_listings db) -> row_url x <> u ->
                In x (JobRepository.job_listings (snd r)))
  /\ (forall old,
        In old (JobRepository.job_listings db) -> row_url old = u ->
        fst r = JobRepository.row_id old
        /\ List.length (JobRepository.job_listings (snd r))
           = List.length (JobRepository.job_listings db)
        /\ exists new,
             In new (JobRepository.job_listings (snd r))
             /\ JobRepository.row_id new = JobRepository.row_id old
             /\ JobRepository.is_top_pick new = JobRepository.is_top_pick old
             /\ JobRepository.session_id (JobRepository.listing new)
                = JobRepository.session_id (JobRepository.listing old)
             /\ let n := JobRepository.details (JobRepository.listing new) in
                let o := JobRepository.details (JobRepository.listing old) in
                let j := JobRepository.details job in
                JobDetails.title n = JobDetails.title j
                /\ JobDetails.company n = JobDetails.company j
                /\ JobDetails.description n = JobDetails.description j
                /\ JobDetails.job_url n = u
                /\ JobDetails.company_url n = JobDetails.company_url o
                /\ JobDetails.requirements n = JobDetails.requirements o
                /\ JobDetails.tech_stack n = JobDetails.tech_stack o
                /\ JobDetails.salary_range n = JobDetails.salary_range o
                /\ JobDetails.location n = JobDetails.location o)
  /\ (JobRepositoryQueries.jobExists u db = false ->
      (forall u', ~ has_row db (fst r) u')
      /\ List.length (JobRepository.job_listings (snd r))
         = S (List.length (JobRepository.job_listings db))
      /\ exists new,
           In new (JobRepository.job_listings (snd r))
           /\ JobRepository.row_id new = fst r
           /\ JobRepository.is_top_pick new = false
           /\ JobRepository.session_id (JobRepository.listing new)
              = JobRepository.session_id job
           /\ let n := JobRepository.details (JobRepository.listing new) in
              let j := JobRepository.details job in
              JobDetails.title n = JobDetails.title j
              /\ JobDetails.company n = JobDetails.company j
              /\ JobDetails.description n = JobDetails.description j
              /\ JobDetails.job_url n = u
              /\ JobDetails.company_url n = JobDetails.company_url j
              /\ JobDetails.requirements n = JobDetails.requirements j
              /\ JobDetails.tech_stack n = JobDetails.tech_stack j
              /\ JobDetails.salary_range n = JobDetails.salary_range j
              /\ JobDetails.location n = JobDetails.location j).
Proof.
  intros (Hurls & Hids & Hlt) _ u r. subst r.
  destruct (insertJobListing_cases job db) as [(r0 & Hfind & ->) | (Hfind & ->)];
    cbn [fst snd].
  - destruct (map_upserted_fields job (JobRepository.job_listings db)) as [Eid Eurl].
    apply find_some in Hfind as [Hin0 Hsame].
    pose proof Hsame as Hsame_b. apply same_url_spec in Hsame.
    split; [|split; [|split; [|split; [|split]]]].
    + unfold listings_wf. cbn [JobRepository.job_listings JobRepository.next_listing_id].
      rewrite Eid, Eurl. split; [exact Hurls|]. split; [exact Hids|].
      apply Forall_forall. intros x Hx. apply in_map_iff in Hx as (y & <- & Hy).
      destruct (upserted_fields job y) as (-> & _). revert y Hy.
      now apply Forall_forall.
    + apply jobExists_In. cbn [JobRepository.job_listings]. rewrite Eurl.
      apply in_map_iff. exists r0. auto.
    + exists (upserted job r0). cbn [JobRepository.job_listings].
      split; [now apply in_map|].
      destruct (upserted_fields job r0) as (-> & -> & _). auto.
    + intros x Hx Hne. cbn [JobRepository.job_listings].
      apply in_map_iff. exists x. split; [|exact Hx].
      unfold upserted. destruct (JobRepository.same_url job x) eqn:E; [|reflexivity].
      apply same_url_spec in E. contradiction.
    + intros old Hold Eold.
      assert (r0 = old) as ->.
      { apply (@same_url_same_row _ _ _ Hurls Hin0 Hold). now rewrite Hsame, Eold. }
      split; [reflexivity|]. cbn [JobRepository.job_listings].
      split; [apply length_map|].
      exists (upserted job old). split; [now apply in_map|].
      unfold upserted. rewrite Hsame_b.
      cbn [JobRepository.row_id JobRepository.is_top_pick JobRepository.listing
           JobRepository.mergeListing JobRepository.session_id JobRepository.details
           JobDetails.title JobDetails.company JobDetails.description
           JobDetails.job_url JobDetails.company_url JobDetails.requirements
           JobDetails.tech_stack JobDetails.salary_range JobDetails.location].
      repeat split. exact Hsame.
    + intros Hno. exfalso.
      assert (JobRepositoryQueries.jobExists u db = true) as Hyes.
      { apply jobExists_In, in_map_iff. exists r0. auto. }
      congruence.
  - pose proof (@find_none_url _ _ Hfind) as Hnew. fold u in Hnew.
    split; [|split; [|split; [|split; [|split]]]].
    + unfold listings_wf. cbn [JobRepository.job_listings JobRepository.next_listing_id].
      rewrite !map_app. cbn [map]. split; [|split].
      * apply NoDup_app; [exact Hurls | constructor; [intros [] | constructor] |].
        intros a Ha [<- | []]. now apply Hnew.
      * apply NoDup_app; [exact Hids | constructor; [intros [] | constructor] |].
        intros a Ha [<- | []]. apply in_map_iff in Ha as (y & Ey & Hy).
        rewrite Forall_forall in Hlt. specialize (Hlt y Hy).
        cbn [JobRepository.row_id] in Ey. lia.
      * apply Forall_app. split.
        -- eapply Forall_impl; [|exact Hlt]. intros y Hy. simpl in Hy. lia.
        -- constructor; [cbn; lia | constructor].
    + apply jobExists_In. cbn [JobRepository.job_listings]. rewrite map_app.
      apply in_or_app. right. left. reflexivity.
    + eexists. cbn [JobRepository.job_listings].
      split; [apply in_or_app; right; left; reflexivity|]. split; reflexivity.
    + intros x Hx _. cbn [JobRepository.job_listings]. apply in_or_app. now left.
    + intros old Hold Eold. exfalso. apply Hnew. rewrite <- Eold. now apply in_map.
    + intros _. split; [|split].
      * intros u' (y & Hy & Ey & _). rewrite Forall_forall in Hlt.
        specialize (Hlt y Hy). lia.
      * cbn [JobRepository.job_listings]. rewrite List.length_app. simpl. lia.
      * eexists. cbn [JobRepository.job_listings].
        split; [apply in_or_app; right; left; reflexivity|].
        cbn. repeat split.
Qed.

Lemma insertJobListing_upsert_witness :
  let r := JobRepository.insertJobListing (listing_a 2 (9 # 10)) db_one in
  fst r = 1%nat
  /\ List.length (JobRepository.job_listings (snd r)) = 1%nat
  /\ listings_wf (snd r).
Proof.
  assert (listings_wf db_one) as Hwf.
  { unfold listings_wf. simpl. repeat constructor; simpl; try tauto; lia. }
  destruct (@insertJobListing_upsert (listing_a 2 (9 # 10)) db_one Hwf eq_refl)
    as (Hwf' & _ & _ & _ & Hold & _).
  destruct (Hold (JobRepository.mkRow 1 (listing_a 1 (1 # 2)) true)
                 (or_introl eq_refl) eq_refl) as (Hid & Hlen & _).
  split; [exact Hid|]. split; [exact Hlen | exact Hwf'].
Defined.

Lemma insertJobListing_keeps job db :
  (forall i u, has_row db i u ->
               has_row (snd (JobRepository.insertJobListing job db)) i u)
  /\ (forall i, flagged db i ->
                flagged (snd (JobRepository.insertJobListing job db)) i)
  /\ JobRepository.scraping_sessions (snd (JobRepository.insertJobListing job db))
     = JobRepository.scraping_sessions db
  /\ JobRepository.next_session_id (snd (JobRepository.insertJobListing job db))
     = JobRepository.next_session_id db.
Proof.
  destruct (insertJobListing_cases job db) as [(r0 & _ & ->) | (_ & ->)];
    cbn [snd JobRepository.job_listings JobRepository.scraping_sessions
         JobRepository.next_session_id].
  - split; [|split; [|split; reflexivity]].
    + intros i u (r & Hin & Hid & Hu). exists (upserted job r).
      cbn [JobRepository.job_listings]. split; [now apply in_map|].
      destruct (upserted_fields job r) as (-> & -> & _). auto.
    + intros i (r & Hin & Hid & Hf). exists (upserted job r).
      cbn [JobRepository.job_listings]. split; [now apply in_map|].
      destruct (upserted_fields job r) as (-> & _ & -> & _). auto.
  - split; [|split; [|split; reflexivity]].
    + intros i u (r & Hin & H). exists r. cbn [JobRepository.job_listings].
      split; [apply in_or_app; now left | exact H].
    + intros i (r & Hin & H). exists r. cbn [JobRepository.job_listings].
      split; [apply in_or_app; now left | exact H].
Qed.

Lemma insertJobListing_has_row job db :
  has_row (snd (JobRepository.insertJobListing job db))
          (fst (JobRepository.insertJobListing job db))
          (JobDetails.job_url (JobRepository.details job)).
Proof.
  destruct (insertJobListing_cases job db) as [(r0 & Hfind & ->) | (_ & ->)];
    cbn [fst snd].
  - apply find_some in Hfind as [Hin Hsame]. apply same_url_spec in Hsame.
    exists (upserted job r0). cbn [JobRepository.job_listings].
    split; [now apply in_map|].
    destruct (upserted_fields job r0) as (-> & -> & _). auto.
  - eexists. cbn [JobRepository.job_listings].
    split; [apply in_or_app; right; left; reflexivity|]. split; reflexivity.
Qed.

Lemma insertAll_keeps listings db :
  (forall i, flagged db i -> flagged (JobScrapingAutomation.insertAll listings db) i)
  /\ JobRepository.scraping_sessions (JobScrapingAutomation.insertAll listings db)
     = JobRepository.scraping_sessions db
  /\ JobRepository.next_session_id (JobScrapingAutomation.insertAll listings db)
     = JobRepository.next_session_id db.
Proof.
  unfold JobScrapingAutomation.insertAll.
  revert db; induction listings as [|x l IH]; intros db; cbn [fold_left].
  - auto.
  - destruct (IH (snd (JobRepository.insertJobListing x db))) as (H1 & H2 & H3).
    destruct (insertJobListing_keeps x db) as (_ & K2 & K3 & K4).
    split; [|split; congruence]. intros i Hi. apply H1, K2, Hi.
Qed.

Lemma markTopPicks_keeps ids db :
  (forall i, flagged db i -> flagged (JobRepository.markTopPicks ids db) i)
  /\ (forall i u, has_row db i u -> In i ids ->
                  flagged_url (JobRepository.markTopPicks ids db) u)
  /\ JobRepository.scraping_sessions (JobRepository.markTopPicks ids db)
     = JobRepository.scraping_sessions db
  /\ JobRepository.next_session_id (JobRepository.markTopPicks ids db)
     = JobRepository.next_session_id db.
Proof.
  unfold JobRepository.markTopPicks.
  cbn [JobRepository.scraping_sessions JobRepository.next_session_id].
  split; [|split; [|split; reflexivity]].
  - intros i (r & Hin & Hid & Hf). eexists. cbn [JobRepository.job_listings].
    split; [apply in_map; exact Hin|].
    destruct (existsb _ ids); cbn [JobRepository.row_id JobRepository.is_top_pick]; auto.
  - intros i u (r & Hin & Hid & Hu) Hids. eexists. cbn [JobRepository.job_listings].
    split; [apply in_map; exact Hin|].
    assert (existsb (Nat.eqb (JobRepository.row_id r)) ids = true) as ->.
    { apply existsb_exists. exists i. split; [exact Hids|]. subst i. apply Nat.eqb_refl. }
    split; reflexivity || exact Hu.
Qed.

Lemma markLoop_facts topJobs sid db ids c :
  let out := fst (JobScrapingAutomation.markLoop topJobs sid db ids c) in
  (forall i, In i ids -> In i (snd out))
  /\ (forall i u, has_row db i u -> has_row (fst out) i u)
  /\ (forall i, flagged db i -> flagged (fst out) i)
  /\ (forall job, In job topJobs ->
        exists i, In i (snd out)
                  /\ has_row (fst out) i (JobDetails.job_url (ScoredJob.job job)))
  /\ JobRepository.scraping_sessions (fst out) = JobRepository.scraping_sessions db
  /\ JobRepository.next_session_id (fst out) = JobRepository.next_session_id db.
Proof.
  revert db ids c; induction topJobs as [|job rest IH]; intros db ids c.
  - cbn. repeat split; auto. intros ? [].
  - cbn [JobScrapingAutomation.markLoop]. unfold bind at 1.
    unfold JobMatcher.convertToJobListing, bind, ret, Date_now.
    set (listing := JobRepository.mkListing (ScoredJob.job job) (ScoredJob.score job)
                      sid (c 0%nat)).
    set (r := JobRepository.insertJobListing listing db).
    specialize (IH (snd r) (ids ++ [fst r])%list (fun k => c (S k))).
    cbv zeta in IH. destruct IH as (I1 & I2 & I3 & I4 & I5 & I6).
    destruct (insertJobListing_keeps listing db) as (K1 & K2 & K3 & K4). fold r in K1, K2, K3, K4.
    pose proof (insertJobListing_has_row listing db) as Hrow. fold r in Hrow.
    cbv zeta. split; [|split; [|split; [|split; [|split]]]].
    + intros i Hi. apply I1, in_or_app. now left.
    + intros i u H. apply I2, K1, H.
    + intros i H. apply I3, K2, H.
    + intros j [<- | Hj].
      * exists (fst r). split; [apply I1, in_or_app; right; now left|].
        apply I2. exact Hrow.
      * apply I4, Hj.
    + congruence.
    + congruence.
Qed.

(** X15.  After the loop that inserts the selected jobs and the call of
    [markTopPicks] on the ids it collected, every selected job has a row
    with its URL that is flagged as top pick, also when the row existed
    before or two selected jobs share a URL. *)
Theorem selected_jobs_are_flagged topJobs sid db c :
  let marked := run (JobScrapingAutomation.markLoop topJobs sid db []) c in
  let db' := JobRepository.markTopPicks (snd marked) (fst marked) in
  forall job,
    In job topJobs -> flagged_url db' (JobDetails.job_url (ScoredJob.job job)).
Proof.
  intros marked db' job Hjob. subst db' marked. unfold run.
  destruct (markLoop_facts topJobs sid db [] c) as (_ & _ & _ & H & _).
  destruct (H job Hjob) as (i & Hi & Hrow).
  destruct (markTopPicks_keeps
              (snd (fst (JobScrapingAutomation.markLoop topJobs sid db [] c)))
              (fst (fst (JobScrapingAutomation.markLoop topJobs sid db [] c))))
    as (_ & Hmark & _).
  exact (Hmark i _ Hrow Hi).
Qed.

Lemma selected_jobs_are_flagged_witness :
  flagged_url
    (JobRepository.markTopPicks
       (snd (run (JobScrapingAutomation.markLoop [scored "https://acme.example/1" (9 # 10)]
                    2 db_one []) clock0))
       (fst (run (JobScrapingAutomation.markLoop [scored "https://acme.example/1" (9 # 10)]
                    2 db_one []) clock0)))
    "https://acme.example/1".
Proof.
  apply (selected_jobs_are_flagged [scored "https://acme.example/1" (9 # 10)] 2 db_one
           clock0 (scored "https://acme.example/1" (9 # 10))).
  left. reflexivity.
Defined.

(** ** Sessions *)

Lemma lookup_update_same sid u db :
  JobRepository.lookupSession sid (JobRepository.updateSession sid u db)
  = option_map (JobRepository.applyUpdates u) (JobRepository.lookupSession sid db).
Proof.
  unfold JobRepository.lookupSession, JobRepository.updateSession.
  cbn [JobRepository.scraping_sessions].
  induction (JobRepository.scraping_sessions db) as [|s l IH]; cbn; [reflexivity|].
  destruct (JobRepository.id s =? sid)%nat eqn:E; cbn; rewrite E; [reflexivity | exact IH].
Qed.

Lemma lookup_update_other sid sid' u db :
  sid <> sid' ->
  JobRepository.lookupSession sid' (JobRepository.updateSession sid u db)
  = JobRepository.lookupSession sid' db.
Proof.
  intros Hne. unfold JobRepository.lookupSession, JobRepository.updateSession.
  cbn [JobRepository.scraping_sessions].
  induction (JobRepository.scraping_sessions db) as [|s l IH]; cbn; [reflexivity|].
  destruct (JobRepository.id s =? sid)%nat eqn:E.
  - apply Nat.eqb_eq in E. cbn.
    destruct (JobRepository.id s =? sid')%nat eqn:E'; [|exact IH].
    apply Nat.eqb_eq in E'. congruence.
  - destruct (JobRepository.id s =? sid')%nat; [reflexivity | exact IH].
Qed.

Lemma lookup_created date queries st db :
  sessions_wf db ->
  JobRepository.lookupSession (JobRepository.next_session_id db)
    (snd (JobRepository.createSession date queries st db))
  = Some (JobRepository.mkSession (JobRepository.next_session_id db)
            (date / 86400000)%Z queries st (Some 0%nat) (Some 0%nat) None None).
Proof.
  unfold sessions_wf, JobRepository.lookupSession, JobRepository.createSession.
  cbn [snd JobRepository.scraping_sessions].
  induction 1 as [|s l Hs Hl IH]; cbn.
  - now rewrite Nat.eqb_refl.
  - destruct (Nat.eqb_spec (JobRepository.id s) (JobRepository.next_session_id db));
      [lia | exact IH].
Qed.

(** X16.  On a table whose ids lie below the next serial value,
    [createSession] returns a new id under which the session is found as
    the INSERT leaves it: the queries and the status that were given, both
    counts 0 (the column defaults), no end time and no error message; it
    leaves every older session findable and unchanged.  [updateSession]
    changes what is found under its id by exactly the fields that are
    given, changes no other session, and does nothing for an id that is
    not there. *)
Theorem sessions_create_update_lookup date queries st u db :
  sessions_wf db ->
  let created := JobRepository.createSession date queries st db in
  (exists s,
     JobRepository.lookupSession (fst created) (snd created) = Some s
     /\ JobRepository.id s = fst created
     /\ JobRepository.search_queries s = queries
     /\ JobRepository.status s = st
     /\ JobRepository.total_jobs_found s = Some 0%nat
     /\ JobRepository.top_jobs_selected s = Some 0%nat
     /\ JobRepository.completed_at s = None
     /\ JobRepository.error_message s = None)
  /\ sessions_wf (snd created)
  /\ (forall sid s, JobRepository.lookupSession sid db = Some s ->
                    JobRepository.lookupSession sid (snd created) = Some s)
  /\ (forall sid,
        JobRepository.lookupSession sid (JobRepository.updateSession sid u db)
        = option_map (JobRepository.applyUpdates u) (JobRepository.lookupSession sid db))
  /\ (forall sid sid', sid <> sid' ->
        JobRepository.lookupSession sid' (JobRepository.updateSession sid u db)
        = JobRepository.lookupSession sid' db)
  /\ (forall sid, JobRepository.lookupSession sid db = None ->
        JobRepository.scraping_sessions (JobRepository.updateSession sid u db)
        = JobRepository.scraping_sessions db).
Proof.
  intros Hwf created. subst created.
  split.
  { eexists. split; [apply lookup_created, Hwf|]. cbn. repeat split. }
  split; [|split; [|split; [|split]]].
  - unfold sessions_wf, JobRepository.createSession in *.
    cbn [snd JobRepository.scraping_sessions JobRepository.next_session_id].
    apply Forall_app. split.
    + eapply Forall_impl; [|exact Hwf]. intros s Hs. simpl in Hs. lia.
    + constructor; [cbn; lia | constructor].
  - intros sid s. unfold JobRepository.lookupSession, JobRepository.createSession.
    cbn [snd JobRepository.scraping_sessions].
    induction (JobRepository.scraping_sessions db) as [|x l IH]; cbn; [discriminate|].
    destruct (JobRepository.id x =? sid)%nat; [auto | exact IH].
  - intros sid. apply lookup_update_same.
  - intros sid sid'. apply lookup_update_other.
  - intros sid. unfold JobRepository.lookupSession, JobRepository.updateSession.
    cbn [JobRepository.scraping_sessions].
    induction (JobRepository.scraping_sessions db) as [|x l IH]; cbn; [reflexivity|].
    destruct (JobRepository.id x =? sid)%nat; [discriminate|].
    intros H. now rewrite (IH H).
Qed.

Lemma sessions_create_update_lookup_witness :
  exists s,
    JobRepository.lookupSession 2 (snd (JobRepository.createSession 5 ["Engineer"]
                                          JobRepository.running db_one))
    = Some s
    /\ JobRepository.status s = JobRepository.running
    /\ JobRepository.total_jobs_found s = Some 0%nat.
Proof.
  assert (sessions_wf db_one) as Hwf.
  { unfold sessions_wf. simpl. repeat constructor. }
  destruct (proj1 (sessions_create_update_lookup 5 ["Engineer"] JobRepository.running
                     (JobRepository.mkUpdates None None None None None) Hwf))
    as (s & Hs & _ & _ & Hst & Hn & _).
  exists s. split; [exact Hs|]. split; [exact Hst | exact Hn].
Defined.

(** ** The whole cycle *)

Lemma mapM_length {A B} (f : A -> M B) l c :
  List.length (fst (JobMatcher.mapM f l c)) = List.length l.
Proof.
  revert c; induction l as [|x l IH]; intros c; [reflexivity|].
  rewrite mapM_cons. cbn [fst List.length]. now rewrite IH.
Qed.

(** Without [data] the scraping loop collects nothing: every page gives
    [null]. *)
Lemma scrapeAll_without_data env rd results pm acc c :
  ResumeData.data rd = None ->
  snd (fst (JobScrapingAutomation.scrapeAll env rd results pm acc c)) = acc.
Proof.
  intros Hd. revert pm c; induction results as [|sr rest IH]; intros pm c;
    [reflexivity|].
  cbn [JobScrapingAutomation.scrapeAll]. unfold bind at 1.
  unfold JobScrapingAutomation.scrapeOne.
  destruct (PlaywrightManager.createContext _ pm) as [pm1|];
    [|cbn [ret fst snd]; apply IH].
  destruct (JobScrapingAutomation.visit env (JobScrapingAutomation.url sr))
    as [| | |page]; try (cbn [ret fst snd]; apply IH).
  unfold bind. rewrite (@extractJobDetails_without_data rd page c Hd).
  cbn [ret fst snd]. apply IH.
Qed.

(** The batch that the scraping loop collects is always ranked: records
    are collected only on a resume with [data], and the empty batch is
    ranked on every resume. *)
Lemma scored_after_scrape env rd results pm c :
  let scraped := JobScrapingAutomation.scrapeAll env rd results pm [] c in
  exists scoredJobs c2,
    JobMatcher.scoreMultipleJobs rd (snd (fst scraped)) (snd scraped)
    = (Returned scoredJobs, c2)
    /\ List.length scoredJobs = List.length (snd (fst scraped)).
Proof.
  intros scraped. destruct (ResumeData.data rd) as [profile|] eqn:Hd.
  - destruct (@scoreMultipleJobs_returns rd _ (snd (fst scraped)) (snd scraped) Hd)
      as (l & c2 & _ & E & Hm & _).
    exists (sort JobMatcher.byScoreDesc l), c2. split; [exact E|].
    rewrite <- (Permutation_length (sort_perm JobMatcher.byScoreDesc l)).
    rewrite <- Hm. now rewrite length_map.
  - subst scraped. rewrite (@scrapeAll_without_data env rd results pm [] c Hd).
    exists [], (snd (JobScrapingAutomation.scrapeAll env rd results pm [] c)).
    split; reflexivity.
Qed.

Lemma scrapeAll_length env rd results pm acc c :
  (List.length (snd (fst (JobScrapingAutomation.scrapeAll env rd results pm acc c)))
   <= List.length acc + List.length results)%nat.
Proof.
  revert pm acc c; induction results as [|sr rest IH]; intros pm acc c.
  - cbn. lia.
  - cbn [JobScrapingAutomation.scrapeAll]. unfold bind at 1.
    destruct (JobScrapingAutomation.scrapeOne env rd sr pm c) as [[pm' r] c'].
    cbn [fst snd List.length].
    destruct r as [msg | [details|]].
    + specialize (IH pm' acc c'). lia.
    + specialize (IH pm' (acc ++ [details])%list c').
      rewrite List.length_app in IH. simpl in IH. lia.
    + specialize (IH pm' acc c'). lia.
Qed.

(** The pieces of a cycle whose search returns. *)
Lemma cycle_returned env rd w c results pm1 :
  JobScrapingAutomation.searchAllRoles env (JobScrapingAutomation.pm w)
    = (Returned results, pm1) ->
  let sid := JobRepository.next_session_id (JobScrapingAutomation.db w) in
  let db0 := snd (JobRepository.createSession (c 0%nat)
                    (Candidate.roles (ResumeData.candidate rd)) JobRepository.running
                    (JobScrapingAutomation.db w)) in
  exists pm2 (jobDetails : list JobDetails.t) (scoredJobs : list ScoredJob.t)
         (listings : list JobRepository.JobListing) dbm (ids : list nat) (finished : Z),
    let topJobs := JobMatcher.selectTopJobs (JobScrapingAutomation.MIN_SCORE_THRESHOLD env)
                     scoredJobs (JobScrapingAutomation.TOP_JOBS_COUNT env) in
    (List.length jobDetails <= List.length (firstn 50 results))%nat
    /\ List.length scoredJobs = List.length jobDetails
    /\ (exists c3, (dbm, ids) =
                   fst (JobScrapingAutomation.markLoop topJobs sid
                          (JobScrapingAutomation.insertAll listings db0) [] c3))
    /\ run (JobScrapingAutomation.executeFullScrapingCycle env rd w) c
       = (JobScrapingAutomation.mkWorld
            (JobRepository.updateSession sid
               (JobRepository.mkUpdates (Some (List.length scoredJobs))
                  (Some (List.length topJobs)) (Some JobRepository.completed)
                  (Some finished) None)
               (JobRepository.markTopPicks ids dbm))
            pm2,
          Returned
            (JobScrapingAutomation.mkCycleResult sid
               (JobMatcher.totalJobs (JobMatcher.generateJobReport scoredJobs))
               (List.length topJobs)
               (JobMatcher.averageScore (JobMatcher.generateJobReport scoredJobs)))).
Proof.
  intros Hsearch sid db0.
  unfold JobScrapingAutomation.executeFullScrapingCycle, run.
  unfold bind at 1. cbn [Date_now]. rewrite Hsearch.
  change (fst (JobRepository.createSession (c 0%nat)
                 (Candidate.roles (ResumeData.candidate rd)) JobRepository.running
                 (JobScrapingAutomation.db w))) with sid.
  fold db0.
  unfold bind at 1.
  pose proof (scrapeAll_length env rd (firstn 50 results) pm1 [] (fun k => c (S k))) as Hlen.
  pose proof (scored_after_scrape env rd (firstn 50 results) pm1 (fun k => c (S k))) as Hsc.
  cbv zeta in Hsc.
  destruct (JobScrapingAutomation.scrapeAll env rd (firstn 50 results) pm1 []
              (fun k => c (S k))) as [[pm2 jobDetails] c1].
  destruct Hsc as (scoredJobs & c2 & Escored & Hscored).
  cbn [fst snd List.length] in *.
  unfold bind at 1. rewrite Escored.
  unfold bind at 1.
  destruct (JobMatcher.convertMultipleToJobListings scoredJobs sid c2) as [listings c3].
  unfold bind at 1.
  match goal with
  | |- context [JobScrapingAutomation.markLoop ?a ?b ?d ?e ?f] =>
      destruct (JobScrapingAutomation.markLoop a b d e f) as [[dbm ids] c4] eqn:Hmark
  end.
  unfold bind, ret, Date_now. cbn [fst snd].
  exists pm2, jobDetails, scoredJobs, listings, dbm, ids, (c4 0%nat).
  cbv zeta. split; [lia|]. split; [exact Hscored|]. split; [|reflexivity].
  exists c3. now rewrite Hmark.
Qed.

Lemma cycle_threw env rd w c message pm1 :
  JobScrapingAutomation.searchAllRoles env (JobScrapingAutomation.pm w)
    = (Threw message, pm1) ->
  run (JobScrapingAutomation.executeFullScrapingCycle env rd w) c
  = (JobScrapingAutomation.mkWorld
       (JobRepository.updateSession
          (JobRepository.next_session_id (JobScrapingAutomation.db w))
          (JobRepository.mkUpdates None None (Some JobRepository.failed)
             (Some (c 1%nat)) (Some message))
          (snd (JobRepository.createSession (c 0%nat)
                  (Candidate.roles (ResumeData.candidate rd)) JobRepository.running
                  (JobScrapingAutomation.db w))))
       pm1,
     Threw message).
Proof.
  intros Hsearch.
  unfold JobScrapingAutomation.executeFullScrapingCycle, run, bind.
  cbn [Date_now]. rewrite Hsearch. reflexivity.
Qed.

Lemma lookup_ext sid a b :
  JobRepository.scraping_sessions a = JobRepository.scraping_sessions b ->
  JobRepository.lookupSession sid a = JobRepository.lookupSession sid b.
Proof. unfold JobRepository.lookupSession. now intros ->. Qed.

Lemma generateJobReport_total l :
  JobMatcher.totalJobs (JobMatcher.generateJobReport l) = List.length l.
Proof.
  destruct l as [|x l]; [reflexivity|].
  destruct (generateJobReport_nonempty x l) as (a & t & cm & lo & ->). reflexivity.
Qed.

Lemma lookup_next_session db :
  sessions_wf db ->
  JobRepository.lookupSession (JobRepository.next_session_id db) db = None.
Proof.
  unfold sessions_wf, JobRepository.lookupSession.
  induction 1 as [|s l Hs Hl IH]; cbn; [reflexivity|].
  destruct (Nat.eqb_spec (JobRepository.id s) (JobRepository.next_session_id db));
    [lia | exact IH].
Qed.

(** X17.  A cycle never leaves its session running (the statements on the
    sessions table themselves are taken to succeed).  On a well-formed
    sessions table the cycle adds a session; when the cycle returns, that
    session is the one whose id it returns, completed with the two counts
    that it returns and without error message; when the cycle throws, that
    session is failed with the message thrown. *)
Theorem executeFullScrapingCycle_closes_session env rd w c :
  sessions_wf (JobScrapingAutomation.db w) ->
  let out := run (JobScrapingAutomation.executeFullScrapingCycle env rd w) c in
  exists sid s,
    JobRepository.lookupSession sid (JobScrapingAutomation.db w) = None
    /\ JobRepository.lookupSession sid (JobScrapingAutomation.db (fst out)) = Some s
    /\ JobRepository.status s <> JobRepository.running
    /\ match snd out with
       | Returned r =>
           JobScrapingAutomation.sessionId r = sid
           /\ JobRepository.status s = JobRepository.completed
           /\ JobRepository.total_jobs_found s
              = Some (JobScrapingAutomation.totalJobsFound r)
           /\ JobRepository.top_jobs_selected s
              = Some (JobScrapingAutomation.topJobsSelected r)
           /\ JobRepository.error_message s = None
       | Threw message =>
           JobRepository.status s = JobRepository.failed
           /\ JobRepository.error_message s = Some message
       end.
Proof.
  intros Hwf out. subst out.
  set (sid := JobRepository.next_session_id (JobScrapingAutomation.db w)).
  exists sid.
  destruct (JobScrapingAutomation.searchAllRoles env (JobScrapingAutomation.pm w))
    as [[message | results] pm1] eqn:Hsearch.
  - rewrite (@cycle_threw env rd w c _ _ Hsearch). cbn [fst snd JobScrapingAutomation.db].
    fold sid. rewrite lookup_update_same.
    unfold sid. rewrite (@lookup_created _ _ _ _ Hwf). cbn.
    eexists. split; [now apply lookup_next_session|]. split; [reflexivity|].
    repeat split; discriminate.
  - destruct (@cycle_returned env rd w c results pm1 Hsearch)
      as (pm2 & jobDetails & scoredJobs & listings & dbm & ids & finished
          & _ & _ & (c3 & Hmark) & ->).
    cbn [fst snd JobScrapingAutomation.db]. fold sid.
    rewrite lookup_update_same.
    assert (JobRepository.scraping_sessions (JobRepository.markTopPicks ids dbm)
            = JobRepository.scraping_sessions
                (snd (JobRepository.createSession (c 0%nat)
                        (Candidate.roles (ResumeData.candidate rd))
                        JobRepository.running (JobScrapingAutomation.db w)))) as Hs.
    { destruct (markTopPicks_keeps ids dbm) as (_ & _ & -> & _).
      match type of Hmark with
      | _ = fst (JobScrapingAutomation.markLoop ?t ?s ?d ?i ?k) =>
          destruct (markLoop_facts t s d i k) as (_ & _ & _ & _ & Hm & _);
          rewrite <- Hmark in Hm; cbn [fst] in Hm; rewrite Hm
      end.
      apply insertAll_keeps. }
    rewrite (@lookup_ext sid _ _ Hs). unfold sid. rewrite (@lookup_created _ _ _ _ Hwf). cbn.
    eexists. split; [now apply lookup_next_session|]. split; [reflexivity|].
    split; [discriminate|].
    rewrite generateJobReport_total.
    repeat split; reflexivity.
Qed.

Lemma executeFullScrapingCycle_closes_session_witness :
  exists sid s,
    JobRepository.lookupSession sid
      (JobScrapingAutomation.db
         (fst (run (JobScrapingAutomation.executeFullScrapingCycle env_offline resume1
                      world0) clock0)))
    = Some s
    /\ JobRepository.status s <> JobRepository.running.
Proof.
  assert (sessions_wf (JobScrapingAutomation.db world0)) as Hwf by constructor.
  destruct (executeFullScrapingCycle_closes_session env_offline resume1 world0 clock0 Hwf)
    as (sid & s & _ & Hs & Hst & _).
  exists sid, s. split; [exact Hs | exact Hst].
Defined.

(** X18.  A cycle that returns reports at most 50 jobs, at most as many as
    the search found, and never more selected jobs than jobs found,
    whatever the settings of count and threshold. *)
Theorem executeFullScrapingCycle_counts_bounded env rd w c :
  match snd (run (JobScrapingAutomation.executeFullScrapingCycle env rd w) c) with
  | Returned r =>
      (JobScrapingAutomation.totalJobsFound r <= 50)%nat
      /\ (JobScrapingAutomation.topJobsSelected r
          <= JobScrapingAutomation.totalJobsFound r)%nat
      /\ exists results,
           fst (JobScrapingAutomation.searchAllRoles env (JobScrapingAutomation.pm w))
           = Returned results
           /\ (JobScrapingAutomation.totalJobsFound r <= List.length results)%nat
  | Threw _ => True
  end.
Proof.
  destruct (JobScrapingAutomation.searchAllRoles env (JobScrapingAutomation.pm w))
    as [[message | results] pm1] eqn:Hsearch.
  - now rewrite (@cycle_threw env rd w c _ _ Hsearch).
  - destruct (@cycle_returned env rd w c results pm1 Hsearch)
      as (pm2 & jobDetails & scoredJobs & listings & dbm & ids & finished
          & Hlen & Hscored & _ & ->).
    cbn [snd JobScrapingAutomation.totalJobsFound JobScrapingAutomation.topJobsSelected].
    rewrite generateJobReport_total.
    pose proof (length_firstn 50 results).
    split; [lia|]. split.
    + apply subsequence_length, selectTopJobs_subsequence.
    + exists results. split; [reflexivity | lia].
Qed.

Lemma flagged_ext a b i :
  JobRepository.job_listings a = JobRepository.job_listings b ->
  flagged a i -> flagged b i.
Proof. unfold flagged. now intros ->. Qed.

(** X19.  No cycle clears a top-pick flag: a row that is flagged before a
    cycle is flagged after it, whether the cycle returns or throws, so the
    picks of earlier sessions stay flagged beside the new ones. *)
Theorem executeFullScrapingCycle_keeps_flags env rd w c i :
  flagged (JobScrapingAutomation.db w) i ->
  flagged (JobScrapingAutomation.db
             (fst (run (JobScrapingAutomation.executeFullScrapingCycle env rd w) c))) i.
Proof.
  intros Hf.
  assert (flagged (snd (JobRepository.createSession (c 0%nat)
                          (Candidate.roles (ResumeData.candidate rd))
                          JobRepository.running (JobScrapingAutomation.db w))) i) as Hf0
    by (eapply flagged_ext; [|exact Hf]; reflexivity).
  destruct (JobScrapingAutomation.searchAllRoles env (JobScrapingAutomation.pm w))
    as [[message | results] pm1] eqn:Hsearch.
  - rewrite (@cycle_threw env rd w c _ _ Hsearch). cbn [fst JobScrapingAutomation.db].
    eapply flagged_ext; [|exact Hf0]. reflexivity.
  - destruct (@cycle_returned env rd w c results pm1 Hsearch)
      as (pm2 & jobDetails & scoredJobs & listings & dbm & ids & finished
          & _ & _ & (c3 & Hmark) & ->).
    cbn [fst JobScrapingAutomation.db].
    eapply flagged_ext with (a := JobRepository.markTopPicks ids dbm); [reflexivity|].
    apply markTopPicks_keeps.
    match type of Hmark with
    | _ = fst (JobScrapingAutomation.markLoop ?t ?s ?d ?j ?k) =>
        destruct (markLoop_facts t s d j k) as (_ & _ & Hm & _);
        rewrite <- Hmark in Hm; cbn [fst] in Hm; apply Hm
    end.
    apply insertAll_keeps. exact Hf0.
Qed.

Lemma executeFullScrapingCycle_keeps_flags_witness :
  flagged (JobScrapingAutomation.db
             (fst (run (JobScrapingAutomation.executeFullScrapingCycle env_offline resume1
                          (JobScrapingAutomation.mkWorld db_one
                             (PlaywrightManager.mk true 0 (Fin 3))))
                       clock0))) 1.
Proof.
  apply executeFullScrapingCycle_keeps_flags.
  eexists. split; [left; reflexivity|]. split; reflexivity.
Defined.

(** ** The browser pool *)

Lemma scrapeOne_pool env rd sr pm c :
  let pm' := fst (fst (JobScrapingAutomation.scrapeOne env rd sr pm c)) in
  PlaywrightManager.browser pm' = PlaywrightManager.browser pm
  /\ PlaywrightManager.maxConcurrency pm' = PlaywrightManager.maxConcurrency pm
  /\ (PlaywrightManager.contexts pm' = PlaywrightManager.contexts pm
      \/ (PlaywrightManager.contexts pm' = S (PlaywrightManager.contexts pm)
          /\ geb (of_nat (PlaywrightManager.contexts pm))
                 (PlaywrightManager.maxConcurrency pm) = false)).
Proof.
  unfold JobScrapingAutomation.scrapeOne, PlaywrightManager.createContext.
  destruct pm as [b n m]. cbn [PlaywrightManager.browser PlaywrightManager.contexts
                                PlaywrightManager.maxConcurrency].
  destruct b; cbn [negb]; [|cbn; auto].
  destruct (geb (of_nat n) m) eqn:E; [cbn; auto|].
  destruct (JobScrapingAutomation.visit env (JobScrapingAutomation.url sr))
    as [| | |page]; cbn [negb ret fst]; auto.
  unfold bind. destruct (JobParser.extractJobDetails rd page c) as [details c'].
  cbn. auto.
Qed.

Lemma geb_of_nat_false n k : geb (of_nat n) (of_nat k) = false -> (n < k)%nat.
Proof.
  unfold geb, of_nat, leb. intros H. apply Qle_bool_false in H.
  rewrite <- Zlt_Qlt in H. lia.
Qed.

Lemma scrapeAll_cons env rd sr rest pm acc c :
  JobScrapingAutomation.scrapeAll env rd (sr :: rest) pm acc c =
  match snd (fst (JobScrapingAutomation.scrapeOne env rd sr pm c)) with
  | Returned (Some details) =>
      JobScrapingAutomation.scrapeAll env rd rest
        (fst (fst (JobScrapingAutomation.scrapeOne env rd sr pm c)))
        (acc ++ [details])%list
        (snd (JobScrapingAutomation.scrapeOne env rd sr pm c))
  | _ =>
      JobScrapingAutomation.scrapeAll env rd rest
        (fst (fst (JobScrapingAutomation.scrapeOne env rd sr pm c))) acc
        (snd (JobScrapingAutomation.scrapeOne env rd sr pm c))
  end.
Proof.
  cbn [JobScrapingAutomation.scrapeAll]. unfold bind.
  destruct (JobScrapingAutomation.scrapeOne env rd sr pm c) as [[pm' r] c'].
  cbn [fst snd]. destruct r as [msg | [d|]]; reflexivity.
Qed.

(** X20.  The scraping loop only adds to the pool: the number of open
    contexts never goes down, because a context whose page or navigation
    failed is not closed; it never goes above an integer cap that held at
    the start; and once the pool is at its cap, or when the browser was
    not launched, no further URL yields a record. *)
Theorem scrapeAll_pool env rd results pm acc c :
  let out := fst (JobScrapingAutomation.scrapeAll env rd results pm acc c) in
  (PlaywrightManager.contexts pm <= PlaywrightManager.contexts (fst out))%nat
  /\ (forall k, PlaywrightManager.maxConcurrency pm = of_nat k ->
                (PlaywrightManager.contexts pm <= k)%nat ->
                (PlaywrightManager.contexts (fst out) <= k)%nat)
  /\ (PlaywrightManager.browser pm = false
      \/ geb (of_nat (PlaywrightManager.contexts pm))
             (PlaywrightManager.maxConcurrency pm) = true ->
      out = (pm, acc)).
Proof.
  revert pm acc c; induction results as [|sr rest IH]; intros pm acc c.
  - cbn. repeat split; auto; lia.
  - rewrite scrapeAll_cons.
    pose proof (scrapeOne_pool env rd sr pm c) as Hone. cbv zeta in Hone.
    destruct (JobScrapingAutomation.scrapeOne env rd sr pm c) as [[pm' r] c'] eqn:Eone.
    cbn [fst snd] in *. destruct Hone as (Hb & Hm & Hc).
    assert (forall acc',
              let out := fst (JobScrapingAutomation.scrapeAll env rd rest pm' acc' c') in
              (PlaywrightManager.contexts pm <= PlaywrightManager.contexts (fst out))%nat
              /\ (forall k, PlaywrightManager.maxConcurrency pm = of_nat k ->
                            (PlaywrightManager.contexts pm <= k)%nat ->
                            (PlaywrightManager.contexts (fst out) <= k)%nat)) as Hrest.
    { intros acc'. destruct (IH pm' acc' c') as (I1 & I2 & _). cbv zeta. split.
      - destruct Hc as [Hc | [Hc _]]; lia.
      - intros k Hk Hle. apply I2; [congruence|].
        destruct Hc as [Hc | [Hc Hg]]; [lia|].
        rewrite Hk in Hg. apply geb_of_nat_false in Hg. lia. }
    assert (PlaywrightManager.browser pm = false
            \/ geb (of_nat (PlaywrightManager.contexts pm))
                   (PlaywrightManager.maxConcurrency pm) = true ->
            pm' = pm /\ exists msg, r = Threw msg) as Hfull.
    { intros Hor. revert Eone.
      unfold JobScrapingAutomation.scrapeOne, PlaywrightManager.createContext.
      destruct Hor as [-> | Hg].
      - cbn. intros [= <- <- _]. eauto.
      - rewrite Hg. destruct (PlaywrightManager.browser pm); cbn;
          intros [= <- <- _]; eauto. }
    destruct r as [msg | [details|]].
    + destruct (Hrest acc) as [R1 R2]. split; [exact R1|]. split; [exact R2|].
      intros Hor. destruct (Hfull Hor) as [-> _].
      now apply (IH pm acc c').
    + destruct (Hrest (acc ++ [details])%list) as [R1 R2].
      split; [exact R1|]. split; [exact R2|].
      intros Hor. destruct (Hfull Hor) as [_ [msg Hmsg]]. discriminate.
    + destruct (Hrest acc) as [R1 R2]. split; [exact R1|]. split; [exact R2|].
      intros Hor. destruct (Hfull Hor) as [_ [msg Hmsg]]. discriminate.
Qed.

Lemma scrapeAll_pool_witness :
  fst (JobScrapingAutomation.scrapeAll env_offline resume1 feed2
         (PlaywrightManager.mk true 3 (Fin 3)) [] clock0)
  = (PlaywrightManager.mk true 3 (Fin 3), []).
Proof.
  apply (scrapeAll_pool env_offline resume1 feed2 (PlaywrightManager.mk true 3 (Fin 3))
           [] clock0).
  right. reflexivity.
Defined.

(** ** The scheduler *)

Lemma leb_Fin_mono x d d' : d <= d' -> leb x (Fin d) = true -> leb x (Fin d') = true.
Proof.
  destruct x as [q| | |]; simpl; auto.
  intros H Hq. apply Qle_bool_iff in Hq. apply Qle_bool_iff. lra.
Qed.

Lemma shouldRun_valid s ms c :
  run (JobScrapingScheduler.shouldRunScraping s
         (Returned (Some (ValidDate ms)))) c
  = geb (Fin (inject_Z ((c 0%nat - ms) / 86400000)))
        (JobScrapingScheduler.intervalDays (JobScrapingScheduler.config s)).
Proof.
  unfold JobScrapingScheduler.shouldRunScraping, run, bind, ret, Date_now.
  cbn [fst getTime].
  change (Fin (1000 * 60 * 60 * 24)) with JobParser.msPerDay.
  now rewrite days_between.
Qed.

(** X21.  [shouldRunScraping] says yes when there is no completed session
    or the date cannot be read.  With a last date it says yes exactly when
    the whole days since then reach the interval, so once a run is due it
    stays due as time passes; with an interval that is NaN (an unparsable
    setting) or a last date that is invalid it says no at every time. *)
Theorem shouldRunScraping_rule s ms message c c' (k : Z) :
  run (JobScrapingScheduler.shouldRunScraping s (Returned None)) c
    = true
  /\ run (JobScrapingScheduler.shouldRunScraping s (Threw message)) c
     = true
  /\ (JobScrapingScheduler.intervalDays (JobScrapingScheduler.config s) = of_Z k ->
      run (JobScrapingScheduler.shouldRunScraping s
             (Returned (Some (ValidDate ms)))) c
      = (k <=? (c 0%nat - ms) / 86400000)%Z)
  /\ ((c 0%nat <= c' 0%nat)%Z ->
      run (JobScrapingScheduler.shouldRunScraping s
             (Returned (Some (ValidDate ms)))) c = true ->
      run (JobScrapingScheduler.shouldRunScraping s
             (Returned (Some (ValidDate ms)))) c' = true)
  /\ (JobScrapingScheduler.intervalDays (JobScrapingScheduler.config s) = NaN ->
      run (JobScrapingScheduler.shouldRunScraping s
             (Returned (Some (ValidDate ms)))) c = false)
  /\ run (JobScrapingScheduler.shouldRunScraping s
            (Returned (Some InvalidDate))) c = false.
Proof.
  split; [reflexivity|]. split; [reflexivity|]. split; [|split; [|split]].
  - intros Hk. rewrite shouldRun_valid, Hk. unfold geb, of_Z. apply leb_inject.
  - intros Hle. rewrite !shouldRun_valid. unfold geb. apply leb_Fin_mono.
    rewrite <- Zle_Qle. apply Z.div_le_mono; lia.
  - intros Hn. rewrite shouldRun_valid, Hn. reflexivity.
  - unfold JobScrapingScheduler.shouldRunScraping, run, bind, ret, Date_now.
    cbn [fst getTime sub neg add div Math_floor]. unfold geb.
    now destruct (JobScrapingScheduler.intervalDays (JobScrapingScheduler.config s)).
Qed.

Lemma shouldRunScraping_rule_witness :
  run (JobScrapingScheduler.shouldRunScraping scheduler0
         (Returned (Some (ValidDate 0)))) clock40 = true
  /\ run (JobScrapingScheduler.shouldRunScraping scheduler0
            (Returned (Some (ValidDate 0)))) clock0 = false.
Proof.
  destruct (shouldRunScraping_rule scheduler0 0 "" clock0 clock40 3)
    as (_ & _ & H0 & _).
  destruct (shouldRunScraping_rule scheduler0 0 "" clock40 clock0 3)
    as (_ & _ & H40 & _).
  split; [rewrite (H40 eq_refl) | rewrite (H0 eq_refl)]; reflexivity.
Defined.

Lemma task_stop_single tk next :
  JobScrapingScheduler.task_stop tk (JobScrapingScheduler.mkCron [tk] next)
  = JobScrapingScheduler.mkCron [] next.
Proof.
  unfold JobScrapingScheduler.task_stop. cbn. now rewrite Nat.eqb_refl.
Qed.

(** X22.  As long as [start] is only called on a scheduler that has no
    task, the scheduler's task is the only cron task running: [stop] and
    [updateConfig] keep it so, [stop] leaves none running, and after
    [updateConfig] the scheduler runs exactly when it ran before and the
    new configuration is enabled.  [start] on a scheduler that already has
    a task does not stop that task: after a following [stop] the first
    task is still running and nothing refers to it. *)
Theorem scheduler_owns_its_task s cron newConfig :
  owns_its_task s cron ->
  let stopped := JobScrapingScheduler.stop s cron in
  let updated := JobScrapingScheduler.updateConfig newConfig s cron in
  let started := JobScrapingScheduler.start s cron in
  owns_its_task (fst stopped) (snd stopped)
  /\ JobScrapingScheduler.running_tasks (snd stopped) = []
  /\ owns_its_task (fst updated) (snd updated)
  /\ JobScrapingScheduler.isRunning (fst updated)
     = JobScrapingScheduler.isRunning s
       && JobScrapingScheduler.enabled
            (JobScrapingScheduler.merge (JobScrapingScheduler.config s) newConfig)
  /\ (JobScrapingScheduler.task s = None ->
      owns_its_task (fst started) (snd started)
      /\ JobScrapingScheduler.isRunning (fst started)
         = JobScrapingScheduler.enabled (JobScrapingScheduler.config s))
  /\ (forall tk,
        JobScrapingScheduler.task s = Some tk ->
        JobScrapingScheduler.enabled (JobScrapingScheduler.config s) = true ->
        let again := JobScrapingScheduler.stop (fst started) (snd started) in
        JobScrapingScheduler.task (fst again) = None
        /\ JobScrapingScheduler.running_tasks (snd again) = [tk]).
Proof.
  destruct s as [cfg tk]. destruct cron as [running next].
  unfold owns_its_task. cbn [JobScrapingScheduler.task JobScrapingScheduler.running_tasks
                             JobScrapingScheduler.next_task JobScrapingScheduler.config].
  intros [Hrun Hlt]. subst running.
  destruct tk as [tk|].
  - specialize (Hlt tk eq_refl).
    unfold JobScrapingScheduler.updateConfig, JobScrapingScheduler.stop,
      JobScrapingScheduler.start, JobScrapingScheduler.schedule,
      JobScrapingScheduler.isRunning.
    cbn [JobScrapingScheduler.task JobScrapingScheduler.config fst snd andb].
    rewrite task_stop_single.
    cbn [JobScrapingScheduler.task JobScrapingScheduler.config fst snd
         JobScrapingScheduler.running_tasks JobScrapingScheduler.next_task].
    split; [split; [reflexivity | discriminate]|]. split; [reflexivity|].
    destruct (JobScrapingScheduler.enabled (JobScrapingScheduler.merge cfg newConfig));
      cbn [negb fst snd JobScrapingScheduler.task JobScrapingScheduler.running_tasks
           JobScrapingScheduler.next_task app].
    + split; [split; [reflexivity | intros ? [= <-]; lia]|]. split; [reflexivity|].
      split; [discriminate|].
      intros tk' [= <-] ->. cbn [negb fst snd JobScrapingScheduler.task].
      unfold JobScrapingScheduler.task_stop.
      cbn [JobScrapingScheduler.running_tasks app filter].
      rewrite Nat.eqb_refl.
      destruct (Nat.eqb_spec tk next); [lia|]. split; reflexivity.
    + split; [split; [reflexivity | discriminate]|]. split; [reflexivity|].
      split; [discriminate|].
      intros tk' [= <-] ->. cbn [negb fst snd JobScrapingScheduler.task].
      unfold JobScrapingScheduler.task_stop.
      cbn [JobScrapingScheduler.running_tasks app filter].
      rewrite Nat.eqb_refl.
      destruct (Nat.eqb_spec tk next); [lia|]. split; reflexivity.
  - unfold JobScrapingScheduler.updateConfig, JobScrapingScheduler.stop,
      JobScrapingScheduler.start, JobScrapingScheduler.schedule,
      JobScrapingScheduler.isRunning.
    cbn [JobScrapingScheduler.task JobScrapingScheduler.config fst snd andb
         JobScrapingScheduler.running_tasks JobScrapingScheduler.next_task].
    split; [split; [reflexivity | discriminate]|]. split; [reflexivity|].
    split; [split; [reflexivity | discriminate]|]. split; [reflexivity|].
    split; [|discriminate].
    intros _. destruct (JobScrapingScheduler.enabled cfg);
      cbn [negb fst snd JobScrapingScheduler.task JobScrapingScheduler.running_tasks
           JobScrapingScheduler.next_task app].
    + split; [split; [reflexivity | intros ? [= <-]; lia] | reflexivity].
    + split; [split; [reflexivity | discriminate] | reflexivity].
Qed.

Lemma scheduler_owns_its_task_witness :
  let started := JobScrapingScheduler.start scheduler0 cron0 in
  let twice := JobScrapingScheduler.start (fst started) (snd started) in
  let stopped := JobScrapingScheduler.stop (fst twice) (snd twice) in
  JobScrapingScheduler.task (fst stopped) = None
  /\ JobScrapingScheduler.running_tasks (snd stopped) = [0%nat].
Proof.
  cbv zeta.
  assert (owns_its_task (fst (JobScrapingScheduler.start scheduler0 cron0))
                        (snd (JobScrapingScheduler.start scheduler0 cron0))) as Hown.
  { split; [reflexivity|]. intros tk [= <-]. cbn. lia. }
  destruct (scheduler_owns_its_task
              (JobScrapingScheduler.mkPartial None None None) Hown)
    as (_ & _ & _ & _ & _ & Hleak).
  exact (Hleak 0%nat eq_refl eq_refl).
Defined.

(** ** The search feed *)

Lemma findIndex_app {A} (p : A -> bool) pre l :
  GoogleJobSearcher.findIndex p (pre ++ l) =
  match GoogleJobSearcher.findIndex p pre with
  | Some k => Some k
  | None => option_map (Nat.add (List.length pre)) (GoogleJobSearcher.findIndex p l)
  end.
Proof.
  induction pre as [|x pre IH]; simpl.
  - now destruct (GoogleJobSearcher.findIndex p l).
  - destruct (p x); [reflexivity|]. rewrite IH.
    destruct (GoogleJobSearcher.findIndex p pre); [reflexivity|].
    now destruct (GoogleJobSearcher.findIndex p l).
Qed.

Lemma findIndex_bound {A} (p : A -> bool) l k :
  GoogleJobSearcher.findIndex p l = Some k -> (k < List.length l)%nat.
Proof.
  revert k; induction l as [|x l IH]; simpl; [discriminate|].
  destruct (p x); [intros k [= <-]; lia|].
  destruct (GoogleJobSearcher.findIndex p l) as [j|]; [|discriminate].
  intros k [= <-]. specialize (IH j eq_refl). lia.
Qed.

Lemma findIndex_existsb {A} (p : A -> bool) l :
  existsb p l = match GoogleJobSearcher.findIndex p l with Some _ => true | None => false end.
Proof.
  induction l as [|x l IH]; simpl; [reflexivity|].
  destruct (p x); [reflexivity|]. rewrite IH.
  now destruct (GoogleJobSearcher.findIndex p l).
Qed.

Lemma uniqueResults_from self pre suf :
  self = (pre ++ suf)%list ->
  GoogleJobSearcher.filter_indexed
    (fun result index =>
       GoogleJobSearcher.same_index
         (GoogleJobSearcher.findIndex
            (fun r => String.eqb (JobScrapingAutomation.url r)
                                 (JobScrapingAutomation.url result)) self)
         index)
    (List.length pre) suf
  = firstByUrl (map JobScrapingAutomation.url pre) suf.
Proof.
  revert pre; induction suf as [|x r IH]; intros pre Hself; [reflexivity|].
  cbn [GoogleJobSearcher.filter_indexed firstByUrl].
  assert (self = ((pre ++ [x]) ++ r)%list) as Hself'
    by (rewrite <- app_assoc; exact Hself).
  specialize (IH (pre ++ [x])%list Hself').
  rewrite List.length_app, map_app in IH. cbn [List.length map] in IH.
  rewrite Nat.add_1_r in IH. rewrite IH.
  rewrite Hself at 1. rewrite findIndex_app.
  assert (existsb (String.eqb (JobScrapingAutomation.url x))
                  (map JobScrapingAutomation.url pre)
          = existsb (fun r0 => String.eqb (JobScrapingAutomation.url r0)
                                          (JobScrapingAutomation.url x)) pre) as ->.
  { clear. induction pre as [|a pre IHp]; [reflexivity|]. cbn [map existsb].
    rewrite IHp, (String.eqb_sym (JobScrapingAutomation.url x)). reflexivity. }
  rewrite findIndex_existsb.
  destruct (GoogleJobSearcher.findIndex _ pre) as [k|] eqn:E.
  - apply findIndex_bound in E. cbn [GoogleJobSearcher.same_index].
    destruct (Nat.eqb_spec k (List.length pre)); [lia | reflexivity].
  - cbn [GoogleJobSearcher.findIndex]. rewrite String.eqb_refl.
    cbn [option_map GoogleJobSearcher.same_index].
    rewrite Nat.add_0_r, Nat.eqb_refl. reflexivity.
Qed.

Lemma firstByUrl_facts seen l :
  NoDup (map JobScrapingAutomation.url (firstByUrl seen l))
  /\ subsequence (firstByUrl seen l) l
  /\ (forall u, In u (map JobScrapingAutomation.url (firstByUrl seen l)) ->
                ~ In u seen)
  /\ (forall x, In x l -> ~ In (JobScrapingAutomation.url x) seen ->
                In (JobScrapingAutomation.url x)
                   (map JobScrapingAutomation.url (firstByUrl seen l))).
Proof.
  revert seen; induction l as [|x l IH]; intros seen; cbn [firstByUrl].
  - split; [constructor|]. split; [constructor|]. split; intros ? [].
  - destruct (existsb (String.eqb (JobScrapingAutomation.url x)) seen) eqn:E.
    + apply existsb_eqb_In in E.
      destruct (IH (seen ++ [JobScrapingAutomation.url x])%list) as (H1 & H2 & H3 & H4).
      split; [exact H1|]. split; [now constructor|]. split.
      * intros u Hu Hs. apply (H3 _ Hu). apply in_or_app. now left.
      * intros y [<- | Hy] Hn; [contradiction|]. apply H4; [exact Hy|].
        intros Hin. apply in_app_or in Hin as [Hin | [Hin | []]];
          [contradiction | congruence].
    + assert (~ In (JobScrapingAutomation.url x) seen) as Hx.
      { intros H. apply existsb_eqb_In in H. congruence. }
      destruct (IH (seen ++ [JobScrapingAutomation.url x])%list) as (H1 & H2 & H3 & H4).
      cbn [map]. split; [|split; [|split]].
      * constructor; [|exact H1]. intros Hin. apply (H3 _ Hin).
        apply in_or_app. right. now left.
      * now constructor.
      * intros u [<- | Hu]; [exact Hx|]. intros Hs. apply (H3 _ Hu).
        apply in_or_app. now left.
      * intros y [<- | Hy] Hn; [now left|].
        destruct (string_dec (JobScrapingAutomation.url x) (JobScrapingAutomation.url y))
          as [Eu | Eu]; [left; exact Eu|].
        right. apply H4; [exact Hy|]. intros Hin.
        apply in_app_or in Hin as [Hin | [Hin | []]]; [contradiction | congruence].
Qed.

Lemma collectRoles_In search roles acc r :
  In r (GoogleJobSearcher.collectRoles search roles acc)
  <-> In r acc
      \/ exists role l, In role roles
                        /\ search role = Returned l /\ In r l.
Proof.
  revert acc; induction roles as [|role rest IH]; intros acc;
    cbn [GoogleJobSearcher.collectRoles].
  - split; [auto | intros [H | (role & l & [] & _)]; exact H].
  - destruct (search role) as [msg | l] eqn:E; rewrite IH.
    + split.
      * intros [H | (ro & l & Hin & Hs & Hr)]; [auto|]. right. exists ro, l. simpl. auto.
      * intros [H | (ro & l & [<- | Hin] & Hs & Hr)]; [auto | congruence |].
        right. exists ro, l. auto.
    + rewrite in_app_iff. split.
      * intros [[H | H] | (ro & l' & Hin & Hs & Hr)]; [auto | |].
        -- right. exists role, l. simpl. auto.
        -- right. exists ro, l'. simpl. auto.
      * intros [H | (ro & l' & [<- | Hin] & Hs & Hr)]; [auto | |].
        -- left. right. congruence.
        -- right. exists ro, l'. auto.
Qed.

(** X23.  On a resume that carries the profile under [data],
    [searchAllRoles] never hands the same URL on twice: its result keeps,
    in order, the first result of each URL among the results of the roles
    whose search returned; a role whose search throws contributes nothing
    and takes nothing away from the others.  On a resume without [data]
    it throws before any role is searched. *)
Theorem searchAllRoles_unique_urls search rd :
  (ResumeData.data rd = None ->
   exists message, GoogleJobSearcher.searchAllRoles search rd = Threw message)
  /\ forall profile,
       ResumeData.data rd = Some profile ->
       let roles := Candidate.roles profile in
       let all := GoogleJobSearcher.collectRoles search roles [] in
       exists out,
         GoogleJobSearcher.searchAllRoles search rd = Returned out
         /\ NoDup (map JobScrapingAutomation.url out)
         /\ out = firstByUrl [] all
         /\ subsequence out all
         /\ (forall r, In r out ->
               exists role l, In role roles
                              /\ search role = Returned l /\ In r l)
         /\ (forall role l r,
               In role roles -> search role = Returned l -> In r l ->
               In (JobScrapingAutomation.url r) (map JobScrapingAutomation.url out)).
Proof.
  split.
  { intros Hd. unfold GoogleJobSearcher.searchAllRoles. rewrite Hd.
    eexists. reflexivity. }
  intros profile Hd roles all.
  exists (GoogleJobSearcher.uniqueResults all).
  split.
  { unfold GoogleJobSearcher.searchAllRoles. rewrite Hd. reflexivity. }
  set (out := GoogleJobSearcher.uniqueResults all).
  assert (out = firstByUrl [] all) as E.
  { subst out. unfold GoogleJobSearcher.uniqueResults.
    exact (@uniqueResults_from all [] all eq_refl). }
  destruct (firstByUrl_facts [] all) as (H1 & H2 & _ & H4).
  rewrite <- E in H1, H2, H4.
  split; [exact H1|]. split; [exact E|]. split; [exact H2|]. split.
  - intros r Hr. apply (@subsequence_In _ _ _ r H2) in Hr.
    apply collectRoles_In in Hr as [[] | H]. exact H.
  - intros role l r Hrole Hs Hr. apply H4; [|intros []].
    apply collectRoles_In. right. exists role, l. auto.
Qed.

Lemma searchAllRoles_unique_urls_witness :
  exists out,
    GoogleJobSearcher.searchAllRoles
      (fun role => if String.eqb role "Backend Engineer"
                   then Returned (feed2 ++ feed2)%list
                   else Threw "blocked")
      resume1
    = Returned out
    /\ In "https://a.example/1" (map JobScrapingAutomation.url out).
Proof.
  destruct (searchAllRoles_unique_urls
              (fun role => if String.eqb role "Backend Engineer"
                           then Returned (feed2 ++ feed2)%list
                           else Threw "blocked")
              resume1) as (_ & Hrule).
  destruct (Hrule profile1 eq_refl) as (out & E & _ & _ & _ & _ & Hcover).
  exists out. split; [exact E|].
  apply (Hcover "Backend Engineer" (feed2 ++ feed2)%list
                (JobScrapingAutomation.mkResult "t1" "https://a.example/1" "" "a.example")).
  - left. reflexivity.
  - reflexivity.
  - left. reflexivity.
Defined.

(** ** The scheduler of named tasks *)

Lemma get_split name m :
  match AdvancedJobScheduler.get name m with
  | None =>
      ~ In name (map fst m)
      /\ (forall v, AdvancedJobScheduler.set name v m = (m ++ [(name, v)])%list)
  | Some old =>
      exists a b,
        m = (a ++ (name, old) :: b)%list
        /\ ~ In name (map fst a)
        /\ (forall v, AdvancedJobScheduler.set name v m = (a ++ (name, v) :: b)%list)
        /\ AdvancedJobScheduler.delete name m = (a ++ b)%list
  end.
Proof.
  induction m as [|[k x] r IH];
    cbn [AdvancedJobScheduler.get AdvancedJobScheduler.set AdvancedJobScheduler.delete].
  - split; [intros [] | reflexivity].
  - destruct (String.eqb_spec k name) as [-> | Hk].
    + exists [], r. cbn [app map]. repeat split; auto.
    + destruct (AdvancedJobScheduler.get name r) as [old|].
      * destruct IH as (a & b & -> & Hn & Hs & Hd). exists ((k, x) :: a), b.
        cbn [app map fst]. split; [reflexivity|]. split.
        -- intros [H | H]; [contradiction | exact (Hn H)].
        -- split; [intros v; now rewrite Hs | now rewrite Hd].
      * destruct IH as (Hn & Hs). split.
        -- cbn [map fst]. intros [H | H]; [contradiction | exact (Hn H)].
        -- intros v. now rewrite Hs.
Qed.

Lemma In_stopped old (l : list nat) tk :
  In tk (filter (fun t => negb (t =? old)%nat) l) <-> In tk l /\ tk <> old.
Proof.
  rewrite filter_In, Bool.negb_true_iff, Nat.eqb_neq. reflexivity.
Qed.

Lemma NoDup_snoc {A} (l : list A) x : NoDup l -> ~ In x l -> NoDup (l ++ [x]).
Proof.
  intros Hl Hx. apply (@Permutation_NoDup _ (x :: l)).
  - apply Permutation_cons_append.
  - now constructor.
Qed.

Lemma accounted_replace (L sb running : list nat) old next :
  NoDup (L ++ old :: sb) -> NoDup running ->
  (forall tk, In tk running <-> In tk (L ++ old :: sb)) ->
  (forall tk, In tk running -> (tk < next)%nat) ->
  NoDup (L ++ next :: sb)
  /\ NoDup (filter (fun t => negb (t =? old)%nat) running ++ [next])
  /\ (forall tk, In tk (filter (fun t => negb (t =? old)%nat) running ++ [next])
                 <-> In tk (L ++ next :: sb))
  /\ (forall tk, In tk (filter (fun t => negb (t =? old)%nat) running ++ [next]) ->
                 (tk < S next)%nat).
Proof.
  intros Hids Hrun Hiff Hlt.
  pose proof (NoDup_remove_1 _ _ _ Hids) as Hrest.
  pose proof (NoDup_remove_2 _ _ _ Hids) as Hold.
  assert (~ In next (L ++ sb)) as Hnext.
  { intros H. assert (In next running) as Hr.
    { apply Hiff. apply in_app_or in H. apply in_or_app.
      destruct H; [now left | right; now right]. }
    specialize (Hlt _ Hr). lia. }
  split; [|split; [|split]].
  - apply (Permutation_NoDup (Permutation_middle _ _ _)). now constructor.
  - apply NoDup_snoc; [now apply NoDup_filter|].
    rewrite In_stopped. intros [H _]. specialize (Hlt _ H). lia.
  - intros tk. rewrite in_app_iff, In_stopped, Hiff, !in_app_iff.
    cbn [In]. rewrite in_app_iff in Hold, Hnext. split.
    + intros [[[H | [H | H]] Hne] | [H | []]]; auto. congruence.
    + intros [H | [H | H]]; auto.
      * left. split; [auto|]. intros ->. tauto.
      * left. split; [auto|]. intros ->. tauto.
  - intros tk. rewrite in_app_iff, In_stopped. cbn [In].
    intros [[H _] | [<- | []]]; [specialize (Hlt _ H)|]; lia.
Qed.

Lemma accounted_add (ids running : list nat) next :
  NoDup ids -> NoDup running ->
  (forall tk, In tk running <-> In tk ids) ->
  (forall tk, In tk running -> (tk < next)%nat) ->
  NoDup (ids ++ [next])
  /\ NoDup (running ++ [next])
  /\ (forall tk, In tk (running ++ [next]) <-> In tk (ids ++ [next]))
  /\ (forall tk, In tk (running ++ [next]) -> (tk < S next)%nat).
Proof.
  intros Hids Hrun Hiff Hlt.
  assert (~ In next running) as Hnext by (intros H; specialize (Hlt _ H); lia).
  split; [|split; [|split]].
  - apply NoDup_snoc; [exact Hids | now rewrite <- Hiff].
  - now apply NoDup_snoc.
  - intros tk. rewrite !in_app_iff, Hiff. reflexivity.
  - intros tk. rewrite in_app_iff. cbn [In].
    intros [H | [<- | []]]; [specialize (Hlt _ H)|]; lia.
Qed.

Lemma accounted_remove (L sb running : list nat) old :
  NoDup (L ++ old :: sb) -> NoDup running ->
  (forall tk, In tk running <-> In tk (L ++ old :: sb)) ->
  NoDup (L ++ sb)
  /\ NoDup (filter (fun t => negb (t =? old)%nat) running)
  /\ (forall tk, In tk (filter (fun t => negb (t =? old)%nat) running)
                 <-> In tk (L ++ sb)).
Proof.
  intros Hids Hrun Hiff.
  pose proof (NoDup_remove_1 _ _ _ Hids) as Hrest.
  pose proof (NoDup_remove_2 _ _ _ Hids) as Hold.
  split; [exact Hrest|]. split; [now apply NoDup_filter|].
  intros tk. rewrite In_stopped, Hiff, !in_app_iff. cbn [In].
  rewrite in_app_iff in Hold. split.
  - intros [[H | [H | H]] Hne]; auto. congruence.
  - intros [H | H]; (split; [auto | intros ->; tauto]).
Qed.

Lemma stopEach_running m cron tk :
  In tk (JobScrapingScheduler.running_tasks (AdvancedJobScheduler.stopEach m cron))
  <-> In tk (JobScrapingScheduler.running_tasks cron) /\ ~ In tk (map snd m).
Proof.
  revert cron; induction m as [|[k v] r IH]; intros cron;
    cbn [AdvancedJobScheduler.stopEach map snd In].
  - tauto.
  - rewrite IH. unfold JobScrapingScheduler.task_stop.
    cbn [JobScrapingScheduler.running_tasks]. rewrite In_stopped.
    split; [intros [[H1 H2] H3] | intros [H1 H2]]; repeat split; auto.
    intros [H | H]; [congruence | auto].
Qed.

Lemma stopEach_next m cron :
  JobScrapingScheduler.next_task (AdvancedJobScheduler.stopEach m cron)
  = JobScrapingScheduler.next_task cron.
Proof.
  revert cron; induction m as [|[k v] r IH]; intros cron;
    cbn [AdvancedJobScheduler.stopEach]; [reflexivity|].
  rewrite IH. reflexivity.
Qed.

(** X24.  In a scheduler of named tasks whose cron tasks are all accounted
    for, they stay accounted for: [addScheduledTask] under a name in use
    stops the task it replaces and keeps the name's place, under a new name
    it appends the name; [removeScheduledTask] tells whether the name was
    in use, stops its task and forgets the name only; [stopAll] leaves no
    cron task running and no name. *)
Theorem named_tasks_stay_accounted name s cron :
  tasks_accounted s cron ->
  let added := AdvancedJobScheduler.addScheduledTask name s cron in
  let removed := AdvancedJobScheduler.removeScheduledTask name s cron in
  let stopped := AdvancedJobScheduler.stopAll s cron in
  (tasks_accounted (fst added) (snd added)
   /\ AdvancedJobScheduler.getActiveTasks (fst added)
      = if AdvancedJobScheduler.has name (AdvancedJobScheduler.tasks s)
        then AdvancedJobScheduler.getActiveTasks s
        else (AdvancedJobScheduler.getActiveTasks s ++ [name])%list)
  /\ (tasks_accounted (fst (snd removed)) (snd (snd removed))
      /\ (fst removed = true <-> In name (AdvancedJobScheduler.getActiveTasks s))
      /\ forall n, In n (AdvancedJobScheduler.getActiveTasks (fst (snd removed)))
                   <-> In n (AdvancedJobScheduler.getActiveTasks s) /\ n <> name)
  /\ (tasks_accounted (fst stopped) (snd stopped)
      /\ JobScrapingScheduler.running_tasks (snd stopped) = []
      /\ AdvancedJobScheduler.getActiveTasks (fst stopped) = []
      /\ JobScrapingScheduler.isRunning (AdvancedJobScheduler.base (fst stopped))
         = false).
Proof.
  destruct s as [bs m]. destruct cron as [running next].
  unfold tasks_accounted, task_ids.
  cbn [AdvancedJobScheduler.tasks AdvancedJobScheduler.base
       JobScrapingScheduler.running_tasks JobScrapingScheduler.next_task].
  set (B := match JobScrapingScheduler.task bs with Some tk => [tk] | None => [] end).
  intros (Hkeys & Hids & Hrun & Hiff & Hlt).
  unfold AdvancedJobScheduler.addScheduledTask, AdvancedJobScheduler.removeScheduledTask,
    AdvancedJobScheduler.has, AdvancedJobScheduler.getActiveTasks.
  cbn [AdvancedJobScheduler.tasks AdvancedJobScheduler.base].
  pose proof (get_split name m) as Hsplit.
  split; [|split].
  - destruct (AdvancedJobScheduler.get name m) as [old|].
    + destruct Hsplit as (a & b & -> & Hna & Hset & Hdel).
      unfold JobScrapingScheduler.schedule, JobScrapingScheduler.task_stop.
      cbn [fst snd AdvancedJobScheduler.tasks AdvancedJobScheduler.base
           JobScrapingScheduler.running_tasks JobScrapingScheduler.next_task].
      fold B. rewrite Hset.
      rewrite map_app in Hids, Hiff. cbn [map snd] in Hids, Hiff.
      rewrite app_assoc in Hids.
      assert (forall tk, In tk running <-> In tk ((B ++ map snd a) ++ old :: map snd b))
        as Hiff' by (intros tk; rewrite <- app_assoc; apply Hiff).
      destruct (@accounted_replace _ _ _ _ _ Hids Hrun Hiff' Hlt) as (H1 & H2 & H3 & H4).
      split; [|rewrite !map_app; reflexivity].
      split; [rewrite map_app in Hkeys |- *; exact Hkeys|].
      rewrite (map_app snd). cbn [map snd]. rewrite app_assoc.
      repeat split; auto; apply H3.
    + destruct Hsplit as (Hn & Hset).
      unfold JobScrapingScheduler.schedule.
      cbn [fst snd AdvancedJobScheduler.tasks AdvancedJobScheduler.base
           JobScrapingScheduler.running_tasks JobScrapingScheduler.next_task].
      fold B. rewrite Hset.
      destruct (@accounted_add _ _ _ Hids Hrun Hiff Hlt) as (H1 & H2 & H3 & H4).
      split; [|rewrite map_app; reflexivity].
      split; [rewrite map_app; apply NoDup_snoc; assumption|].
      rewrite (map_app snd). cbn [map snd]. rewrite app_assoc.
      repeat split; auto; apply H3.
  - destruct (AdvancedJobScheduler.get name m) as [old|].
    + destruct Hsplit as (a & b & -> & Hna & Hset & Hdel).
      unfold JobScrapingScheduler.task_stop.
      cbn [fst snd AdvancedJobScheduler.tasks AdvancedJobScheduler.base
           JobScrapingScheduler.running_tasks JobScrapingScheduler.next_task].
      fold B. rewrite Hdel.
      rewrite map_app in Hids, Hiff. cbn [map snd] in Hids, Hiff.
      rewrite app_assoc in Hids.
      assert (forall tk, In tk running <-> In tk ((B ++ map snd a) ++ old :: map snd b))
        as Hiff' by (intros tk; rewrite <- app_assoc; apply Hiff).
      destruct (@accounted_remove _ _ _ _ Hids Hrun Hiff') as (H1 & H2 & H3).
      rewrite map_app in Hkeys. cbn [map fst] in Hkeys.
      pose proof (NoDup_remove_1 _ _ _ Hkeys) as Hk1.
      pose proof (NoDup_remove_2 _ _ _ Hkeys) as Hk2.
      split; [|split].
      * split; [rewrite map_app; exact Hk1|].
        rewrite (map_app snd), app_assoc.
        repeat split; auto; try apply H3.
        intros tk Htk. apply In_stopped in Htk as [Htk _]. now apply Hlt.
      * split; [intros _ | reflexivity].
        rewrite map_app, in_app_iff. right. now left.
      * intros n. rewrite !map_app, !in_app_iff. cbn [map fst In].
        rewrite in_app_iff in Hk2. split.
        -- intros [H | H]; (split; [auto | intros ->; tauto]).
        -- intros [[H | [H | H]] Hne]; auto. congruence.
    + destruct Hsplit as (Hn & Hset).
      cbn [fst snd AdvancedJobScheduler.tasks AdvancedJobScheduler.base
           JobScrapingScheduler.running_tasks JobScrapingScheduler.next_task].
      fold B. split; [repeat split; auto; apply Hiff|]. split.
      * split; [discriminate | intros H; contradiction].
      * intros n. split; [intros H; split; [exact H | intros ->; contradiction] | tauto].
  - unfold AdvancedJobScheduler.stopAll. cbn [AdvancedJobScheduler.tasks
      AdvancedJobScheduler.base fst snd map].
    assert (JobScrapingScheduler.task
              (fst (JobScrapingScheduler.stop bs (JobScrapingScheduler.mkCron running next)))
            = None) as Hnone.
    { unfold JobScrapingScheduler.stop.
      destruct (JobScrapingScheduler.task bs) eqn:E; [reflexivity | exact E]. }
    assert (JobScrapingScheduler.running_tasks
              (AdvancedJobScheduler.stopEach m
                 (snd (JobScrapingScheduler.stop bs
                         (JobScrapingScheduler.mkCron running next)))) = []) as Hempty.
    { match goal with |- ?l = [] => destruct l as [|tk rest] eqn:E end; [reflexivity|].
      exfalso. assert (In tk (tk :: rest)) as Hin by now left. rewrite <- E in Hin.
      apply stopEach_running in Hin as [Hin Hnm].
      unfold JobScrapingScheduler.stop in Hin. subst B.
      destruct (JobScrapingScheduler.task bs) as [t0|];
        cbn [snd JobScrapingScheduler.running_tasks JobScrapingScheduler.task_stop] in Hin.
      - apply In_stopped in Hin as [Hin Hne]. apply Hiff in Hin.
        apply in_app_or in Hin as [[H | []] | H]; [congruence | contradiction].
      - apply Hiff in Hin. cbn [app] in Hin. contradiction. }
    rewrite Hnone, Hempty. cbn [app map].
    split; [|split; [reflexivity|split; [reflexivity|]]].
    + repeat split; try constructor; try tauto; intros ? [].
    + unfold JobScrapingScheduler.isRunning. now rewrite Hnone.
Qed.

Lemma named_tasks_stay_accounted_witness :
  AdvancedJobScheduler.getActiveTasks
    (fst (AdvancedJobScheduler.addScheduledTask "weekly"
            (AdvancedJobScheduler.mk scheduler0 [("daily", 0%nat)])
            (JobScrapingScheduler.mkCron [0%nat] 1)))
  = ["daily"; "weekly"].
Proof.
  assert (tasks_accounted (AdvancedJobScheduler.mk scheduler0 [("daily", 0%nat)])
                          (JobScrapingScheduler.mkCron [0%nat] 1)) as H.
  { unfold tasks_accounted, task_ids. cbn.
    repeat split; try (constructor; [intros [] | constructor]); auto.
    intros tk [<- | []]. lia. }
  destruct (named_tasks_stay_accounted "weekly" H) as ((_ & Hnames) & _).
  exact Hnames.
Defined.

(** ** Ranking and selection together *)

Lemma leb_trans a b c : leb a b = true -> leb b c = true -> leb a c = true.
Proof.
  destruct a as [x| | |], b as [y| | |], c as [z| | |]; cbn [leb];
    try discriminate; try reflexivity.
  rewrite !Qle_bool_iff. apply Qle_trans.
Qed.

Lemma filter_sorted_prefix {A} (R : A -> A -> Prop) (p : A -> bool) l :
  StronglySorted R l ->
  (forall a b, R a b -> p b = true -> p a = true) ->
  filter p l = firstn (List.length (filter p l)) l.
Proof.
  intros Hs Hp. induction Hs as [|x l Hl IH Hx]; [reflexivity|].
  cbn [filter]. destruct (p x) eqn:E.
  - cbn [List.length firstn]. now rewrite <- IH.
  - assert (filter p l = []) as ->; [|reflexivity].
    clear IH Hl. induction l as [|y l IHl]; [reflexivity|].
    apply Forall_cons_iff in Hx as [Hy Hx]. cbn [filter].
    destruct (p y) eqn:Ey; [|now apply IHl].
    rewrite (Hp _ _ Hy Ey) in E. discriminate.
Qed.

Lemma sorted_prefix_rest {A} (R : A -> A -> Prop) k (l : list A) a b :
  StronglySorted R l -> In a (firstn k l) -> In b (skipn k l) -> R a b.
Proof.
  intros Hs. revert k; induction Hs as [|x l Hl IH Hx]; intros k Ha Hb.
  - rewrite firstn_nil in Ha. destruct Ha.
  - destruct k as [|k]; [destruct Ha|]. cbn [firstn skipn] in Ha, Hb.
    destruct Ha as [<- | Ha]; [|now apply (IH k)].
    rewrite Forall_forall in Hx. apply Hx.
    rewrite <- (firstn_skipn k l). apply in_or_app. now right.
Qed.

(** X25.  Ranking and selection together, on a resume that carries the
    profile under [data]: for every batch, threshold and count [n], the
    selection made from the ranked batch is the first [k] jobs of the
    ranking for some [k] not above [n], so a job that is left out never
    scores higher than a job that is selected; every selected job is the
    scored form of a job of the batch, with a score in [0,1] and at least
    one match reason. *)
Theorem topJobs_are_best_ranked rd profile jobs c minScore (n : nat) :
  ResumeData.data rd = Some profile ->
  exists ranked,
    run (JobMatcher.scoreMultipleJobs rd jobs) c = Returned ranked
    /\ let top := JobMatcher.selectTopJobs minScore ranked (of_nat n) in
       exists k,
         (k <= n)%nat
         /\ top = firstn k ranked
         /\ (forall a b, In a top -> In b (skipn k ranked) -> score_ge a b)
         /\ Forall (fun s => In (ScoredJob.job s) jobs
                             /\ in_range 0 1 (ScoredJob.score s)
                             /\ (1 <= List.length (ScoredJob.matchReasons s))%nat) top.
Proof.
  intros Hd.
  destruct (@scoreMultipleJobs_returns rd _ jobs c Hd) as (l & c1 & _ & Er & Hm & Hf).
  exists (sort JobMatcher.byScoreDesc l). unfold run. rewrite Er. cbn [fst].
  split; [reflexivity|].
  set (ranked := sort JobMatcher.byScoreDesc l).
  set (top := JobMatcher.selectTopJobs minScore ranked (of_nat n)).
  assert (Forall finite_score l) as Hfin.
  { eapply Forall_impl; [|exact Hf]. intros s [Hs _]. now apply finite_of_range. }
  assert (StronglySorted score_ge ranked) as Hs by now apply sort_sorted.
  assert (Forall (fun s => In (ScoredJob.job s) jobs
                           /\ in_range 0 1 (ScoredJob.score s)
                           /\ (1 <= List.length (ScoredJob.matchReasons s))%nat) ranked)
    as Hall.
  { apply (Permutation_Forall (sort_perm JobMatcher.byScoreDesc l)).
    rewrite Forall_forall in Hf |- *. intros s Hin.
    destruct (Hf s Hin) as [H1 H2]. split; [|split; assumption].
    rewrite <- Hm. now apply in_map. }
  assert (exists k, (k <= n)%nat /\ top = firstn k ranked) as (k & Hk & Htop).
  { subst top. unfold JobMatcher.selectTopJobs.
    destruct (_ =? 0)%nat; rewrite slice0_of_nat.
    - exists n. split; [lia | reflexivity].
    - rewrite (@filter_sorted_prefix _ score_ge _ ranked Hs).
      + rewrite firstn_firstn. eexists. split; [|reflexivity]. lia.
      + intros a b Hab Hb. unfold score_ge, geb in *.
        exact (leb_trans _ _ _ Hb Hab). }
  exists k. split; [exact Hk|]. split; [exact Htop|]. split.
  - intros a b Ha Hb. rewrite Htop in Ha. exact (@sorted_prefix_rest _ _ k _ _ _ Hs Ha Hb).
  - rewrite Htop. rewrite Forall_forall in Hall |- *.
    intros s Hin. apply Hall. rewrite <- (firstn_skipn k ranked).
    apply in_or_app. now left.
Qed.

Lemma topJobs_are_best_ranked_witness :
  exists ranked,
    run (JobMatcher.scoreMultipleJobs resume1 [job_dated; job_undated]) clock0
    = Returned ranked
    /\ (List.length (JobMatcher.selectTopJobs (Fin (3 # 10)) ranked (of_nat 1)) <= 1)%nat.
Proof.
  destruct (@topJobs_are_best_ranked resume1 profile1 [job_dated; job_undated] clock0
              (Fin (3 # 10)) 1 eq_refl) as (ranked & E & k & Hk & Htop & _).
  exists ranked. split; [exact E|]. rewrite Htop.
  rewrite length_firstn. lia.
Defined.
